(** * DOS emulation layer of the Applesoft BASIC interpreter (dos.js)

    A shallow embedding of [DOS(tty)]: the argument grammar [parseArgs],
    the virtual file system wrappers, the buffer operations
    ([open], [append], [close], [read], [write], [position], ...), the
    command dispatcher [executeCommand] and the three hooked terminal
    entry points ([_dos_readLine], [_dos_readChar], [_dos_writeChar]).

    Modelling decisions.
    - A JavaScript string is a [list ascii]; a character is one code unit
      below 256.
    - A JavaScript number is an exact integer or [NaN].  The program only
      builds numbers from unsigned digit strings, string lengths, [+], [*]
      and one floored division by a record length that [open] has made
      non-zero, so no fraction arises.  Doubles are exact on the integers
      up to 2^53, and that is where the embedding and the program agree:
      the embedding does not round above and has no infinity, so a
      statement that depends on the value of a number bounds it by
      [exact_bound].
    - The closure variables of [DOS] form the record [dos].  A buffer is a
      mutable object shared between [buffers] and [activebuffer]: objects
      live in [heap] and both places hold references (indices).
    - [window.localStorage] is a finite map from the prefixed key to the
      text that [decodeURIComponent] gives back, [encodeURIComponent] and
      [decodeURIComponent] being mutually inverse on what [vfs_set] stores.
    - [buffers] is used as a dictionary and only its own properties are
      modelled.  What the object inherits is not: a statement about a
      lookup, an assignment or a deletion by name is made for an
      [ordinary] name, and one about [buffers.hasOwnProperty] for a table
      that binds no buffer under that name.
    - The synchronous [XMLHttpRequest] and [Number] applied to the slot
      text of [PR#] are answers of the host, taken as parameters.
    - The terminal is a collaborator: calls to its original routines, to
      [tty.writeString] and to [tty.setFirmwareActive] are recorded in
      [tty_out] and have no effect on the session; a value read through
      the callback of a hooked read is the result of the operation.
    - [localStorage.setItem] always succeeds (no quota).
    - A thrown exception keeps the mutations made before the throw. *)

From Stdlib Require Import ZArith Ascii String List Lia Bool.
From stdpp Require Import base gmap list strings fin_maps.

Local Open Scope Z_scope.

(** ** Strings and numbers *)

Abbreviation jsstring := (list ascii).

Definition str (s : string) : jsstring := list_ascii_of_string s.

Definition code (c : ascii) : Z := Z.of_N (N_of_ascii c).

Definition jslength (s : jsstring) : Z := Z.of_nat (length s).

Inductive jsnum :=
| Num (z : Z)
| NaN.

Definition js_add (a b : jsnum) : jsnum :=
  match a, b with
  | Num x, Num y => Num (x + y)
  | _, _ => NaN
  end.

Definition js_mul (a b : jsnum) : jsnum :=
  match a, b with
  | Num x, Num y => Num (x * y)
  | _, _ => NaN
  end.

(** [Math.floor(a / b)]; the only divisor in the program is a record
    length, which is never zero (lemma [append_divisor_nonzero]). *)
Definition js_floor_div (a b : jsnum) : jsnum :=
  match a, b with
  | Num x, Num y => if y =? 0 then NaN else Num (x / y)
  | _, _ => NaN
  end.

(** Comparisons with [NaN] are false. *)
Definition js_gt (a b : jsnum) : bool :=
  match a, b with
  | Num x, Num y => y <? x
  | _, _ => false
  end.

Definition js_lt (a b : jsnum) : bool := js_gt b a.

Definition js_ge (a b : jsnum) : bool :=
  match a, b with
  | Num x, Num y => y <=? x
  | _, _ => false
  end.

Definition js_eq (a b : jsnum) : bool :=
  match a, b with
  | Num x, Num y => x =? y
  | _, _ => false
  end.

(** [s[i]]: [undefined] (here [None]) unless [i] is an index of [s]. *)
Definition js_index (s : jsstring) (i : jsnum) : option ascii :=
  match i with
  | Num z => if z <? 0 then None else s !! Z.to_nat z
  | NaN => None
  end.

(** [s.substring(a, b)] and [s.substring(a)]: each bound is clamped to
    [0 .. s.length], [NaN] counts as 0, and the bounds are swapped when
    the first exceeds the second. *)
Definition clamp (s : jsstring) (i : jsnum) : nat :=
  match i with
  | Num z => Z.to_nat (Z.min (Z.max z 0) (jslength s))
  | NaN => 0%nat
  end.

Definition substring (s : jsstring) (a b : jsnum) : jsstring :=
  let i := clamp s a in
  let j := clamp s b in
  take (Nat.max i j - Nat.min i j) (drop (Nat.min i j) s).

Definition substring_from (s : jsstring) (a : jsnum) : jsstring :=
  drop (clamp s a) s.
Arguments substring : simpl never.
Arguments substring_from : simpl never.

(** ** Regular expressions

    The patterns of dos.js use anchors, character classes, greedy star,
    plus and question mark, and capturing groups (written below token by
    token, with spaces between the tokens).  [rmatch] is a backtracking matcher
    in continuation-passing style with the priorities of the JavaScript
    matcher: a quantifier first takes as much as it can and gives back
    one step at a time when the rest of the pattern fails. *)

Inductive regex :=
| Bol                                    (* ^ *)
| Eol                                    (* $ *)
| Cls (p : ascii -> bool)                (* one character of a class *)
| Cat (r1 r2 : regex)
| Alt (r1 r2 : regex)                    (* r1|r2 *)
| Opt (r : regex)                        (* r? *)
| Star (p : ascii -> bool)               (* [class]* *)
| Plus (p : ascii -> bool)               (* [class]+ *)
| Grp (n : nat) (r : regex).             (* n-th capturing group *)

(** [RegExp.$1], [RegExp.$2], [RegExp.$3]; a group that took no part in
    the match reads as the empty string. *)
Record captures := { cap1 : jsstring; cap2 : jsstring; cap3 : jsstring }.

Definition no_captures : captures := {| cap1 := []; cap2 := []; cap3 := [] |}.

Definition set_cap (n : nat) (v : jsstring) (c : captures) : captures :=
  match n with
  | 1%nat => {| cap1 := v; cap2 := cap2 c; cap3 := cap3 c |}
  | 2%nat => {| cap1 := cap1 c; cap2 := v; cap3 := cap3 c |}
  | 3%nat => {| cap1 := cap1 c; cap2 := cap2 c; cap3 := v |}
  | _ => c
  end.

Definition cont := nat -> jsstring -> captures -> option captures.

Fixpoint rstar (p : ascii -> bool) (pos : nat) (s : jsstring) (c : captures)
  (k : cont) : option captures :=
  match s with
  | ch :: s' =>
      if p ch then
        match rstar p (S pos) s' c k with
        | Some r => Some r
        | None => k pos s c
        end
      else k pos s c
  | [] => k pos s c
  end.

Fixpoint rmatch (r : regex) (pos : nat) (s : jsstring) (c : captures)
  (k : cont) : option captures :=
  match r with
  | Bol => if Nat.eqb pos 0 then k pos s c else None
  | Eol => match s with [] => k pos s c | _ :: _ => None end
  | Cls p =>
      match s with
      | ch :: s' => if p ch then k (S pos) s' c else None
      | [] => None
      end
  | Cat r1 r2 => rmatch r1 pos s c (fun pos' s' c' => rmatch r2 pos' s' c' k)
  | Alt r1 r2 =>
      match rmatch r1 pos s c k with
      | Some res => Some res
      | None => rmatch r2 pos s c k
      end
  | Opt r1 =>
      match rmatch r1 pos s c k with
      | Some res => Some res
      | None => k pos s c
      end
  | Star p => rstar p pos s c k
  | Plus p =>
      match s with
      | ch :: s' => if p ch then rstar p (S pos) s' c k else None
      | [] => None
      end
  | Grp n r1 =>
      rmatch r1 pos s c
        (fun pos' s' c' => k pos' s' (set_cap n (take (pos' - pos) s) c'))
  end.

(** [s.match(r)] without the global flag: the leftmost start position at
    which the pattern matches. *)
Fixpoint search (r : regex) (pos : nat) (s : jsstring) : option captures :=
  match rmatch r pos s no_captures (fun _ _ c => Some c) with
  | Some c => Some c
  | None =>
      match s with
      | [] => None
      | _ :: s' => search r (S pos) s'
      end
  end.

Definition js_match (r : regex) (s : jsstring) : option captures :=
  search r 0 s.
Arguments js_match : simpl never.

(** *** Character classes *)

Definition in_range (lo hi : Z) (c : ascii) : bool :=
  (lo <=? code c) && (code c <=? hi).

Definition is_char (a : ascii) (c : ascii) : bool := Ascii.eqb a c.

(** [\s] on code units below 256: TAB, LF, VT, FF, CR, space, NBSP. *)
Definition white_space (c : ascii) : bool :=
  in_range 9 13 c || (code c =? 32) || (code c =? 160).

(** [[\x20-\x7E]] *)
Definition printable (c : ascii) : bool := in_range 32 126 c.

(** [[\x20-\x2B\x2D-\x7E]]: printable and not a comma. *)
Definition name_char (c : ascii) : bool :=
  in_range 32 43 c || in_range 45 126 c.

(** [[VDSLRBACIO]] *)
Definition option_letter (c : ascii) : bool :=
  existsb (Ascii.eqb c) (str "VDSLRBACIO").

(** [[0-9]] and [[0-9A-Fa-f]] *)
Definition digit (c : ascii) : bool := in_range 48 57 c.

Definition hex_digit (c : ascii) : bool :=
  in_range 48 57 c || in_range 65 70 c || in_range 97 102 c.

(** A literal word, one class per character. *)
Fixpoint lit (w : jsstring) (r : regex) : regex :=
  match w with
  | [] => r
  | a :: w' => Cat (Cls (is_char a)) (lit w' r)
  end.

(** *** The patterns of the program *)

(** Pattern of [parseArgs], token by token:
    [^ ,? \s* ( [VDSLRBACIO] ) \s* ( [0-9]+ | \$ [0-9A-Fa-f]+ )? \s* ( [\x20-\x7E]* )] *)
Definition re_ARG : regex :=
  Cat Bol
 (Cat (Opt (Cls (is_char ",")))
 (Cat (Star white_space)
 (Cat (Grp 1 (Cls option_letter))
 (Cat (Star white_space)
 (Cat (Opt (Grp 2 (Alt (Plus digit)
                       (Cat (Cls (is_char "$")) (Plus hex_digit)))))
 (Cat (Star white_space)
      (Grp 3 (Star printable)))))))).

(** [^ MON ( [\x20-\x7E]* )] and [^ NOMON ( [\x20-\x7E]* )] *)
Definition re_MON : regex := Cat Bol (lit (str "MON") (Grp 1 (Star printable))).
Definition re_NOMON : regex :=
  Cat Bol (lit (str "NOMON") (Grp 1 (Star printable))).

(** [^ KEYWORD \s* ( [\x20-\x2B\x2D-\x7E]+ ) ( , [\x20-\x7E]* )?] *)
Definition re_file (keyword : string) : regex :=
  Cat Bol (lit (str keyword)
    (Cat (Star white_space)
    (Cat (Grp 1 (Plus name_char))
         (Opt (Grp 2 (Cat (Cls (is_char ",")) (Star printable))))))).

Definition re_OPEN : regex := re_file "OPEN".
Definition re_APPEND : regex := re_file "APPEND".
Definition re_POSITION : regex := re_file "POSITION".
Definition re_READ : regex := re_file "READ".
Definition re_WRITE : regex := re_file "WRITE".
Definition re_DELETE : regex := re_file "DELETE".
Definition re_PR : regex := re_file "PR#".

(** [^ CLOSE \s* ( [\x20-\x2B\x2D-\x7E]+ )? ( , [\x20-\x7E]* )?] *)
Definition re_CLOSE : regex :=
  Cat Bol (lit (str "CLOSE")
    (Cat (Star white_space)
    (Cat (Opt (Grp 1 (Plus name_char)))
         (Opt (Grp 2 (Cat (Cls (is_char ",")) (Star printable))))))).

(** [^ RENAME \s* ( [\x20-\x2B\x2D-\x7E]+ ) , \s* ( [\x20-\x2B\x2D-\x7E]+ ) ( , [\x20-\x7E]* )?] *)
Definition re_RENAME : regex :=
  Cat Bol (lit (str "RENAME")
    (Cat (Star white_space)
    (Cat (Grp 1 (Plus name_char))
    (Cat (Cls (is_char ","))
    (Cat (Star white_space)
    (Cat (Grp 2 (Plus name_char))
         (Opt (Grp 3 (Cat (Cls (is_char ",")) (Star printable)))))))))).

(** [^ $] *)
Definition re_EMPTY : regex := Cat Bol Eol.

(** ** Argument records *)

(** [Number(RegExp.$2)] on the texts group 2 of the argument pattern can
    capture: the empty text is 0, a run of decimal digits is its value,
    and a text that starts with a dollar sign is no numeric literal of
    JavaScript, so it converts to [NaN]. *)
Fixpoint digits_value (acc : Z) (s : jsstring) : Z :=
  match s with
  | [] => acc
  | c :: s' => digits_value (10 * acc + (code c - 48)) s'
  end.

Definition js_Number (s : jsstring) : jsnum :=
  match s with
  | [] => Num 0
  | _ :: _ => if forallb digit s then Num (digits_value 0 s) else NaN
  end.

(** [hay.indexOf(needle)] *)
Fixpoint starts_with (needle hay : jsstring) : bool :=
  match needle, hay with
  | [], _ => true
  | a :: n', b :: h' => Ascii.eqb a b && starts_with n' h'
  | _ :: _, [] => false
  end.

Fixpoint indexOf_from (i : Z) (hay needle : jsstring) : Z :=
  if starts_with needle hay then i
  else match hay with
       | [] => -1
       | _ :: h' => indexOf_from (i + 1) h' needle
       end.

Definition indexOf (hay needle : jsstring) : Z := indexOf_from 0 hay needle.

(** The object [args] of [parseArgs]: numeric letters start at 0, the
    three echo letters start [undefined]. *)
Record Args := {
  arg_V : jsnum; arg_D : jsnum; arg_S : jsnum; arg_L : jsnum;
  arg_R : jsnum; arg_B : jsnum; arg_A : jsnum;
  arg_C : option jsnum; arg_I : option jsnum; arg_O : option jsnum }.

Definition default_args : Args :=
  {| arg_V := Num 0; arg_D := Num 0; arg_S := Num 0; arg_L := Num 0;
     arg_R := Num 0; arg_B := Num 0; arg_A := Num 0;
     arg_C := None; arg_I := None; arg_O := None |}.

(** [args[letter] = v], for the letters group 1 can capture. *)
Definition set_arg (letter : jsstring) (v : jsnum) (a : Args) : Args :=
  match letter with
  | [l] =>
      if Ascii.eqb l "V" then
        {| arg_V := v; arg_D := arg_D a; arg_S := arg_S a; arg_L := arg_L a;
           arg_R := arg_R a; arg_B := arg_B a; arg_A := arg_A a;
           arg_C := arg_C a; arg_I := arg_I a; arg_O := arg_O a |}
      else if Ascii.eqb l "D" then
        {| arg_V := arg_V a; arg_D := v; arg_S := arg_S a; arg_L := arg_L a;
           arg_R := arg_R a; arg_B := arg_B a; arg_A := arg_A a;
           arg_C := arg_C a; arg_I := arg_I a; arg_O := arg_O a |}
      else if Ascii.eqb l "S" then
        {| arg_V := arg_V a; arg_D := arg_D a; arg_S := v; arg_L := arg_L a;
           arg_R := arg_R a; arg_B := arg_B a; arg_A := arg_A a;
           arg_C := arg_C a; arg_I := arg_I a; arg_O := arg_O a |}
      else if Ascii.eqb l "L" then
        {| arg_V := arg_V a; arg_D := arg_D a; arg_S := arg_S a; arg_L := v;
           arg_R := arg_R a; arg_B := arg_B a; arg_A := arg_A a;
           arg_C := arg_C a; arg_I := arg_I a; arg_O := arg_O a |}
      else if Ascii.eqb l "R" then
        {| arg_V := arg_V a; arg_D := arg_D a; arg_S := arg_S a; arg_L := arg_L a;
           arg_R := v; arg_B := arg_B a; arg_A := arg_A a;
           arg_C := arg_C a; arg_I := arg_I a; arg_O := arg_O a |}
      else if Ascii.eqb l "B" then
        {| arg_V := arg_V a; arg_D := arg_D a; arg_S := arg_S a; arg_L := arg_L a;
           arg_R := arg_R a; arg_B := v; arg_A := arg_A a;
           arg_C := arg_C a; arg_I := arg_I a; arg_O := arg_O a |}
      else if Ascii.eqb l "A" then
        {| arg_V := arg_V a; arg_D := arg_D a; arg_S := arg_S a; arg_L := arg_L a;
           arg_R := arg_R a; arg_B := arg_B a; arg_A := v;
           arg_C := arg_C a; arg_I := arg_I a; arg_O := arg_O a |}
      else if Ascii.eqb l "C" then
        {| arg_V := arg_V a; arg_D := arg_D a; arg_S := arg_S a; arg_L := arg_L a;
           arg_R := arg_R a; arg_B := arg_B a; arg_A := arg_A a;
           arg_C := Some v; arg_I := arg_I a; arg_O := arg_O a |}
      else if Ascii.eqb l "I" then
        {| arg_V := arg_V a; arg_D := arg_D a; arg_S := arg_S a; arg_L := arg_L a;
           arg_R := arg_R a; arg_B := arg_B a; arg_A := arg_A a;
           arg_C := arg_C a; arg_I := Some v; arg_O := arg_O a |}
      else if Ascii.eqb l "O" then
        {| arg_V := arg_V a; arg_D := arg_D a; arg_S := arg_S a; arg_L := arg_L a;
           arg_R := arg_R a; arg_B := arg_B a; arg_A := arg_A a;
           arg_C := arg_C a; arg_I := arg_I a; arg_O := Some v |}
      else a
  | _ => a
  end.

(** ** Exceptions *)

Inductive exn :=
| RuntimeError (errcode : Z) (msg : jsstring)   (* basic.RuntimeError *)
| TypeError                                     (* property read on null *)
| XhrFailure                                    (* thrown by req.send *)
| BadReference.   (* use of a reference outside the heap; never thrown
                     from a reachable state (lemma [step_no_bad_reference]) *)

Inductive outcome (A : Type) :=
| Ok (a : A)
| Throw (e : exn).
Arguments Ok {A} a.
Arguments Throw {A} e.

(** The table [DOSErrors]; [doserror(msg)] throws
    [new basic.RuntimeError(msg[1], msg[0])]. *)
Definition LANGUAGE_NOT_AVAILABLE : Z * jsstring := (1, str "Language not available").
Definition RANGE_ERROR : Z * jsstring := (2, str "Range error").
Definition WRITE_PROTECTED : Z * jsstring := (4, str "Write protected").
Definition END_OF_DATA : Z * jsstring := (5, str "End of data").
Definition FILE_NOT_FOUND : Z * jsstring := (6, str "File not found").
Definition VOLUME_MISMATCH : Z * jsstring := (7, str "Volume mismatch").
Definition IO_ERROR : Z * jsstring := (8, str "I/O error").
Definition DISK_FULL : Z * jsstring := (9, str "Disk full").
Definition FILE_LOCKED : Z * jsstring := (10, str "File locked").
Definition INVALID_OPTION : Z * jsstring := (11, str "Invalid option").
Definition NO_BUFFERS_AVAILABLE : Z * jsstring := (12, str "No buffers available").
Definition FILE_TYPE_MISMATCH : Z * jsstring := (13, str "File type mismatch").
Definition PROGRAM_TOO_LARGE : Z * jsstring := (14, str "Program too large").
Definition NOT_DIRECT_COMMAND : Z * jsstring := (15, str "Not direct command").

Definition doserror_exn (msg : Z * jsstring) : exn :=
  RuntimeError (fst msg) (snd msg).

(** ** parseArgs

    The loop [while (str.match(...)) { ...; str = RegExp.$3; }] runs at
    most [str.length] times, because group 3 is a proper suffix of the
    text matched (lemma [re_ARG_shrinks]); [fuel] is that bound.  With no
    fuel left the text is empty, the pattern cannot match and the loop
    is left (lemma [parseArgs_loop_unfold]). *)
Definition parseArgs_exit (s : jsstring) (args : Args) : outcome Args :=
  if 0 <? jslength s then Throw (doserror_exn INVALID_OPTION) else Ok args.

Fixpoint parseArgs_loop (fuel : nat) (s opts : jsstring) (args : Args)
  : outcome Args :=
  match fuel with
  | O => parseArgs_exit s args
  | S fuel' =>
      match js_match re_ARG s with
      | Some m =>
          if indexOf opts (cap1 m) =? -1
          then Throw (doserror_exn INVALID_OPTION)
          else parseArgs_loop fuel' (cap3 m) opts
                 (set_arg (cap1 m) (js_Number (cap2 m)) args)
      | None => parseArgs_exit s args
      end
  end.

Definition parseArgs (s opts : jsstring) : outcome Args :=
  parseArgs_loop (length s) s opts default_args.

(** ** Session state *)

Record buffer := {
  file : option jsstring;        (* null or the content *)
  recordlength : jsnum;
  recordnum : jsnum;
  filepointer : jsnum }.

Inductive Mode :=
| MNone                          (* mode = "" *)
| MRead                          (* mode = "r" *)
| MWrite.                        (* mode = "w" *)

Global Instance Mode_eq_dec : EqDecision Mode.
Proof. solve_decision. Defined.

Inductive tty_event :=
| TtyWriteChar (c : option ascii)     (* tty_writeChar(c) *)
| TtyWriteString (s : jsstring)       (* tty.writeString(s) *)
| TtyReadLine (prompt : jsstring)     (* tty_readLine(callback, prompt) *)
| TtyReadChar                         (* tty_readChar(callback) *)
| TtyFirmware (active : bool).        (* tty.setFirmwareActive(active) *)

Record dos := {
  commandBuffer : jsstring;
  commandMode : bool;
  buffers : gmap jsstring nat;        (* file name -> reference *)
  heap : list buffer;                 (* the buffer objects *)
  activebuffer : option nat;          (* null or a reference *)
  mode : Mode;
  monico : Z;
  localStorage : gmap jsstring jsstring;
  tty_out : list tty_event }.

Definition initial : dos :=
  {| commandBuffer := []; commandMode := false; buffers := ∅; heap := [];
     activebuffer := None; mode := MNone; monico := 0;
     localStorage := ∅; tty_out := [] |}.

Definition with_commandBuffer (v : jsstring) (st : dos) : dos :=
  {| commandBuffer := v; commandMode := commandMode st;
     buffers := buffers st; heap := heap st;
     activebuffer := activebuffer st; mode := mode st; monico := monico st;
     localStorage := localStorage st; tty_out := tty_out st |}.

Definition with_commandMode (v : bool) (st : dos) : dos :=
  {| commandBuffer := commandBuffer st; commandMode := v;
     buffers := buffers st; heap := heap st;
     activebuffer := activebuffer st; mode := mode st; monico := monico st;
     localStorage := localStorage st; tty_out := tty_out st |}.

Definition with_buffers (v : gmap jsstring nat) (st : dos) : dos :=
  {| commandBuffer := commandBuffer st; commandMode := commandMode st;
     buffers := v; heap := heap st;
     activebuffer := activebuffer st; mode := mode st; monico := monico st;
     localStorage := localStorage st; tty_out := tty_out st |}.

Definition with_heap (v : list buffer) (st : dos) : dos :=
  {| commandBuffer := commandBuffer st; commandMode := commandMode st;
     buffers := buffers st; heap := v;
     activebuffer := activebuffer st; mode := mode st; monico := monico st;
     localStorage := localStorage st; tty_out := tty_out st |}.

Definition with_activebuffer (v : option nat) (st : dos) : dos :=
  {| commandBuffer := commandBuffer st; commandMode := commandMode st;
     buffers := buffers st; heap := heap st;
     activebuffer := v; mode := mode st; monico := monico st;
     localStorage := localStorage st; tty_out := tty_out st |}.

Definition with_mode (v : Mode) (st : dos) : dos :=
  {| commandBuffer := commandBuffer st; commandMode := commandMode st;
     buffers := buffers st; heap := heap st;
     activebuffer := activebuffer st; mode := v; monico := monico st;
     localStorage := localStorage st; tty_out := tty_out st |}.

Definition with_monico (v : Z) (st : dos) : dos :=
  {| commandBuffer := commandBuffer st; commandMode := commandMode st;
     buffers := buffers st; heap := heap st;
     activebuffer := activebuffer st; mode := mode st; monico := v;
     localStorage := localStorage st; tty_out := tty_out st |}.

Definition with_localStorage (v : gmap jsstring jsstring) (st : dos) : dos :=
  {| commandBuffer := commandBuffer st; commandMode := commandMode st;
     buffers := buffers st; heap := heap st;
     activebuffer := activebuffer st; mode := mode st; monico := monico st;
     localStorage := v; tty_out := tty_out st |}.

Definition with_tty_out (v : list tty_event) (st : dos) : dos :=
  {| commandBuffer := commandBuffer st; commandMode := commandMode st;
     buffers := buffers st; heap := heap st;
     activebuffer := activebuffer st; mode := mode st; monico := monico st;
     localStorage := localStorage st; tty_out := v |}.

(** ** The state and exception monad *)

Definition M (A : Type) : Type := dos -> outcome A * dos.

Global Instance M_ret : MRet M := fun A a st => (Ok a, st).

Global Instance M_bind : MBind M := fun A B f m st =>
  match m st with
  | (Ok a, st') => f a st'
  | (Throw e, st') => (Throw e, st')
  end.

Definition throw {A : Type} (e : exn) : M A := fun st => (Throw e, st).

Definition doserror {A : Type} (msg : Z * jsstring) : M A :=
  throw (doserror_exn msg).

Definition gets {A : Type} (f : dos -> A) : M A := fun st => (Ok (f st), st).

Definition modify (f : dos -> dos) : M unit := fun st => (Ok tt, f st).

Definition when (b : bool) (m : M unit) : M unit := if b then m else mret tt.

Definition lift {A : Type} (o : outcome A) : M A := fun st => (o, st).

(** Terminal traffic through the original routines. *)
Definition echo (e : tty_event) (st : dos) : dos :=
  with_tty_out (tty_out st ++ [e]) st.

Definition tty (e : tty_event) : M unit := modify (echo e).

(** *** Buffer objects *)

(** [{ file: .., recordlength: .., recordnum: 0, filepointer: 0 }] *)
Definition allocate (b : buffer) (st : dos) : dos :=
  with_heap (heap st ++ [b]) st.

Definition new_object (b : buffer) : M nat :=
  fun st => (Ok (length (heap st)), allocate b st).

Definition field {A : Type} (buf : nat) (proj : buffer -> A) : M A :=
  fun st => match heap st !! buf with
            | Some b => (Ok (proj b), st)
            | None => (Throw BadReference, st)
            end.

Definition update (buf : nat) (b : buffer) (st : dos) : dos :=
  with_heap (<[buf := b]> (heap st)) st.

Definition assign (buf : nat) (f : buffer -> buffer) : M unit :=
  fun st => match heap st !! buf with
            | Some b => (Ok tt, update buf (f b) st)
            | None => (Throw BadReference, st)
            end.

Definition set_file (v : option jsstring) (b : buffer) : buffer :=
  {| file := v; recordlength := recordlength b;
     recordnum := recordnum b; filepointer := filepointer b |}.

Definition set_recordnum (v : jsnum) (b : buffer) : buffer :=
  {| file := file b; recordlength := recordlength b;
     recordnum := v; filepointer := filepointer b |}.

Definition set_filepointer (v : jsnum) (b : buffer) : buffer :=
  {| file := file b; recordlength := recordlength b;
     recordnum := recordnum b; filepointer := v |}.

(** [buf.file.length] and the like: reading a property of [null] throws. *)
Definition nonnull (f : option jsstring) : M jsstring :=
  match f with
  | Some s => mret s
  | None => throw TypeError
  end.

(** A property read on [undefined] throws as well. *)
Definition object (o : option nat) : M nat :=
  match o with
  | Some buf => mret buf
  | None => throw TypeError
  end.

Fixpoint for_each {A : Type} (l : list A) (body : A -> M unit) : M unit :=
  match l with
  | [] => mret tt
  | x :: l' => body x;; for_each l' body
  end.

Definition CR : ascii := "013"%char.
Definition LF : ascii := "010"%char.
Definition NUL : ascii := "000"%char.
Definition EOT : ascii := "004"%char.

Definition MON_I : Z := 1.
Definition MON_C : Z := 2.
Definition MON_O : Z := 4.

Definition flag_set (monico flag : Z) : bool := negb (Z.land monico flag =? 0).

(** ** The host *)

(** What the synchronous request for the text file of a name does:
    [req.send] throws, or it completes with a status and a text.  The
    requested URL is a function of the file name alone. *)
Inductive xhr_result :=
| XhrThrows
| XhrDone (status : Z) (responseText : jsstring).

Record host := {
  xhr : jsstring -> xhr_result;
  slot_number : jsstring -> jsnum;      (* Number(text) for the PR# slot *)
  has_setFirmwareActive : bool }.

(** ** Browser-side VFS *)

Definition STORAGE_PREFIX : jsstring := str "vfs/".

(** Conversion of the stored value to text: [null] becomes "null". *)
Definition to_text (v : option jsstring) : jsstring :=
  match v with
  | Some s => s
  | None => str "null"
  end.

Definition setItem (key value : jsstring) (st : dos) : dos :=
  with_localStorage (<[key := value]> (localStorage st)) st.

Definition removeItem (key : jsstring) (st : dos) : dos :=
  with_localStorage (delete key (localStorage st)) st.

Definition vfs_set (key : jsstring) (value : option jsstring) : M unit :=
  modify (setItem (STORAGE_PREFIX ++ key) (to_text value)).

Definition vfs_get (key : jsstring) : M (option jsstring) :=
  gets (fun st => localStorage st !! (STORAGE_PREFIX ++ key)).

Definition vfs_remove (key : jsstring) : M unit :=
  modify (removeItem (STORAGE_PREFIX ++ key)).

(** ** Implementation *)

(** [buffers[filename] = buf] and [delete buffers[filename]], on the own
    properties of the table. *)
Definition bind_name (filename : jsstring) (buf : nat) (st : dos) : dos :=
  with_buffers (<[filename := buf]> (buffers st)) st.

Definition unbind_name (filename : jsstring) (st : dos) : dos :=
  with_buffers (delete filename (buffers st)) st.

Definition reset : M unit :=
  modify (with_buffers ∅);;
  modify (with_activebuffer None);;
  modify (with_mode MNone).

Definition unlink (filename : jsstring) : M unit :=
  item ← vfs_get filename;
  match item with
  | None => doserror FILE_NOT_FOUND
  | Some _ => vfs_remove filename
  end.

Definition rename (oldname newname : jsstring) : M unit :=
  item ← vfs_get oldname;
  match item with
  | None => doserror FILE_NOT_FOUND
  | Some _ => vfs_remove oldname;; vfs_set newname item
  end.

(** [text.replace(/\r\n/g, "\r")] *)
Fixpoint crlf_to_cr (s : jsstring) : jsstring :=
  match s with
  | c1 :: s' =>
      match s' with
      | c2 :: s'' =>
          if Ascii.eqb c1 CR && Ascii.eqb c2 LF then CR :: crlf_to_cr s''
          else c1 :: crlf_to_cr s'
      | [] => [c1]
      end
  | [] => []
  end.

Definition open (h : host) (filename : jsstring) (recordlength : jsnum)
  : M unit :=
  let recordlength :=
    if js_eq recordlength (Num 0) then Num 1 else recordlength in
  file ← vfs_get filename;
  file ← match file with
         | Some _ => mret file
         | None =>
             match xhr h filename with
             | XhrThrows => throw XhrFailure
             | XhrDone status responseText =>
                 if (status =? 200) || (status =? 0) then
                   let file := crlf_to_cr responseText in
                   vfs_set filename (Some file);;
                   mret (Some file)
                 else mret None
             end
         end;
  buf ← new_object {| file := file; recordlength := recordlength;
                      recordnum := Num 0; filepointer := Num 0 |};
  modify (bind_name filename buf).

Definition append (h : host) (filename : jsstring) (reclength : jsnum)
  : M unit :=
  open h filename reclength;;
  buf ← gets (fun st => buffers st !! filename);
  match buf with
  | None => doserror FILE_NOT_FOUND
  | Some buf =>
      f ← field buf file;
      f ← nonnull f;
      assign buf (set_filepointer (Num (jslength f)));;
      fp ← field buf filepointer;
      reclen ← field buf recordlength;
      assign buf (set_recordnum (js_floor_div fp reclen))
  end.

(** [close(filename)] for a non-empty name; the names of open buffers
    are not empty (lemma [reachable_names]). *)
Definition close_one (filename : jsstring) : M unit :=
  buf ← gets (fun st => buffers st !! filename);
  match buf with
  | Some buf =>
      f ← field buf file;
      vfs_set filename f;;
      modify (unbind_name filename);;
      active ← gets activebuffer;
      when (bool_decide (active = Some buf))
        (modify (with_activebuffer None);; modify (with_mode MNone))
  | None => mret tt
  end.

(** With an empty name every open buffer is closed.  Each call touches
    the entries of its own name only, so the enumeration order of
    [for (fn in buffers)] does not show in the result (lemma
    [for_each_close_order]). *)
Definition close (filename : jsstring) : M unit :=
  match filename with
  | [] =>
      names ← gets (fun st => (map_to_list (buffers st)).*1);
      for_each names close_one
  | _ :: _ => close_one filename
  end.

Definition is_null (f : option jsstring) : bool :=
  match f with
  | None => true
  | Some _ => false
  end.

(** [buf = buffers[filename]; if (!buf) { open(filename, 0); buf = buffers[filename]; }] *)
Definition buffer_or_open (h : host) (filename : jsstring) : M nat :=
  buf ← gets (fun st => buffers st !! filename);
  buf ← match buf with
        | Some _ => mret buf
        | None =>
            open h filename (Num 0);;
            gets (fun st => buffers st !! filename)
        end;
  object buf.

Definition read (h : host) (filename : jsstring) (recordnum bytenum : jsnum)
  : M unit :=
  buf ← buffer_or_open h filename;
  f ← field buf file;
  when (is_null f) (doserror FILE_NOT_FOUND);;
  assign buf (set_recordnum recordnum);;
  reclen ← field buf recordlength;
  assign buf (set_filepointer (js_add (js_mul reclen recordnum) bytenum));;
  modify (with_activebuffer (Some buf));;
  modify (with_mode MRead).

Definition write (filename : jsstring) (recordnum bytenum : jsnum) : M unit :=
  buf ← gets (fun st => buffers st !! filename);
  match buf with
  | None => doserror FILE_NOT_FOUND
  | Some buf =>
      f ← field buf file;
      when (is_null f)
        (vfs_set filename (Some []);; assign buf (set_file (Some [])));;
      assign buf (set_recordnum recordnum);;
      reclen ← field buf recordlength;
      when (js_gt reclen (Num 1))
        (assign buf (set_filepointer (js_mul reclen recordnum)));;
      fp ← field buf filepointer;
      assign buf (set_filepointer (js_add fp bytenum));;
      modify (with_activebuffer (Some buf));;
      modify (with_mode MWrite)
  end.

Definition position (h : host) (filename : jsstring) (records : jsnum)
  : M unit :=
  buf ← buffer_or_open h filename;
  n ← field buf recordnum;
  assign buf (set_recordnum (js_add n records));;
  fp ← field buf filepointer;
  reclen ← field buf recordlength;
  assign buf (set_filepointer (js_add fp (js_mul reclen records))).

(** ** Command dispatch *)

Definition is_some {A : Type} (o : option A) : bool :=
  match o with
  | Some _ => true
  | None => false
  end.

Definition executeCommand (h : host) (command : jsstring) : M unit :=
  mon ← gets monico;
  when (flag_set mon MON_C) (tty (TtyWriteString (command ++ [CR])));;
  match js_match re_MON command with
  | Some m =>
      args ← lift (parseArgs (cap1 m) (str "ICO"));
      when (is_some (arg_I args))
        (modify (fun st => with_monico (Z.lor (monico st) MON_I) st));;
      when (is_some (arg_C args))
        (modify (fun st => with_monico (Z.lor (monico st) MON_C) st));;
      when (is_some (arg_O args))
        (modify (fun st => with_monico (Z.lor (monico st) MON_O) st))
  | None =>
  match js_match re_NOMON command with
  | Some m =>
      args ← lift (parseArgs (cap1 m) (str "ICO"));
      when (is_some (arg_I args))
        (modify (fun st =>
           with_monico (Z.land (monico st) (Z.lnot MON_I)) st));;
      when (is_some (arg_C args))
        (modify (fun st =>
           with_monico (Z.land (monico st) (Z.lnot MON_C)) st));;
      when (is_some (arg_O args))
        (modify (fun st =>
           with_monico (Z.land (monico st) (Z.lnot MON_O)) st))
  | None =>
  match js_match re_OPEN command with
  | Some m =>
      let filename := cap1 m in
      args ← lift (parseArgs (cap2 m) (str "L"));
      open h filename (arg_L args)
  | None =>
  match js_match re_APPEND command with
  | Some m =>
      let filename := cap1 m in
      args ← lift (parseArgs (cap2 m) []);
      append h filename (arg_L args)
  | None =>
  match js_match re_CLOSE command with
  | Some m =>
      let filename := cap1 m in
      close filename
  | None =>
  match js_match re_POSITION command with
  | Some m =>
      let filename := cap1 m in
      args ← lift (parseArgs (cap2 m) (str "R"));
      position h filename (arg_R args)
  | None =>
  match js_match re_READ command with
  | Some m =>
      let filename := cap1 m in
      args ← lift (parseArgs (cap2 m) (str "RB"));
      read h filename (arg_R args) (arg_B args)
  | None =>
  match js_match re_WRITE command with
  | Some m =>
      let filename := cap1 m in
      args ← lift (parseArgs (cap2 m) (str "RB"));
      write filename (arg_R args) (arg_B args)
  | None =>
  match js_match re_DELETE command with
  | Some m =>
      let filename := cap1 m in
      args ← lift (parseArgs (cap2 m) []);
      unlink filename
  | None =>
  match js_match re_RENAME command with
  | Some m =>
      let filename := cap1 m in
      let filename2 := cap2 m in
      args ← lift (parseArgs (cap3 m) []);
      rename filename filename2
  | None =>
  match js_match re_PR command with
  | Some m =>
      let slot := slot_number h (cap1 m) in
      args ← lift (parseArgs (cap2 m) []);
      if js_eq slot (Num 0) then
        when (has_setFirmwareActive h) (tty (TtyFirmware false))
      else if js_eq slot (Num 3) then
        when (has_setFirmwareActive h) (tty (TtyFirmware true))
      else doserror RANGE_ERROR
  | None =>
  match js_match re_EMPTY command with
  | Some _ =>
      modify (with_activebuffer None);;
      modify (with_mode MNone)
  | None => doserror INVALID_OPTION
  end end end end end end end end end end end end.

(** ** The hooked terminal routines *)

(** What a hooked read hands to its callback: a value taken from the
    active buffer, or whatever the original terminal routine delivers. *)
Inductive delivered (A : Type) :=
| FromFile (a : A)
| FromTerminal.
Arguments FromFile {A} a.
Arguments FromTerminal {A}.

Definition is_terminator (c : option ascii) : bool :=
  match c with
  | Some ch => Ascii.eqb ch CR || Ascii.eqb ch LF || Ascii.eqb ch NUL
  | None => false
  end.

(** The scanning loop of [_dos_readLine]; it runs at most [len - fp]
    times, and with no fuel left its condition [fp < len] is false. *)
Fixpoint readLine_loop (fuel : nat) (data : jsstring) (fp : jsnum)
  (buffer : list (option ascii)) : jsnum * list (option ascii) :=
  match fuel with
  | O => (fp, buffer)
  | S fuel' =>
      if js_lt fp (Num (jslength data)) then
        let c := js_index data fp in
        let fp := js_add fp (Num 1) in
        if is_terminator c then (fp, buffer)
        else readLine_loop fuel' data fp (buffer ++ [c])
      else (fp, buffer)
  end.

(** Number of characters between the pointer and the other bound. *)
Definition distance (a b : jsnum) : nat :=
  match a, b with
  | Num x, Num y => Z.to_nat (y - x)
  | _, _ => O
  end.

(** [buffer.join("")]; an [undefined] element joins as the empty text. *)
Definition join (buffer : list (option ascii)) : jsstring := omap id buffer.

Definition readLine (prompt : jsstring) : M (delivered jsstring) :=
  m ← gets mode;
  match m with
  | MRead =>
      buf ← gets activebuffer;
      buf ← object buf;
      data ← field buf file;
      data ← nonnull data;
      let len := Num (jslength data) in
      fp ← field buf filepointer;
      when (js_ge fp len) (doserror END_OF_DATA);;
      let '(fp, buffer) := readLine_loop (distance fp len) data fp [] in
      assign buf (set_filepointer fp);;
      let string := join buffer in
      mon ← gets monico;
      when (flag_set mon MON_I)
        (tty (TtyWriteString (prompt ++ string ++ [CR])));;
      mret (FromFile string)
  | _ =>
      tty (TtyReadLine prompt);;
      mret FromTerminal
  end.

Definition readChar : M (delivered (option ascii)) :=
  m ← gets mode;
  match m with
  | MRead =>
      buf ← gets activebuffer;
      buf ← object buf;
      fp ← field buf filepointer;
      f ← field buf file;
      f ← nonnull f;
      when (js_ge fp (Num (jslength f))) (doserror END_OF_DATA);;
      let character := js_index f fp in
      assign buf (set_filepointer (js_add fp (Num 1)));;
      mon ← gets monico;
      when (flag_set mon MON_I) (tty (TtyWriteChar character));;
      mret (FromFile character)
  | _ =>
      tty TtyReadChar;;
      mret FromTerminal
  end.

(** [while (buf.filepointer > buf.file.length) { buf.file += "\x00"; }]
    runs [filepointer - file.length] times; the first test already throws
    when [file] is [null]. *)
Definition rounds (b : buffer) : nat :=
  match file b with
  | Some f => distance (Num (jslength f)) (filepointer b)
  | None => 1%nat
  end.

Fixpoint extend_file (fuel : nat) (buf : nat) : M unit :=
  match fuel with
  | O => mret tt
  | S fuel' =>
      fp ← field buf filepointer;
      f ← field buf file;
      f ← nonnull f;
      if js_gt fp (Num (jslength f)) then
        assign buf (set_file (Some (f ++ [NUL])));;
        extend_file fuel' buf
      else mret tt
  end.

Definition write_to_file (c : ascii) : M unit :=
  mon ← gets monico;
  when (flag_set mon MON_O) (tty (TtyWriteChar (Some c)));;
  buf ← gets activebuffer;
  buf ← object buf;
  n ← field buf rounds;
  extend_file n buf;;
  fp ← field buf filepointer;
  f ← field buf file;
  f ← nonnull f;
  (if js_eq fp (Num (jslength f)) then
     assign buf (set_file (Some (f ++ [c])))
   else
     let d := substring f (Num 0) fp in
     let d := d ++ [c] in
     let d := d ++ substring_from f (js_add fp (Num 1)) in
     assign buf (set_file (Some d)));;
  fp ← field buf filepointer;
  assign buf (set_filepointer (js_add fp (Num 1))).

Definition writeChar (h : host) (c : ascii) : M unit :=
  cm ← gets commandMode;
  (if cm : bool then
     if Ascii.eqb c CR then
       modify (with_commandMode false);;
       command ← gets commandBuffer;
       executeCommand h command;;
       modify (with_commandBuffer [])
     else modify (fun st => with_commandBuffer (commandBuffer st ++ [c]) st)
   else if Ascii.eqb c EOT then
     modify (with_commandBuffer []);;
     modify (with_commandMode true)
   else
     m ← gets mode;
     match m with
     | MWrite => write_to_file c
     | _ => tty (TtyWriteChar (Some c))
     end) : M unit.

(** ** Sessions *)

(** The entry points a caller has: [dos.reset()], the three hooked
    routines of the terminal, and a command line handed to the
    dispatcher (which [_dos_writeChar] does at the end of a command). *)
Inductive operation :=
| OpReset
| OpCommand (command : jsstring)
| OpWriteChar (c : ascii)
| OpReadChar
| OpReadLine (prompt : jsstring).

(** What an operation hands back. *)
Inductive reply :=
| Done
| Char (c : delivered (option ascii))
| Line (l : delivered jsstring).

Definition perform (h : host) (o : operation) : M reply :=
  match o with
  | OpReset => reset;; mret Done
  | OpCommand command => executeCommand h command;; mret Done
  | OpWriteChar c => writeChar h c;; mret Done
  | OpReadChar => c ← readChar; mret (Char c)
  | OpReadLine prompt => l ← readLine prompt; mret (Line l)
  end.

(** The state an operation leaves, whether it returns or throws. *)
Definition step (h : host) (o : operation) (st : dos) : dos :=
  snd (perform h o st).

(** A session starts with no buffer and whatever the store holds. *)
Definition start (store : gmap jsstring jsstring) : dos :=
  with_localStorage store initial.

Inductive reachable : dos -> Prop :=
| reach_start store : reachable (start store)
| reach_step h o st : reachable st -> reachable (step h o st).

Fixpoint run (script : list (host * operation)) (st : dos) : dos :=
  match script with
  | [] => st
  | (h, o) :: script' => run script' (step h o st)
  end.

(** *** Invariants of a session *)

(** The active-buffer reference is null exactly when the mode is none. *)
Definition coupled (st : dos) : Prop :=
  activebuffer st = None <-> mode st = MNone.

(** Numbers of the program: a natural number or [NaN]. *)
Definition natural (n : jsnum) : Prop :=
  match n with
  | Num z => 0 <= z
  | NaN => True
  end.

Definition buffer_ok (b : buffer) : Prop :=
  natural (recordlength b) /\ recordlength b <> Num 0 /\
  natural (recordnum b) /\ natural (filepointer b).

Definition args_ok (a : Args) : Prop :=
  natural (arg_L a) /\ natural (arg_R a) /\ natural (arg_B a).

Record Inv (st : dos) : Prop := {
  inv_coupled : coupled st;
  inv_active : forall buf, activebuffer st = Some buf ->
      exists b f, heap st !! buf = Some b /\ file b = Some f;
  inv_buffers : forall name buf, buffers st !! name = Some buf ->
      is_Some (heap st !! buf);
  inv_names : buffers st !! ([] : jsstring) = None;
  inv_heap : Forall buffer_ok (heap st) }.

(** ** A relational reading of the patterns

    [matches r pos s c pos' s' c']: from position [pos] with [s] left to
    read and captures [c], pattern [r] can consume up to position [pos'],
    leaving [s'] and captures [c']. *)
Inductive matches : regex -> nat -> jsstring -> captures ->
                    nat -> jsstring -> captures -> Prop :=
| m_bol s c : matches Bol 0 s c 0 s c
| m_eol pos c : matches Eol pos [] c pos [] c
| m_cls p pos ch s c :
    p ch = true -> matches (Cls p) pos (ch :: s) c (S pos) s c
| m_cat r1 r2 pos s c pos1 s1 c1 pos2 s2 c2 :
    matches r1 pos s c pos1 s1 c1 -> matches r2 pos1 s1 c1 pos2 s2 c2 ->
    matches (Cat r1 r2) pos s c pos2 s2 c2
| m_alt_l r1 r2 pos s c pos' s' c' :
    matches r1 pos s c pos' s' c' -> matches (Alt r1 r2) pos s c pos' s' c'
| m_alt_r r1 r2 pos s c pos' s' c' :
    matches r2 pos s c pos' s' c' -> matches (Alt r1 r2) pos s c pos' s' c'
| m_opt_some r pos s c pos' s' c' :
    matches r pos s c pos' s' c' -> matches (Opt r) pos s c pos' s' c'
| m_opt_none r pos s c : matches (Opt r) pos s c pos s c
| m_star_nil p pos s c : matches (Star p) pos s c pos s c
| m_star_cons p pos ch s c pos' s' c' :
    p ch = true -> matches (Star p) (S pos) s c pos' s' c' ->
    matches (Star p) pos (ch :: s) c pos' s' c'
| m_plus p pos ch s c pos' s' c' :
    p ch = true -> matches (Star p) (S pos) s c pos' s' c' ->
    matches (Plus p) pos (ch :: s) c pos' s' c'
| m_grp n r pos s c pos' s' c' :
    matches r pos s c pos' s' c' ->
    matches (Grp n r) pos s c pos' s' (set_cap n (take (pos' - pos) s) c').

(** ** States that the operations leave

    Named for the statements below; each is what the code of the
    operation builds step by step. *)

(** After [open]: a new object holding [f], bound to the name. *)
Definition fresh_buffer (f : option jsstring) (reclength : jsnum) : buffer :=
  {| file := f;
     recordlength := if js_eq reclength (Num 0) then Num 1 else reclength;
     recordnum := Num 0; filepointer := Num 0 |}.

Definition opened (filename : jsstring) (f : option jsstring)
  (reclength : jsnum) (st : dos) : dos :=
  bind_name filename (length (heap st))
    (allocate (fresh_buffer f reclength) st).

(** After the two assignments [activebuffer = ..; mode = ..]. *)
Definition activate (buf : nat) (m : Mode) (st : dos) : dos :=
  with_mode m (with_activebuffer (Some buf) st).

Definition deactivate (st : dos) : dos :=
  with_mode MNone (with_activebuffer None st).

(** The buffer after [write(filename, recordnum, bytenum)]. *)
Definition write_positioned (b : buffer) (recnum bytenum : jsnum) : buffer :=
  {| file := Some (default [] (file b));
     recordlength := recordlength b;
     recordnum := recnum;
     filepointer :=
       js_add (if js_gt (recordlength b) (Num 1)
               then js_mul (recordlength b) recnum
               else filepointer b) bytenum |}.

(** The buffer after [read(filename, recordnum, bytenum)]. *)
Definition read_positioned (b : buffer) (recnum bytenum : jsnum) : buffer :=
  {| file := file b;
     recordlength := recordlength b;
     recordnum := recnum;
     filepointer := js_add (js_mul (recordlength b) recnum) bytenum |}.

(** The buffer after [position(filename, records)]. *)
Definition advanced (b : buffer) (records : jsnum) : buffer :=
  {| file := file b;
     recordlength := recordlength b;
     recordnum := js_add (recordnum b) records;
     filepointer :=
       js_add (filepointer b) (js_mul (recordlength b) records) |}.

(** The buffer after the seek of [append]. *)
Definition at_end (b : buffer) (f : jsstring) : buffer :=
  {| file := file b;
     recordlength := recordlength b;
     recordnum := js_floor_div (Num (jslength f)) (recordlength b);
     filepointer := Num (jslength f) |}.

(** The state after [close(filename)] for an open buffer [b] at [buf]. *)
Definition closed (filename : jsstring) (buf : nat) (b : buffer) (st : dos)
  : dos :=
  let st1 :=
    unbind_name filename
      (setItem (STORAGE_PREFIX ++ filename) (to_text (file b)) st) in
  if bool_decide (activebuffer st = Some buf) then deactivate st1 else st1.

(** The content after one character [c] is written at pointer [fp]:
    the zero fill of the loop, then the append or the splice. *)
Definition zero_filled (f : jsstring) (fp : jsnum) : jsstring :=
  f ++ replicate (distance (Num (jslength f)) fp) NUL.

Definition written_file (f : jsstring) (fp : jsnum) (c : ascii) : jsstring :=
  let f' := zero_filled f fp in
  if js_eq fp (Num (jslength f')) then f' ++ [c]
  else (substring f' (Num 0) fp ++ [c])
       ++ substring_from f' (js_add fp (Num 1)).

Definition char_written (b : buffer) (f : jsstring) (c : ascii) : buffer :=
  {| file := Some (written_file f (filepointer b) c);
     recordlength := recordlength b;
     recordnum := recordnum b;
     filepointer := js_add (filepointer b) (Num 1) |}.

(** The state after a trace of [e] when [flag] is set in [monico]. *)
Definition traced (flag : Z) (e : tty_event) (st : dos) : dos :=
  if flag_set (monico st) flag then echo e st else st.

(** An operation keeps the invariant and does not meet a bad reference. *)
Definition safe {A : Type} (r : outcome A * dos) : Prop :=
  Inv (snd r) /\ fst r <> Throw BadReference.

(** The session without the record of terminal traffic. *)
Definition silent (st : dos) : dos := with_tty_out [] st.

(** ** Hosts and sessions used in the examples *)

(** No text file is served: every request completes with status 404. *)
Definition host_404 : host :=
  {| xhr := fun _ => XhrDone 404 [];
     slot_number := fun _ => NaN;
     has_setFirmwareActive := false |}.

(** Every request is answered with status 200 and the text "DATA". *)
Definition host_200 : host :=
  {| xhr := fun _ => XhrDone 200 (str "DATA");
     slot_number := fun _ => NaN;
     has_setFirmwareActive := false |}.

(** The request itself fails (no network): [req.send] throws. *)
Definition host_down : host :=
  {| xhr := fun _ => XhrThrows;
     slot_number := fun _ => NaN;
     has_setFirmwareActive := false |}.

(** OPEN F,L5 then WRITE F,R1: write mode on an empty file, pointer 5. *)
Definition session_write_beyond : dos :=
  run [(host_404, OpCommand (str "OPEN F,L5"));
       (host_404, OpCommand (str "WRITE F,R1"))] (start ∅).

(** OPEN F then WRITE F,B1 with "DATA" served: write mode, pointer 1. *)
Definition session_write_inside : dos :=
  run [(host_200, OpCommand (str "OPEN F"));
       (host_200, OpCommand (str "WRITE F,B1"))] (start ∅).

(** OPEN F then READ F,B2 with "DATA" served: read mode, pointer 2. *)
Definition session_read : dos :=
  run [(host_200, OpCommand (str "OPEN F"));
       (host_200, OpCommand (str "READ F,B2"))] (start ∅).

(** OPEN F with nothing served: F is open without content. *)
Definition session_open_empty : dos :=
  run [(host_404, OpCommand (str "OPEN F"))] (start ∅).

(** OPEN F with "DATA" served, WRITE F, then the character X. *)
Definition session_modified : dos :=
  run [(host_200, OpCommand (str "OPEN F"));
       (host_200, OpCommand (str "WRITE F"));
       (host_200, OpWriteChar "X")] (start ∅).

(** A command line typed on the channel: escape, text, carriage return. *)
Definition typed_command (h : host) (line : string)
  : list (host * operation) :=
  map (fun c => (h, OpWriteChar c)) ([EOT] ++ str line ++ [CR]).

Definition typed (h : host) (text : string) : list (host * operation) :=
  map (fun c => (h, OpWriteChar c)) (str text).

(** The scenario OPEN A,L5 / WRITE A,R0,B0 / HELLO / empty command /
    READ A,R0,B0, all through [_dos_writeChar]. *)
Definition session_hello : dos :=
  run (typed_command host_404 "OPEN A,L5" ++
       typed_command host_404 "WRITE A,R0,B0" ++
       typed host_404 "HELLO" ++
       typed_command host_404 "" ++
       typed_command host_404 "READ A,R0,B0") (start ∅).

(** ** Where the embedding and the program agree

    [buffers] is a plain object, so [buffers[name]] also finds what the
    object inherits, an assignment to [__proto__] replaces the prototype
    instead of adding a property, and [buffers.hasOwnProperty] is the
    method of the prototype only as long as no buffer is bound under
    that name.  The embedding has own properties only.  The names below
    are those the object can inherit: the members of [Object.prototype]
    (of the standard, of its annex on legacy features, and the three that
    old engines added), and the four properties of a buffer object,
    which is what the prototype becomes once a buffer is bound under
    [__proto__].  For every other name, a lookup, an assignment and a
    deletion act on own properties in every state of the program. *)
Definition inherited_names : list jsstring :=
  map str
    ["__proto__"; "constructor"; "hasOwnProperty"; "isPrototypeOf";
     "propertyIsEnumerable"; "toLocaleString"; "toString"; "valueOf";
     "__defineGetter__"; "__defineSetter__"; "__lookupGetter__";
     "__lookupSetter__"; "toSource"; "watch"; "unwatch";
     "file"; "recordlength"; "recordnum"; "filepointer"]%string.

Fixpoint same_text (a b : jsstring) : bool :=
  match a, b with
  | [], [] => true
  | x :: a', y :: b' => Ascii.eqb x y && same_text a' b'
  | _, _ => false
  end.

Definition ordinary (name : jsstring) : bool :=
  negb (existsb (same_text name) inherited_names).

(** Doubles are exact on the integers up to 2^53; above, the program
    rounds and the embedding does not. *)
Definition exact_bound : Z := 9007199254740992.

(** The file name that a command line hands to a buffer operation, the
    patterns being tried in the order of the dispatcher; DELETE, RENAME
    and PR# do not touch the buffer table. *)
Definition buffer_name (command : jsstring) : option jsstring :=
  match js_match re_MON command with
  | Some _ => None
  | None =>
  match js_match re_NOMON command with
  | Some _ => None
  | None =>
  match js_match re_OPEN command with
  | Some m => Some (cap1 m)
  | None =>
  match js_match re_APPEND command with
  | Some m => Some (cap1 m)
  | None =>
  match js_match re_CLOSE command with
  | Some m => Some (cap1 m)
  | None =>
  match js_match re_POSITION command with
  | Some m => Some (cap1 m)
  | None =>
  match js_match re_READ command with
  | Some m => Some (cap1 m)
  | None =>
  match js_match re_WRITE command with
  | Some m => Some (cap1 m)
  | None => None
  end end end end end end end end.

Definition plain_command (command : jsstring) : Prop :=
  match buffer_name command with
  | Some name => ordinary name = true
  | None => True
  end.

(** An operation that hands no inherited name to a buffer operation:
    a command line given to the dispatcher, or the one that a carriage
    return written in command mode makes the dispatcher run. *)
Definition plain (st : dos) (o : operation) : Prop :=
  match o with
  | OpCommand command => plain_command command
  | OpWriteChar c =>
      commandMode st = true -> c = CR -> plain_command (commandBuffer st)
  | _ => True
  end.

(** The sessions in which every operation is plain: in their states the
    buffer table has no inherited name and its prototype is the initial
    one. *)
Inductive plain_session : dos -> Prop :=
| plain_start store : plain_session (start store)
| plain_step h o st :
    plain_session st -> plain st o -> plain_session (step h o st).

(** Whatever is raised. *)
Definition any_exception (e : exn) : Prop := True.

(** The buffer table binds no inherited name. *)
Definition names_ordinary (st : dos) : Prop :=
  forall name buf, buffers st !! name = Some buf -> ordinary name = true.

(** ** Further notions used in the statements *)

(** [args[letter]], for any character. *)
Definition get_arg (letter : ascii) (a : Args) : option jsnum :=
  if Ascii.eqb letter "V" then Some (arg_V a)
  else if Ascii.eqb letter "D" then Some (arg_D a)
  else if Ascii.eqb letter "S" then Some (arg_S a)
  else if Ascii.eqb letter "L" then Some (arg_L a)
  else if Ascii.eqb letter "R" then Some (arg_R a)
  else if Ascii.eqb letter "B" then Some (arg_B a)
  else if Ascii.eqb letter "A" then Some (arg_A a)
  else if Ascii.eqb letter "C" then arg_C a
  else if Ascii.eqb letter "I" then arg_I a
  else if Ascii.eqb letter "O" then arg_O a
  else None.

(** A pattern class stops at the head of a text. *)
Definition stops (p : ascii -> bool) (s : jsstring) : Prop :=
  match s with
  | [] => True
  | ch :: _ => p ch = false
  end.

(** An argument tail in its plain form: for each item a comma, the
    keyword letter and the decimal digits of its value (no digit for a
    letter without a value), and the bindings [parseArgs] makes for it,
    in order. *)
Definition arg_text (item : ascii * jsstring) : jsstring :=
  ","%char :: fst item :: snd item.

Fixpoint args_text (items : list (ascii * jsstring)) : jsstring :=
  match items with
  | [] => []
  | item :: items' => arg_text item ++ args_text items'
  end.

Definition bind_item (a : Args) (item : ascii * jsstring) : Args :=
  set_arg [fst item] (Num (digits_value 0 (snd item))) a.

Definition well_formed (opts : jsstring) (item : ascii * jsstring) : Prop :=
  option_letter (fst item) = true /\ indexOf opts [fst item] <> -1 /\
  Forall (fun ch => digit ch = true) (snd item) /\
  digits_value 0 (snd item) <= exact_bound.

(** An operation keeps a property [I] of the state and raises only
    exceptions that satisfy [P]. *)
Definition keeps {A : Type} (I : dos -> Prop) (P : exn -> Prop) (m : M A)
  : Prop :=
  forall st, I st -> I (snd (m st)) /\ forall e, fst (m st) = Throw e -> P e.

(** What a command can raise: the three codes of the dispatcher and of
    the buffer operations, a property read on [null], and what the
    request of [open] throws. *)
Definition command_error (e : exn) : Prop :=
  e = RuntimeError 2 (str "Range error") \/
  e = RuntimeError 6 (str "File not found") \/
  e = RuntimeError 11 (str "Invalid option") \/
  e = TypeError \/ e = XhrFailure.

(** The three monitoring flags and nothing else. *)
Definition flags_ok (st : dos) : Prop := 0 <= monico st < 8.

(** The first characters of the keywords of the dispatcher. *)
Definition keyword_initial (c : ascii) : bool :=
  existsb (Ascii.eqb c) (str "MNOACPRWD").

(** A host whose terminal has [setFirmwareActive] and that converts a
    slot text made of decimal digits to its value; no file is served. *)
Definition host_terminal : host :=
  {| xhr := fun _ => XhrDone 404 [];
     slot_number := js_Number;
     has_setFirmwareActive := true |}.

(** The characters of a text written one after the other through
    [_dos_writeChar], and [n] successive calls of [_dos_readChar]. *)
Definition write_chars (h : host) (s : jsstring) : M unit :=
  for_each s (writeChar h).

Fixpoint read_chars (n : nat) : M (list (delivered (option ascii))) :=
  match n with
  | O => mret []
  | S n' => c ← readChar; cs ← read_chars n'; mret (c :: cs)
  end.

(** The state after the traces of several events under one flag. *)
Definition traced_all (flag : Z) (es : list tty_event) (st : dos) : dos :=
  foldl (fun s e => traced flag e s) st es.

(** OPEN F then WRITE F with nothing stored or served: write mode on an
    empty file, pointer 0. *)
Definition session_write_start : dos :=
  run [(host_404, OpCommand (str "OPEN F"));
       (host_404, OpCommand (str "WRITE F"))] (start ∅).

(** A character that does not end a line of [_dos_readLine]. *)
Definition line_char (c : ascii) : Prop := c <> CR /\ c <> LF /\ c <> NUL.

(** * Properties *)

(** ** The matcher *)

Lemma rstar_sound p s : forall pos c (k : cont) res,
  rstar p pos s c k = Some res ->
  exists pos' s' c', matches (Star p) pos s c pos' s' c' /\
                     k pos' s' c' = Some res.
Proof.
  induction s as [|ch s IH]; intros pos c k res H; simpl in H.
  - exists pos, [], c. split; [constructor | done].
  - destruct (p ch) eqn:Hp.
    + destruct (rstar p (S pos) s c k) as [r|] eqn:Hr.
      * injection H as <-.
        destruct (IH _ _ _ _ Hr) as (pos' & s' & c' & Hm & Hk).
        exists pos', s', c'. split; [by apply m_star_cons | done].
      * exists pos, (ch :: s), c. split; [apply m_star_nil | done].
    + exists pos, (ch :: s), c. split; [apply m_star_nil | done].
Qed.

Lemma rmatch_sound r : forall pos s c (k : cont) res,
  rmatch r pos s c k = Some res ->
  exists pos' s' c', matches r pos s c pos' s' c' /\ k pos' s' c' = Some res.
Proof.
  induction r as [| |p|r1 IH1 r2 IH2|r1 IH1 r2 IH2|r IH|p|p|n r IH];
    intros pos s c k res H; simpl in H.
  - destruct pos; [|done]. exists 0%nat, s, c. split; [constructor | done].
  - destruct s; [|done]. exists pos, [], c. split; [constructor | done].
  - destruct s as [|ch s]; [done|]. destruct (p ch) eqn:Hp; [|done].
    exists (S pos), s, c. split; [by constructor | done].
  - destruct (IH1 _ _ _ _ _ H) as (pos1 & s1 & c1 & Hm1 & Hk1).
    destruct (IH2 _ _ _ _ _ Hk1) as (pos2 & s2 & c2 & Hm2 & Hk2).
    exists pos2, s2, c2. split; [by eapply m_cat | done].
  - destruct (rmatch r1 pos s c k) as [r|] eqn:Hr.
    + injection H as <-.
      destruct (IH1 _ _ _ _ _ Hr) as (pos' & s' & c' & Hm & Hk).
      exists pos', s', c'. split; [by apply m_alt_l | done].
    + destruct (IH2 _ _ _ _ _ H) as (pos' & s' & c' & Hm & Hk).
      exists pos', s', c'. split; [by apply m_alt_r | done].
  - destruct (rmatch r pos s c k) as [r'|] eqn:Hr.
    + injection H as <-.
      destruct (IH _ _ _ _ _ Hr) as (pos' & s' & c' & Hm & Hk).
      exists pos', s', c'. split; [by apply m_opt_some | done].
    + exists pos, s, c. split; [apply m_opt_none | done].
  - by apply rstar_sound.
  - destruct s as [|ch s]; [done|]. destruct (p ch) eqn:Hp; [|done].
    destruct (rstar_sound _ _ _ _ _ _ H) as (pos' & s' & c' & Hm & Hk).
    exists pos', s', c'. split; [by apply m_plus | done].
  - destruct (IH _ _ _ _ _ H) as (pos' & s' & c' & Hm & Hk).
    eexists pos', s', _. split; [by apply m_grp | done].
Qed.

(** What a match consumes is a prefix of what was left to read. *)
Lemma matches_consumes r pos s c pos' s' c' :
  matches r pos s c pos' s' c' ->
  (pos <= pos')%nat /\ (pos' - pos <= length s)%nat /\
  s' = drop (pos' - pos) s.
Proof.
  induction 1; simpl in *;
    repeat match goal with
           | H : _ /\ _ |- _ => destruct H
           end; subst;
    try (rewrite ?Nat.sub_diag; repeat split; simpl; (lia || done)).
  - replace (S pos - pos)%nat with 1%nat by lia.
    repeat split; simpl; try lia.
  - repeat split; try lia.
    + rewrite length_drop in *. lia.
    + rewrite drop_drop. f_equal. lia.
  - replace (pos' - pos)%nat with (S (pos' - S pos)) by lia.
    repeat split; simpl; try lia.
  - replace (pos' - pos)%nat with (S (pos' - S pos)) by lia.
    repeat split; simpl; try lia.
Qed.

Lemma search_bol_later r s : forall pos, search (Cat Bol r) (S pos) s = None.
Proof. induction s as [|ch s IH]; intros pos; simpl; [done | apply IH]. Qed.

(** All patterns of the program are anchored at the start of the text. *)
Lemma js_match_anchored r s :
  js_match (Cat Bol r) s = rmatch r 0 s no_captures (fun _ _ c => Some c).
Proof.
  unfold js_match. destruct s as [|ch s]; simpl.
  - by destruct (rmatch r 0 [] no_captures _).
  - destruct (rmatch r 0 (ch :: s) no_captures _); [done|].
    apply search_bol_later.
Qed.

Lemma js_match_sound r s m :
  js_match (Cat Bol r) s = Some m ->
  exists pos' s', matches r 0 s no_captures pos' s' m.
Proof.
  rewrite js_match_anchored. intros H.
  destruct (rmatch_sound _ _ _ _ _ _ H) as (pos' & s' & c' & Hm & Hk).
  injection Hk as <-. eauto.
Qed.

Lemma matches_length r pos s c pos' s' c' :
  matches r pos s c pos' s' c' ->
  (length s' + (pos' - pos) = length s)%nat.
Proof.
  intros H. destruct (matches_consumes _ _ _ _ _ _ _ H) as (? & ? & ->).
  rewrite length_drop. lia.
Qed.

Lemma matches_lit w r : forall pos s c pos' s' c',
  matches (lit w r) pos s c pos' s' c' ->
  exists pos1 s1, matches r pos1 s1 c pos' s' c'.
Proof.
  induction w as [|a w IH]; intros pos s c pos' s' c' H; simpl in H.
  - eauto.
  - inversion H; subst.
    match goal with
    | H1 : matches (Cls _) _ _ _ _ _ _ |- _ => inversion H1; subst
    end.
    eauto.
Qed.

Lemma matches_star_captures p pos s c pos' s' c' :
  matches (Star p) pos s c pos' s' c' -> c' = c.
Proof.
  remember (Star p) as r eqn:Hr. induction 1; try discriminate; auto.
Qed.

(** Inversion of the relation along the structure of a pattern; starred
    classes are left for [matches_length]. *)
Ltac invert_matches :=
  repeat match goal with
         | H : matches (Cat _ _) _ _ _ _ _ _ |- _ => inversion H; clear H; subst
         | H : matches (Grp _ _) _ _ _ _ _ _ |- _ => inversion H; clear H; subst
         | H : matches (Opt _) _ _ _ _ _ _ |- _ => inversion H; clear H; subst
         | H : matches (Alt _ _) _ _ _ _ _ _ |- _ => inversion H; clear H; subst
         | H : matches (Cls _) _ _ _ _ _ _ |- _ => inversion H; clear H; subst
         | H : matches (Plus _) _ _ _ _ _ _ |- _ => inversion H; clear H; subst
         end.

Ltac note_lengths :=
  repeat match goal with
         | H : matches (Star _) _ _ _ _ _ _ |- _ =>
             let Hs := fresh "Hs" in
             pose proof (matches_star_captures _ _ _ _ _ _ _ H) as Hs;
             let Hc := fresh "Hc" in
             let Hl := fresh "Hl" in
             pose proof (matches_consumes _ _ _ _ _ _ _ H) as Hc;
             pose proof (matches_length _ _ _ _ _ _ _ H) as Hl;
             clear H; subst
         | H : matches _ _ _ _ _ _ _ |- _ =>
             let Hc := fresh "Hc" in
             let Hl := fresh "Hl" in
             pose proof (matches_consumes _ _ _ _ _ _ _ H) as Hc;
             pose proof (matches_length _ _ _ _ _ _ _ H) as Hl;
             clear H
         end.

(** Group 3 of the argument pattern is strictly shorter than the text:
    the loop of [parseArgs] terminates. *)
Lemma re_ARG_shrinks s m :
  js_match re_ARG s = Some m -> (length (cap3 m) < length s)%nat.
Proof.
  intros H. apply js_match_sound in H as (pos' & s' & H).
  invert_matches; note_lengths; simpl in *;
    rewrite length_take; lia.
Qed.

(** Group 1 of the argument pattern is one character. *)
Lemma re_ARG_letter s m :
  js_match re_ARG s = Some m -> exists l, cap1 m = [l].
Proof.
  intros H. apply js_match_sound in H as (pos' & s' & H).
  invert_matches; note_lengths; simpl;
    match goal with
    | |- context [take (S ?p - ?p) _] =>
        replace (S p - p)%nat with 1%nat by lia
    end; simpl; eauto.
Qed.

(** The file name captured by a file command is not empty, and its
    argument tail is either absent or introduced by a comma. *)
Lemma re_file_captures kw s m :
  js_match (re_file kw) s = Some m ->
  cap1 m <> [] /\ (cap2 m = [] \/ exists t, cap2 m = "," %char :: t).
Proof.
  intros H. apply js_match_sound in H as (pos' & s' & H).
  apply matches_lit in H as (pos1 & s1 & H).
  invert_matches; note_lengths; cbn [cap1 cap2 cap3 set_cap no_captures].
  - split.
    + match goal with
      | |- take ?n _ <> [] => destruct n eqn:?; [lia | done]
      end.
    + right.
      match goal with
      | |- context [take ?n (?ch :: _)] =>
          destruct n eqn:?; [lia |]
      end.
      match goal with
      | H : is_char _ _ = true |- _ =>
          apply Ascii.eqb_eq in H; subst
      end.
      simpl. eauto.
  - split; [|by left].
    match goal with
    | |- take ?n _ <> [] => destruct n eqn:?; [lia | done]
    end.
Qed.

(** ** parseArgs *)

Lemma js_match_re_ARG_nil : js_match re_ARG [] = None.
Proof. reflexivity. Qed.

Lemma parseArgs_loop_fuel opts : forall fuel n s args,
  (length s <= fuel)%nat -> (length s <= n)%nat ->
  parseArgs_loop fuel s opts args = parseArgs_loop n s opts args.
Proof.
  induction fuel as [|fuel IH]; intros n s args Hf Hn.
  - destruct s; [|simpl in Hf; lia].
    destruct n; simpl; [done|]. by rewrite ?js_match_re_ARG_nil.
  - destruct n as [|n].
    + destruct s; [|simpl in Hn; lia].
      simpl. by rewrite ?js_match_re_ARG_nil.
    + simpl. destruct (js_match re_ARG s) as [m|] eqn:Hm; [|done].
      destruct (indexOf opts (cap1 m) =? -1); [done|].
      apply re_ARG_shrinks in Hm. apply IH; lia.
Qed.

(** One round of the loop of [parseArgs], without the fuel. *)
Lemma parseArgs_loop_unfold fuel s opts args :
  (length s <= fuel)%nat ->
  parseArgs_loop fuel s opts args =
  match js_match re_ARG s with
  | Some m =>
      if indexOf opts (cap1 m) =? -1 then Throw (doserror_exn INVALID_OPTION)
      else parseArgs_loop (length (cap3 m)) (cap3 m) opts
             (set_arg (cap1 m) (js_Number (cap2 m)) args)
  | None => parseArgs_exit s args
  end.
Proof.
  intros Hf. destruct fuel as [|fuel].
  - destruct s; [|simpl in Hf; lia]. simpl. by rewrite ?js_match_re_ARG_nil.
  - simpl. destruct (js_match re_ARG s) as [m|] eqn:Hm; [|done].
    destruct (indexOf opts (cap1 m) =? -1); [done|].
    apply re_ARG_shrinks in Hm. apply parseArgs_loop_fuel; lia.
Qed.

(** With no letter allowed, [parseArgs] accepts the empty tail only. *)
Lemma parseArgs_no_letters s :
  parseArgs s [] =
  match s with
  | [] => Ok default_args
  | _ :: _ => Throw (doserror_exn INVALID_OPTION)
  end.
Proof.
  unfold parseArgs. rewrite parseArgs_loop_unfold by lia.
  destruct s as [|ch s]; [done|].
  destruct (js_match re_ARG (ch :: s)) as [m|] eqn:Hm; [|done].
  apply re_ARG_letter in Hm as [l ->]. done.
Qed.

Lemma digits_value_nonneg s : forall acc,
  forallb digit s = true -> 0 <= acc -> 0 <= digits_value acc s.
Proof.
  induction s as [|ch s IH]; intros acc Hd Hacc; simpl in *; [done|].
  apply andb_true_iff in Hd as [Hch Hs]. apply IH; [done|].
  unfold digit, in_range in Hch. apply andb_true_iff in Hch as [H1 H2]. lia.
Qed.

Lemma js_Number_natural s : natural (js_Number s).
Proof.
  destruct s as [|ch s]; simpl; [lia|].
  destruct (digit ch && forallb digit s) eqn:Hd; simpl; [|done].
  change (0 <= digits_value 0 (ch :: s)).
  by apply digits_value_nonneg.
Qed.

Lemma set_arg_ok l v a : natural v -> args_ok a -> args_ok (set_arg l v a).
Proof.
  intros Hv (HL & HR & HB). unfold set_arg.
  destruct l as [|c [|]]; [done| |done].
  repeat (match goal with
          | |- context [if ?b then _ else _] => destruct b
          end; [by repeat split|]).
  by repeat split.
Qed.

Lemma parseArgs_loop_ok opts : forall fuel s args a,
  args_ok args -> parseArgs_loop fuel s opts args = Ok a -> args_ok a.
Proof.
  induction fuel as [|fuel IH]; intros s args a Hok H; simpl in H.
  - unfold parseArgs_exit in H. destruct (0 <? jslength s); congruence.
  - destruct (js_match re_ARG s) as [m|].
    + destruct (indexOf opts (cap1 m) =? -1); [done|].
      eapply IH; [|exact H]. apply set_arg_ok; [apply js_Number_natural|done].
    + unfold parseArgs_exit in H. destruct (0 <? jslength s); congruence.
Qed.

Lemma parseArgs_ok s opts a : parseArgs s opts = Ok a -> args_ok a.
Proof.
  apply parseArgs_loop_ok. repeat split; simpl; lia.
Qed.

(** ** The session invariant under the elementary state changes *)

Lemma insert_lookup_same (hp : list buffer) buf b b' :
  hp !! buf = Some b -> <[buf := b']> hp !! buf = Some b'.
Proof. intros H. apply list_lookup_insert_eq. by eapply lookup_lt_Some. Qed.

Lemma Inv_frame st st' :
  activebuffer st' = activebuffer st -> mode st' = mode st ->
  buffers st' = buffers st -> heap st' = heap st ->
  Inv st -> Inv st'.
Proof.
  intros Ha Hm Hb Hh [H1 H2 H3 H4 H5].
  split; unfold coupled; rewrite ?Ha, ?Hm, ?Hb, ?Hh; done.
Qed.

Lemma Inv_echo e st : Inv st -> Inv (echo e st).
Proof. by apply Inv_frame. Qed.

Lemma Inv_setItem k v st : Inv st -> Inv (setItem k v st).
Proof. by apply Inv_frame. Qed.

Lemma Inv_removeItem k st : Inv st -> Inv (removeItem k st).
Proof. by apply Inv_frame. Qed.

Lemma Inv_with_monico v st : Inv st -> Inv (with_monico v st).
Proof. by apply Inv_frame. Qed.

Lemma Inv_with_commandMode v st : Inv st -> Inv (with_commandMode v st).
Proof. by apply Inv_frame. Qed.

Lemma Inv_with_commandBuffer v st : Inv st -> Inv (with_commandBuffer v st).
Proof. by apply Inv_frame. Qed.

Lemma Inv_start store : Inv (start store).
Proof.
  split; simpl; done.
Qed.

Lemma Inv_update buf b b' st :
  Inv st -> heap st !! buf = Some b -> buffer_ok b' ->
  (is_Some (file b) -> is_Some (file b')) ->
  Inv (update buf b' st).
Proof.
  intros [H1 H2 H3 H4 H5] Hb Hok Hfile. split; simpl; try done.
  - intros a Ha. destruct (H2 a Ha) as (b0 & f0 & Hb0 & Hf0).
    destruct (decide (a = buf)) as [->|Hne].
    + rewrite Hb in Hb0. injection Hb0 as <-.
      destruct Hfile as [f' Hf']; [by rewrite Hf0|].
      exists b', f'. split; [|done]. by eapply insert_lookup_same.
    + exists b0, f0. split; [|done]. by rewrite list_lookup_insert_ne.
  - intros name a Ha. apply lookup_lt_is_Some. rewrite length_insert.
    apply lookup_lt_is_Some. by eapply H3.
  - by apply Forall_insert.
Qed.

Lemma Inv_allocate b st : Inv st -> buffer_ok b -> Inv (allocate b st).
Proof.
  intros [H1 H2 H3 H4 H5] Hok. split; simpl; try done.
  - intros a Ha. destruct (H2 a Ha) as (b0 & f0 & Hb0 & Hf0).
    exists b0, f0. split; [|done]. by apply lookup_app_l_Some.
  - intros name a Ha. destruct (H3 name a Ha) as [b0 Hb0].
    exists b0. by apply lookup_app_l_Some.
  - apply Forall_app. split; [done|]. by apply Forall_singleton.
Qed.

Lemma Inv_bind_name name buf st :
  Inv st -> name <> [] -> is_Some (heap st !! buf) ->
  Inv (bind_name name buf st).
Proof.
  intros [H1 H2 H3 H4 H5] Hname Hbuf. split; simpl; try done.
  - intros n a. rewrite lookup_insert.
    case_decide; [by intros [= <-] | apply H3].
  - by rewrite lookup_insert_ne.
Qed.

Lemma Inv_unbind_name name st : Inv st -> Inv (unbind_name name st).
Proof.
  intros [H1 H2 H3 H4 H5]. split; simpl; try done.
  - intros n a. rewrite lookup_delete.
    case_decide; [done | apply H3].
  - rewrite lookup_delete. by case_decide.
Qed.

Lemma Inv_activate buf b m st :
  Inv st -> heap st !! buf = Some b -> is_Some (file b) -> m <> MNone ->
  Inv (activate buf m st).
Proof.
  intros [H1 H2 H3 H4 H5] Hb [f Hf] Hm. split; simpl; try done.
  intros a [= <-]. eauto.
Qed.

Lemma Inv_deactivate st : Inv st -> Inv (deactivate st).
Proof. intros [H1 H2 H3 H4 H5]. split; simpl; done. Qed.

Lemma Inv_reset st :
  Inv st ->
  Inv (with_mode MNone (with_activebuffer None (with_buffers ∅ st))).
Proof.
  intros [H1 H2 H3 H4 H5]. split; simpl; done.
Qed.

(** ** Running the operations *)

Lemma bind_run {A B : Type} (m : M A) (f : A -> M B) st :
  (m ≫= f) st =
  match m st with
  | (Ok a, st') => f a st'
  | (Throw e, st') => (Throw e, st')
  end.
Proof. reflexivity. Qed.

Ltac munfold :=
  unfold when, doserror, tty, vfs_set, vfs_get, vfs_remove, object,
    nonnull in *;
  unfold throw, lift, gets, modify, field, assign, new_object in *;
  unfold mbind, M_bind, mret, M_ret in *.

Lemma update_update buf b1 b2 st :
  update buf b2 (update buf b1 st) = update buf b2 st.
Proof. unfold update. simpl. by rewrite list_insert_insert_eq. Qed.

Lemma heap_update_same buf b b' st :
  heap st !! buf = Some b -> heap (update buf b' st) !! buf = Some b'.
Proof. apply insert_lookup_same. Qed.

Lemma heap_update_other buf a b' st :
  a <> buf -> heap (update buf b' st) !! a = heap st !! a.
Proof. intros H. simpl. by apply list_lookup_insert_ne. Qed.

Lemma field_run {A : Type} buf (proj : buffer -> A) b st :
  heap st !! buf = Some b -> field buf proj st = (Ok (proj b), st).
Proof. intros H. unfold field. by rewrite H. Qed.

Lemma assign_run buf f b st :
  heap st !! buf = Some b -> assign buf f st = (Ok tt, update buf (f b) st).
Proof. intros H. unfold assign. by rewrite H. Qed.

(** *** open *)

Lemma open_cached h filename reclength st text :
  localStorage st !! (STORAGE_PREFIX ++ filename) = Some text ->
  open h filename reclength st =
  (Ok tt, opened filename (Some text) reclength st).
Proof. intros H. unfold open. munfold. by rewrite H. Qed.

Lemma open_fetched h filename reclength st status text :
  localStorage st !! (STORAGE_PREFIX ++ filename) = None ->
  xhr h filename = XhrDone status text ->
  (status =? 200) || (status =? 0) = true ->
  open h filename reclength st =
  (Ok tt, opened filename (Some (crlf_to_cr text)) reclength
            (setItem (STORAGE_PREFIX ++ filename) (crlf_to_cr text) st)).
Proof.
  intros H Hx Hs. unfold open. munfold. by rewrite H, Hx, Hs.
Qed.

Lemma open_missing h filename reclength st status text :
  localStorage st !! (STORAGE_PREFIX ++ filename) = None ->
  xhr h filename = XhrDone status text ->
  (status =? 200) || (status =? 0) = false ->
  open h filename reclength st = (Ok tt, opened filename None reclength st).
Proof.
  intros H Hx Hs. unfold open. munfold. by rewrite H, Hx, Hs.
Qed.

Lemma open_throws h filename reclength st :
  localStorage st !! (STORAGE_PREFIX ++ filename) = None ->
  xhr h filename = XhrThrows ->
  open h filename reclength st = (Throw XhrFailure, st).
Proof. intros H Hx. unfold open. munfold. by rewrite H, Hx. Qed.

(** [open] either throws what the request threw and changes nothing, or
    binds the name to a new object, after caching a fetched text. *)
Lemma open_cases h filename reclength st :
  open h filename reclength st = (Throw XhrFailure, st) \/
  exists f st0,
    open h filename reclength st = (Ok tt, opened filename f reclength st0) /\
    (st0 = st \/ exists text,
        f = Some text /\
        st0 = setItem (STORAGE_PREFIX ++ filename) text st).
Proof.
  destruct (localStorage st !! (STORAGE_PREFIX ++ filename)) as [text|] eqn:H.
  - right. exists (Some text), st. split; [by apply open_cached | by left].
  - destruct (xhr h filename) as [|status text] eqn:Hx.
    + left. by apply open_throws.
    + right. destruct ((status =? 200) || (status =? 0)) eqn:Hs.
      * eexists _, _. split; [by eapply open_fetched|]. right. eauto.
      * eexists _, _. split; [by eapply open_missing|]. by left.
Qed.

Lemma opened_lookup filename f reclength st :
  buffers (opened filename f reclength st) !! filename
    = Some (length (heap st)) /\
  heap (opened filename f reclength st) !! length (heap st)
    = Some (fresh_buffer f reclength).
Proof.
  split; simpl.
  - apply lookup_insert_eq.
  - rewrite lookup_app_r by lia. by rewrite Nat.sub_diag.
Qed.

Lemma fresh_buffer_ok f reclength :
  natural reclength -> buffer_ok (fresh_buffer f reclength).
Proof.
  intros H. unfold buffer_ok, fresh_buffer. simpl.
  destruct reclength as [z|]; simpl in *.
  - destruct (Z.eqb_spec z 0); simpl; repeat split; try lia; congruence.
  - repeat split; try lia; congruence.
Qed.

Lemma Inv_opened filename f reclength st :
  Inv st -> filename <> [] -> natural reclength ->
  Inv (opened filename f reclength st).
Proof.
  intros HI Hn HL. apply Inv_bind_name; [|done|].
  - apply Inv_allocate; [done | by apply fresh_buffer_ok].
  - simpl. rewrite lookup_app_r by lia. rewrite Nat.sub_diag. by eexists.
Qed.

Lemma open_Inv h filename reclength st :
  Inv st -> filename <> [] -> natural reclength ->
  Inv (snd (open h filename reclength st)) /\
  fst (open h filename reclength st) <> Throw BadReference.
Proof.
  intros HI Hn HL.
  destruct (open_cases h filename reclength st)
    as [-> | (f & st0 & -> & [-> | (text & -> & ->)])]; simpl.
  - done.
  - split; [by apply Inv_opened | done].
  - split; [|done]. apply Inv_opened; [by apply Inv_setItem | done | done].
Qed.

Ltac heap_step :=
  first [ rewrite update_update
        | rewrite list_insert_insert_eq
        | erewrite insert_lookup_same by eassumption
        | match goal with
          | H : heap ?st !! ?l = _ |- context [heap ?st !! ?l] => rewrite H
          | H : buffers ?st !! ?l = _ |- context [buffers ?st !! ?l] =>
              rewrite H
          | H : localStorage ?st !! ?l = _
            |- context [localStorage ?st !! ?l] => rewrite H
          end ].

Ltac mrun :=
  munfold; repeat (cbn -[js_match parseArgs opened]; try heap_step).

(** *** write *)

Lemma write_closed filename recnum bytenum st :
  buffers st !! filename = None ->
  write filename recnum bytenum st =
  (Throw (doserror_exn FILE_NOT_FOUND), st).
Proof. intros H. unfold write. mrun. done. Qed.

Lemma write_open filename recnum bytenum st buf b :
  buffers st !! filename = Some buf -> heap st !! buf = Some b ->
  write filename recnum bytenum st =
  (Ok tt,
   activate buf MWrite
     (update buf (write_positioned b recnum bytenum)
        (if is_null (file b)
         then setItem (STORAGE_PREFIX ++ filename) [] st else st))).
Proof.
  intros Hbuf Hb. unfold write. mrun.
  destruct b as [f L n p]; destruct f as [c|]; mrun;
    unfold write_positioned; simpl;
    destruct (js_gt L (Num 1)); mrun; reflexivity.
Qed.

Lemma natural_add a b : natural a -> natural b -> natural (js_add a b).
Proof. destruct a, b; simpl; lia. Qed.

Lemma natural_mul a b : natural a -> natural b -> natural (js_mul a b).
Proof. destruct a, b; simpl; lia. Qed.

Lemma write_positioned_ok b recnum bytenum :
  buffer_ok b -> natural recnum -> natural bytenum ->
  buffer_ok (write_positioned b recnum bytenum).
Proof.
  intros (H1 & H2 & H3 & H4) HR HB. unfold buffer_ok. simpl.
  repeat split; try done.
  apply natural_add; [|done].
  destruct (js_gt _ _); [by apply natural_mul | done].
Qed.

Lemma Inv_heap_lookup st buf b :
  Inv st -> heap st !! buf = Some b -> buffer_ok b.
Proof.
  intros HI Hb. eapply Forall_lookup_1; [apply (inv_heap _ HI) | exact Hb].
Qed.

Lemma write_safe filename recnum bytenum st :
  Inv st -> natural recnum -> natural bytenum ->
  safe (write filename recnum bytenum st).
Proof.
  intros HI HR HB.
  destruct (buffers st !! filename) as [buf|] eqn:Hbuf.
  - destruct (inv_buffers _ HI _ _ Hbuf) as [b Hb].
    rewrite (write_open _ _ _ _ _ _ Hbuf Hb). split; [|done]. simpl.
    assert (Hok : buffer_ok (write_positioned b recnum bytenum)).
    { apply write_positioned_ok; [|done|done]. by eapply Inv_heap_lookup. }
    apply (Inv_activate buf (write_positioned b recnum bytenum));
      [| |by eexists|done].
    + destruct (is_null (file b));
        (eapply Inv_update; [|exact Hb|done|by eexists]);
        [by apply Inv_setItem | done].
    + destruct (is_null (file b)); by eapply heap_update_same.
  - rewrite (write_closed _ _ _ _ Hbuf). by split.
Qed.

(** *** read and position *)

Lemma buffer_or_open_bound h filename st buf :
  buffers st !! filename = Some buf ->
  buffer_or_open h filename st = (Ok buf, st).
Proof. intros H. unfold buffer_or_open. mrun. done. Qed.

Lemma buffer_or_open_opened h filename st f st0 :
  buffers st !! filename = None ->
  open h filename (Num 0) st = (Ok tt, opened filename f (Num 0) st0) ->
  buffer_or_open h filename st =
  (Ok (length (heap st0)), opened filename f (Num 0) st0).
Proof.
  intros H Ho. unfold buffer_or_open. mrun. rewrite Ho.
  destruct (opened_lookup filename f (Num 0) st0) as [Hb _]. by rewrite Hb.
Qed.

Lemma buffer_or_open_throws h filename st e st1 :
  buffers st !! filename = None ->
  open h filename (Num 0) st = (Throw e, st1) ->
  buffer_or_open h filename st = (Throw e, st1).
Proof. intros H Ho. unfold buffer_or_open. mrun. by rewrite Ho. Qed.

(** The reference that [buffer_or_open] returns is live. *)
Lemma buffer_or_open_safe h filename st :
  Inv st -> filename <> [] ->
  safe (buffer_or_open h filename st) /\
  forall buf, fst (buffer_or_open h filename st) = Ok buf ->
    is_Some (heap (snd (buffer_or_open h filename st)) !! buf).
Proof.
  intros HI Hn. destruct (buffers st !! filename) as [buf|] eqn:Hbuf.
  - rewrite (buffer_or_open_bound _ _ _ _ Hbuf). simpl. split; [by split|].
    intros ? [= <-]. by eapply inv_buffers.
  - destruct (open_cases h filename (Num 0) st)
      as [Ho | (f & st0 & Ho & Hst0)].
    + rewrite (buffer_or_open_throws _ _ _ _ _ Hbuf Ho). simpl.
      split; [by split | done].
    + rewrite (buffer_or_open_opened _ _ _ _ _ Hbuf Ho). simpl.
      assert (Inv st0) by
        (destruct Hst0 as [-> | (text & _ & ->)];
         [done | by apply Inv_setItem]).
      split; [split; [|done] |].
      * apply Inv_opened; [done | done | simpl; lia].
      * intros ? [= <-].
        destruct (opened_lookup filename f (Num 0) st0) as [_ Hh].
        simpl in Hh. simpl. rewrite Hh. by eexists.
Qed.

Lemma read_via h filename recnum bytenum st buf st1 b :
  buffer_or_open h filename st = (Ok buf, st1) ->
  heap st1 !! buf = Some b ->
  read h filename recnum bytenum st =
  if is_null (file b) then (Throw (doserror_exn FILE_NOT_FOUND), st1)
  else (Ok tt,
        activate buf MRead (update buf (read_positioned b recnum bytenum) st1)).
Proof.
  intros Hbo Hb. unfold read. rewrite bind_run, Hbo. mrun.
  destruct b as [f L n p]; destruct f as [c|]; mrun; reflexivity.
Qed.

Lemma read_throws h filename recnum bytenum st e st1 :
  buffer_or_open h filename st = (Throw e, st1) ->
  read h filename recnum bytenum st = (Throw e, st1).
Proof. intros Hbo. unfold read. by rewrite bind_run, Hbo. Qed.

Lemma read_positioned_ok b recnum bytenum :
  buffer_ok b -> natural recnum -> natural bytenum ->
  buffer_ok (read_positioned b recnum bytenum).
Proof.
  intros (H1 & H2 & H3 & H4) HR HB. unfold buffer_ok. simpl.
  repeat split; try done.
  apply natural_add; [|done]. by apply natural_mul.
Qed.

Lemma read_safe h filename recnum bytenum st :
  Inv st -> filename <> [] -> natural recnum -> natural bytenum ->
  safe (read h filename recnum bytenum st).
Proof.
  intros HI Hn HR HB.
  destruct (buffer_or_open_safe h filename st HI Hn) as [[HI1 Hne] Hlive].
  destruct (buffer_or_open h filename st) as [[buf|e] st1] eqn:Hbo;
    simpl in *.
  - destruct (Hlive buf eq_refl) as [b Hb].
    rewrite (read_via _ _ _ _ _ _ _ _ Hbo Hb).
    destruct (file b) as [c|] eqn:Hf; simpl; [|by split].
    split; [|done]. simpl.
    apply (Inv_activate buf (read_positioned b recnum bytenum));
      [| |by (simpl; rewrite Hf; eexists)|done].
    + eapply Inv_update; [done|exact Hb| |simpl; tauto].
      apply read_positioned_ok; [|done|done]. by eapply Inv_heap_lookup.
    + by eapply heap_update_same.
  - rewrite (read_throws _ _ _ _ _ _ _ Hbo).
    split; [done | intros [= ->]; by apply Hne].
Qed.

Lemma position_via h filename records st buf st1 b :
  buffer_or_open h filename st = (Ok buf, st1) ->
  heap st1 !! buf = Some b ->
  position h filename records st =
  (Ok tt, update buf (advanced b records) st1).
Proof.
  intros Hbo Hb. unfold position. rewrite bind_run, Hbo. mrun.
  reflexivity.
Qed.

Lemma position_throws h filename records st e st1 :
  buffer_or_open h filename st = (Throw e, st1) ->
  position h filename records st = (Throw e, st1).
Proof. intros Hbo. unfold position. by rewrite bind_run, Hbo. Qed.

Lemma position_safe h filename records st :
  Inv st -> filename <> [] -> natural records ->
  safe (position h filename records st).
Proof.
  intros HI Hn HR.
  destruct (buffer_or_open_safe h filename st HI Hn) as [[HI1 Hne] Hlive].
  destruct (buffer_or_open h filename st) as [[buf|e] st1] eqn:Hbo;
    simpl in *.
  - destruct (Hlive buf eq_refl) as [b Hb].
    rewrite (position_via _ _ _ _ _ _ _ Hbo Hb). split; [|done]. simpl.
    eapply Inv_update; [done|exact Hb| |simpl; tauto].
    destruct (Inv_heap_lookup _ _ _ HI1 Hb) as (H1 & H2 & H3 & H4).
    unfold buffer_ok. simpl. repeat split; try done.
    + by apply natural_add.
    + apply natural_add; [done|]. by apply natural_mul.
  - rewrite (position_throws _ _ _ _ _ _ Hbo).
    split; [done | intros [= ->]; by apply Hne].
Qed.

(** *** append *)

Lemma append_via h filename reclength st f st0 :
  open h filename reclength st = (Ok tt, opened filename f reclength st0) ->
  append h filename reclength st =
  match f with
  | None => (Throw TypeError, opened filename f reclength st0)
  | Some text =>
      (Ok tt,
       update (length (heap st0)) (at_end (fresh_buffer f reclength) text)
         (opened filename f reclength st0))
  end.
Proof.
  intros Ho. unfold append. rewrite bind_run, Ho.
  destruct (opened_lookup filename f reclength st0) as [Hb Hh].
  mrun. destruct f as [text|]; mrun; reflexivity.
Qed.

Lemma append_throws h filename reclength st e st1 :
  open h filename reclength st = (Throw e, st1) ->
  append h filename reclength st = (Throw e, st1).
Proof. intros Ho. unfold append. by rewrite bind_run, Ho. Qed.

Lemma natural_floor_div a b :
  natural a -> natural b -> natural (js_floor_div a b).
Proof.
  destruct a as [x|], b as [y|]; simpl; try done. intros Hx Hy.
  destruct (Z.eqb_spec y 0); simpl; [done|]. apply Z.div_pos; lia.
Qed.

(** The divisor of [Math.floor(buf.filepointer / buf.recordlength)] is
    the record length [open] has just stored, which is not zero. *)
Lemma append_divisor_nonzero f reclength :
  recordlength (fresh_buffer f reclength) <> Num 0.
Proof.
  unfold fresh_buffer. simpl. destruct reclength as [z|]; simpl; [|done].
  destruct (Z.eqb_spec z 0); [done|]. congruence.
Qed.

Lemma append_safe h filename reclength st :
  Inv st -> filename <> [] -> natural reclength ->
  safe (append h filename reclength st).
Proof.
  intros HI Hn HL.
  destruct (open_cases h filename reclength st)
    as [Ho | (f & st0 & Ho & Hst0)].
  - rewrite (append_throws _ _ _ _ _ _ Ho). by split.
  - rewrite (append_via _ _ _ _ _ _ Ho).
    assert (Inv st0) by
      (destruct Hst0 as [-> | (text & _ & ->)];
       [done | by apply Inv_setItem]).
    assert (Inv (opened filename f reclength st0)) by by apply Inv_opened.
    destruct (opened_lookup filename f reclength st0) as [_ Hh].
    destruct f as [text|]; [|by split].
    split; [|done]. simpl fst. simpl snd.
    eapply Inv_update; [done | exact Hh | | simpl; tauto].
    destruct (fresh_buffer_ok (Some text) reclength HL) as (H1 & H2 & H3 & H4).
    unfold buffer_ok, at_end. cbn [recordlength recordnum filepointer].
    repeat split; try done.
    + apply natural_floor_div; [simpl; unfold jslength; lia | done].
    + simpl. unfold jslength. lia.
Qed.

(** *** close *)

Lemma close_one_closed filename st :
  buffers st !! filename = None -> close_one filename st = (Ok tt, st).
Proof. intros H. unfold close_one. mrun. done. Qed.

Lemma close_one_open filename st buf b :
  buffers st !! filename = Some buf -> heap st !! buf = Some b ->
  close_one filename st = (Ok tt, closed filename buf b st).
Proof.
  intros Hbuf Hb. unfold close_one, closed. mrun.
  destruct (bool_decide (activebuffer st = Some buf)); reflexivity.
Qed.

Lemma Inv_closed filename buf b st :
  Inv st -> heap st !! buf = Some b -> Inv (closed filename buf b st).
Proof.
  intros HI Hb. unfold closed.
  assert (H1 : Inv (unbind_name filename
                 (setItem (STORAGE_PREFIX ++ filename) (to_text (file b)) st)))
    by by apply Inv_unbind_name, Inv_setItem.
  destruct (bool_decide _); [by apply Inv_deactivate | done].
Qed.

Lemma close_one_safe filename st :
  Inv st ->
  Inv (snd (close_one filename st)) /\ fst (close_one filename st) = Ok tt.
Proof.
  intros HI. destruct (buffers st !! filename) as [buf|] eqn:Hbuf.
  - destruct (inv_buffers _ HI _ _ Hbuf) as [b Hb].
    rewrite (close_one_open _ _ _ _ Hbuf Hb). split; [|done].
    by apply Inv_closed.
  - by rewrite (close_one_closed _ _ Hbuf).
Qed.

Lemma for_each_close_safe names : forall st,
  Inv st ->
  Inv (snd (for_each names close_one st)) /\
  fst (for_each names close_one st) = Ok tt.
Proof.
  induction names as [|name names IH]; intros st HI; simpl; [done|].
  rewrite bind_run. destruct (close_one_safe name st HI) as [HI1 Hr].
  destruct (close_one name st) as [r st1]. simpl in *. subst r.
  by apply IH.
Qed.

Lemma close_safe filename st : Inv st -> safe (close filename st).
Proof.
  intros HI. unfold close. destruct filename as [|ch name].
  - rewrite bind_run. unfold gets.
    destruct (for_each_close_safe (map_to_list (buffers st)).*1 st HI)
      as [HI1 Hr].
    split; [done|]. by rewrite Hr.
  - destruct (close_one_safe (ch :: name) st HI) as [HI1 Hr].
    split; [done|]. by rewrite Hr.
Qed.

Lemma closed_commute a b la lb ba bb st :
  a <> b ->
  closed b lb bb (closed a la ba st) = closed a la ba (closed b lb bb st).
Proof.
  intros Hab.
  assert (Hk : STORAGE_PREFIX ++ b <> STORAGE_PREFIX ++ a).
  { intros H. apply app_inv_head in H. by subst. }
  unfold closed, deactivate, unbind_name, setItem.
  destruct st as [cb cm bs hp ab md mo ls out]. simpl.
  destruct (decide (ab = Some la)) as [Ha|Ha];
    destruct (decide (ab = Some lb)) as [Hb|Hb];
    rewrite ?(bool_decide_eq_true_2 _ Ha), ?(bool_decide_eq_false_2 _ Ha),
      ?(bool_decide_eq_true_2 _ Hb), ?(bool_decide_eq_false_2 _ Hb); simpl;
    rewrite ?(bool_decide_eq_true_2 _ Ha), ?(bool_decide_eq_false_2 _ Ha),
      ?(bool_decide_eq_true_2 _ Hb), ?(bool_decide_eq_false_2 _ Hb); simpl;
    unfold with_buffers, with_localStorage, with_mode, with_activebuffer;
    simpl; f_equal;
    solve [apply delete_delete | apply insert_insert_ne; exact Hk].
Qed.

Lemma close_one_commute a b st :
  Inv st -> a <> b ->
  (close_one a;; close_one b) st = (close_one b;; close_one a) st.
Proof.
  intros HI Hab. rewrite !bind_run.
  destruct (buffers st !! a) as [la|] eqn:Ha;
    destruct (buffers st !! b) as [lb|] eqn:Hb.
  - destruct (inv_buffers _ HI _ _ Ha) as [ba Hba].
    destruct (inv_buffers _ HI _ _ Hb) as [bb Hbb].
    rewrite (close_one_open a st la ba Ha Hba), (close_one_open b st lb bb Hb Hbb).
    assert (H1 : buffers (closed a la ba st) !! b = Some lb).
    { unfold closed. destruct (bool_decide _); simpl;
        by rewrite lookup_delete_ne. }
    assert (H2 : heap (closed a la ba st) !! lb = Some bb).
    { unfold closed. by destruct (bool_decide _). }
    assert (H3 : buffers (closed b lb bb st) !! a = Some la).
    { unfold closed. destruct (bool_decide _); simpl;
        by rewrite lookup_delete_ne. }
    assert (H4 : heap (closed b lb bb st) !! la = Some ba).
    { unfold closed. by destruct (bool_decide _). }
    rewrite (close_one_open b _ lb bb H1 H2), (close_one_open a _ la ba H3 H4).
    by rewrite closed_commute.
  - destruct (inv_buffers _ HI _ _ Ha) as [ba Hba].
    rewrite (close_one_open a st la ba Ha Hba), (close_one_closed b st Hb).
    assert (H1 : buffers (closed a la ba st) !! b = None).
    { unfold closed. destruct (bool_decide _); simpl;
        by rewrite lookup_delete_ne. }
    by rewrite (close_one_closed _ _ H1), (close_one_open a st la ba Ha Hba).
  - destruct (inv_buffers _ HI _ _ Hb) as [bb Hbb].
    rewrite (close_one_closed a st Ha), (close_one_open b st lb bb Hb Hbb).
    assert (H1 : buffers (closed b lb bb st) !! a = None).
    { unfold closed. destruct (bool_decide _); simpl;
        by rewrite lookup_delete_ne. }
    by rewrite (close_one_closed _ _ H1).
  - by rewrite (close_one_closed a st Ha), (close_one_closed b st Hb),
      ?(close_one_closed a st Ha).
Qed.

(** The order in which [close] visits the open names does not show. *)
Lemma for_each_close_order names names' :
  names ≡ₚ names' ->
  forall st, Inv st ->
    for_each names close_one st = for_each names' close_one st.
Proof.
  induction 1 as [|x l l' _ IH|x y l|l l' l'' _ IH1 _ IH2]; intros st HI.
  - done.
  - simpl. rewrite !bind_run.
    destruct (close_one_safe x st HI) as [HI1 Hr].
    destruct (close_one x st) as [r st1]. simpl in *. subst r. by apply IH.
  - destruct (decide (x = y)) as [->|Hxy]; [done|].
    change (for_each (y :: x :: l) close_one st)
      with ((close_one y;; close_one x;; for_each l close_one) st).
    change (for_each (x :: y :: l) close_one st)
      with ((close_one x;; close_one y;; for_each l close_one) st).
    pose proof (close_one_commute y x st HI (not_eq_sym Hxy)) as Hc.
    rewrite !bind_run in *.
    destruct (close_one_safe y st HI) as [HIy Hry].
    destruct (close_one_safe x st HI) as [HIx Hrx].
    destruct (close_one y st) as [ry sty]. destruct (close_one x st) as [rx stx].
    simpl in *. subst ry rx. rewrite !bind_run.
    destruct (close_one_safe x sty HIy) as [_ Hr1].
    destruct (close_one_safe y stx HIx) as [_ Hr2].
    destruct (close_one x sty) as [r1 s1]. destruct (close_one y stx) as [r2 s2].
    simpl in *. subst r1 r2. by injection Hc as ->.
  - rewrite IH1 by done. by apply IH2.
Qed.

(** *** reset, unlink, rename *)

Lemma reset_run st :
  reset st = (Ok tt, deactivate (with_buffers ∅ st)).
Proof. reflexivity. Qed.

Lemma reset_safe st : Inv st -> safe (reset st).
Proof. intros HI. rewrite reset_run. split; [by apply Inv_reset | done]. Qed.

Lemma unlink_safe filename st : Inv st -> safe (unlink filename st).
Proof.
  intros HI. unfold unlink. mrun.
  destruct (localStorage st !! _); split; simpl; try done.
  by apply Inv_removeItem.
Qed.

Lemma rename_safe oldname newname st :
  Inv st -> safe (rename oldname newname st).
Proof.
  intros HI. unfold rename. mrun.
  destruct (localStorage st !! _); split; simpl; try done.
  by apply Inv_setItem, Inv_removeItem.
Qed.

(** *** Composition of safe steps *)

Lemma safe_throw_retype {A B : Type} (e : exn) st :
  safe (@Throw A e, st) -> safe (@Throw B e, st).
Proof.
  intros [HI Hne]. split; [done|]. simpl in *. intros [= ->]. by apply Hne.
Qed.

Lemma safe_bind {A B : Type} (m : M A) (f : A -> M B) st :
  safe (m st) ->
  (forall a st1, m st = (Ok a, st1) -> Inv st1 -> safe (f a st1)) ->
  safe ((m ≫= f) st).
Proof.
  intros Hm Hf. rewrite bind_run.
  destruct (m st) as [[a|e] st1] eqn:E.
  - apply Hf; [done | apply Hm].
  - by apply (safe_throw_retype (A:=A)).
Qed.

Lemma safe_ok {A : Type} (a : A) st : Inv st -> safe (Ok a, st).
Proof. by split. Qed.

Lemma safe_when b (m : M unit) st :
  Inv st -> (b = true -> safe (m st)) -> safe (when b m st).
Proof. intros HI Hm. destruct b; simpl; [by apply Hm | by apply safe_ok]. Qed.

Lemma safe_modify (f : dos -> dos) st : Inv (f st) -> safe (modify f st).
Proof. intros H. by apply safe_ok. Qed.

Lemma parseArgs_loop_throws opts : forall fuel s args e,
  parseArgs_loop fuel s opts args = Throw e -> e = doserror_exn INVALID_OPTION.
Proof.
  induction fuel as [|fuel IH]; intros s args e H; simpl in H.
  - unfold parseArgs_exit in H. destruct (0 <? jslength s); congruence.
  - destruct (js_match re_ARG s) as [m|].
    + destruct (indexOf opts (cap1 m) =? -1); [congruence|].
      by eapply IH.
    + unfold parseArgs_exit in H. destruct (0 <? jslength s); congruence.
Qed.

Lemma parseArgs_throws s opts e :
  parseArgs s opts = Throw e -> e = doserror_exn INVALID_OPTION.
Proof. apply parseArgs_loop_throws. Qed.

Lemma safe_parseArgs {B : Type} s opts (k : Args -> M B) st :
  Inv st ->
  (forall a, parseArgs s opts = Ok a -> args_ok a -> safe (k a st)) ->
  safe ((lift (parseArgs s opts) ≫= k) st).
Proof.
  intros HI Hk. rewrite bind_run. unfold lift.
  destruct (parseArgs s opts) as [a|e] eqn:E.
  - apply Hk; [done | by eapply parseArgs_ok].
  - apply parseArgs_throws in E as ->. by split.
Qed.

(** *** executeCommand *)

Lemma safe_flag b (g : dos -> Z) st :
  Inv st -> safe (when b (modify (fun st => with_monico (g st) st)) st).
Proof.
  intros HI. apply safe_when; [done|]. intros _.
  by apply safe_modify, Inv_with_monico.
Qed.

Lemma executeCommand_safe h command st :
  Inv st -> safe (executeCommand h command st).
Proof.
  intros HI. unfold executeCommand.
  apply safe_bind; [by apply safe_ok|]. intros mon ? [= <- <-] _.
  apply safe_bind.
  { apply safe_when; [done|]. intros _. by apply safe_modify, Inv_echo. }
  clear HI. intros [] st1 _ HI.
  destruct (js_match re_MON command) as [m|].
  { apply safe_parseArgs; [done|]. intros a _ _.
    apply safe_bind; [by apply safe_flag|]. intros [] st2 _ HI2.
    apply safe_bind; [by apply safe_flag|]. intros [] st3 _ HI3.
    by apply safe_flag. }
  destruct (js_match re_NOMON command) as [m|].
  { apply safe_parseArgs; [done|]. intros a _ _.
    apply safe_bind; [by apply safe_flag|]. intros [] st2 _ HI2.
    apply safe_bind; [by apply safe_flag|]. intros [] st3 _ HI3.
    by apply safe_flag. }
  destruct (js_match re_OPEN command) as [m|] eqn:Hm.
  { apply re_file_captures in Hm as [Hn _].
    apply safe_parseArgs; [done|]. intros a _ (HL & HR & HB).
    by apply open_Inv. }
  clear Hm. destruct (js_match re_APPEND command) as [m|] eqn:Hm.
  { apply re_file_captures in Hm as [Hn _].
    apply safe_parseArgs; [done|]. intros a _ (HL & HR & HB).
    by apply append_safe. }
  clear Hm. destruct (js_match re_CLOSE command) as [m|].
  { by apply close_safe. }
  destruct (js_match re_POSITION command) as [m|] eqn:Hm.
  { apply re_file_captures in Hm as [Hn _].
    apply safe_parseArgs; [done|]. intros a _ (HL & HR & HB).
    by apply position_safe. }
  clear Hm. destruct (js_match re_READ command) as [m|] eqn:Hm.
  { apply re_file_captures in Hm as [Hn _].
    apply safe_parseArgs; [done|]. intros a _ (HL & HR & HB).
    by apply read_safe. }
  clear Hm. destruct (js_match re_WRITE command) as [m|].
  { apply safe_parseArgs; [done|]. intros a _ (HL & HR & HB).
    by apply write_safe. }
  destruct (js_match re_DELETE command) as [m|].
  { apply safe_parseArgs; [done|]. intros a _ _. by apply unlink_safe. }
  destruct (js_match re_RENAME command) as [m|].
  { apply safe_parseArgs; [done|]. intros a _ _. by apply rename_safe. }
  destruct (js_match re_PR command) as [m|].
  { apply safe_parseArgs; [done|]. intros a _ _.
    destruct (js_eq _ _).
    - apply safe_when; [done|]. intros _. by apply safe_modify, Inv_echo.
    - destruct (js_eq _ _); [|by split].
      apply safe_when; [done|]. intros _. by apply safe_modify, Inv_echo. }
  destruct (js_match re_EMPTY command) as [m|]; [|by split].
  split; [|done]. by apply Inv_deactivate.
Qed.

(** *** The hooked routines *)

Lemma update_same buf b st : heap st !! buf = Some b -> update buf b st = st.
Proof.
  intros H. unfold update. rewrite list_insert_id by done. by destruct st.
Qed.

(** In read or write mode the active reference leads to a buffer with
    content. *)
Lemma Inv_active_buffer st :
  Inv st -> mode st <> MNone ->
  exists buf b f,
    activebuffer st = Some buf /\ heap st !! buf = Some b /\ file b = Some f.
Proof.
  intros HI Hm. destruct (activebuffer st) as [buf|] eqn:Ha.
  - destruct (inv_active _ HI buf Ha) as (b & f & Hb & Hf). eauto 6.
  - destruct (inv_coupled _ HI) as [H _]. by specialize (H Ha).
Qed.

Lemma readChar_run st buf b f :
  mode st = MRead -> activebuffer st = Some buf ->
  heap st !! buf = Some b -> file b = Some f ->
  readChar st =
  if js_ge (filepointer b) (Num (jslength f))
  then (Throw (doserror_exn END_OF_DATA), st)
  else (Ok (FromFile (js_index f (filepointer b))),
        traced MON_I (TtyWriteChar (js_index f (filepointer b)))
          (update buf (set_filepointer (js_add (filepointer b) (Num 1)) b)
             st)).
Proof.
  intros Hm Ha Hb Hf. unfold readChar, traced. mrun.
  rewrite Hm. mrun. rewrite Ha. mrun. rewrite Hf. mrun.
  destruct (js_ge _ _); mrun; [done|].
  destruct (flag_set _ _); reflexivity.
Qed.

Lemma readChar_terminal st :
  mode st <> MRead ->
  readChar st = (Ok FromTerminal, echo TtyReadChar st).
Proof. intros Hm. unfold readChar. mrun. by destruct (mode st). Qed.

Lemma readLine_run prompt st buf b f :
  mode st = MRead -> activebuffer st = Some buf ->
  heap st !! buf = Some b -> file b = Some f ->
  readLine prompt st =
  if js_ge (filepointer b) (Num (jslength f))
  then (Throw (doserror_exn END_OF_DATA), st)
  else
    let scan :=
      readLine_loop (distance (filepointer b) (Num (jslength f)))
        f (filepointer b) [] in
    (Ok (FromFile (join (snd scan))),
     traced MON_I (TtyWriteString (prompt ++ join (snd scan) ++ [CR]))
       (update buf (set_filepointer (fst scan) b) st)).
Proof.
  intros Hm Ha Hb Hf. unfold readLine, traced. mrun.
  rewrite Hm. mrun. rewrite Ha. mrun. rewrite Hf. mrun.
  destruct (js_ge _ _); mrun; [done|].
  destruct (readLine_loop _ _ _ _) as [fp' buffer]. mrun.
  destruct (flag_set _ _); reflexivity.
Qed.

Lemma readLine_terminal prompt st :
  mode st <> MRead ->
  readLine prompt st = (Ok FromTerminal, echo (TtyReadLine prompt) st).
Proof. intros Hm. unfold readLine. mrun. by destruct (mode st). Qed.

Lemma readLine_loop_natural data : forall fuel fp buffer,
  natural fp -> natural (fst (readLine_loop fuel data fp buffer)).
Proof.
  induction fuel as [|fuel IH]; intros fp buffer Hfp;
    cbn [readLine_loop]; [done|].
  destruct (js_lt fp _); [|done].
  destruct (is_terminator _); cbn [fst].
  - by apply natural_add.
  - apply IH. by apply natural_add.
Qed.

Lemma set_filepointer_ok b fp :
  buffer_ok b -> natural fp -> buffer_ok (set_filepointer fp b).
Proof. intros (H1 & H2 & H3 & H4) Hfp. by repeat split. Qed.

Lemma Inv_traced flag e st : Inv st -> Inv (traced flag e st).
Proof.
  intros HI. unfold traced. destruct (flag_set _ _); [by apply Inv_echo|done].
Qed.

Lemma readChar_safe st : Inv st -> safe (readChar st).
Proof.
  intros HI. destruct (decide (mode st = MRead)) as [Hm|Hm].
  - destruct (Inv_active_buffer st HI) as (buf & b & f & Ha & Hb & Hf);
      [by rewrite Hm|].
    rewrite (readChar_run _ _ _ _ Hm Ha Hb Hf).
    destruct (js_ge _ _); [by split|]. split; [|done]. simpl.
    apply Inv_traced. eapply Inv_update; [done|exact Hb| |simpl; tauto].
    pose proof (Inv_heap_lookup _ _ _ HI Hb) as Hok.
    apply set_filepointer_ok; [done|].
    apply natural_add; [apply Hok | simpl; lia].
  - rewrite (readChar_terminal _ Hm). split; [by apply Inv_echo | done].
Qed.

Lemma readLine_safe prompt st : Inv st -> safe (readLine prompt st).
Proof.
  intros HI. destruct (decide (mode st = MRead)) as [Hm|Hm].
  - destruct (Inv_active_buffer st HI) as (buf & b & f & Ha & Hb & Hf);
      [by rewrite Hm|].
    rewrite (readLine_run _ _ _ _ _ Hm Ha Hb Hf).
    destruct (js_ge _ _); [by split|]. split; [|done]. simpl.
    apply Inv_traced. eapply Inv_update; [done|exact Hb| |simpl; tauto].
    pose proof (Inv_heap_lookup _ _ _ HI Hb) as Hok.
    apply set_filepointer_ok; [done|].
    apply readLine_loop_natural, Hok.
  - rewrite (readLine_terminal _ _ Hm). split; [by apply Inv_echo | done].
Qed.

Lemma set_file_same b f : file b = Some f -> set_file (Some f) b = b.
Proof. intros H. destruct b. simpl in *. by subst. Qed.

Lemma extend_file_run buf : forall n st b f,
  heap st !! buf = Some b -> file b = Some f ->
  n = distance (Num (jslength f)) (filepointer b) ->
  extend_file n buf st =
  (Ok tt, update buf (set_file (Some (f ++ replicate n NUL)) b) st).
Proof.
  induction n as [|n IH]; intros st b f Hb Hf Hn.
  - simpl. rewrite app_nil_r, (set_file_same _ _ Hf).
    by rewrite (update_same _ _ _ Hb).
  - cbn [extend_file]. rewrite bind_run, (field_run _ _ _ _ Hb).
    rewrite bind_run, (field_run _ _ _ _ Hb), Hf. mrun.
    destruct (filepointer b) as [p|] eqn:Hp; [|done].
    simpl in Hn. unfold jslength in *.
    replace (js_gt (Num p) (Num (Z.of_nat (length f)))) with true
      by (symmetry; simpl; lia).
    rewrite Hb.
    erewrite (IH _ (set_file (Some (f ++ [NUL])) b) (f ++ [NUL]));
      [| by eapply heap_update_same | done | ].
    + rewrite update_update. simpl. by rewrite <- app_assoc.
    + simpl. rewrite Hp. simpl. unfold jslength.
      rewrite length_app. simpl. lia.
Qed.

Lemma write_to_file_run c st buf b f :
  activebuffer st = Some buf -> heap st !! buf = Some b -> file b = Some f ->
  write_to_file c st =
  (Ok tt,
   update buf (char_written b f c) (traced MON_O (TtyWriteChar (Some c)) st)).
Proof.
  intros Ha Hb Hf. unfold write_to_file.
  rewrite bind_run. unfold gets at 1.
  rewrite bind_run.
  assert (Hw : when (flag_set (monico st) MON_O)
                 (tty (TtyWriteChar (Some c))) st
               = (Ok tt, traced MON_O (TtyWriteChar (Some c)) st)).
  { unfold traced. by destruct (flag_set _ _). }
  rewrite Hw. clear Hw.
  set (st1 := traced MON_O (TtyWriteChar (Some c)) st).
  assert (Ha1 : activebuffer st1 = Some buf).
  { unfold st1, traced. by destruct (flag_set _ _). }
  assert (Hb1 : heap st1 !! buf = Some b).
  { unfold st1, traced. by destruct (flag_set _ _). }
  clearbody st1. clear Ha Hb.
  rewrite bind_run. unfold gets at 1. rewrite Ha1.
  rewrite bind_run. unfold object, mret, M_ret.
  rewrite bind_run, (field_run _ _ _ _ Hb1).
  rewrite bind_run.
  rewrite (extend_file_run buf (rounds b) st1 b f Hb1 Hf)
    by (unfold rounds; by rewrite Hf).
  unfold rounds. rewrite Hf.
  mrun. unfold char_written, written_file, zero_filled.
  destruct (js_eq _ _); mrun; reflexivity.
Qed.

Lemma write_to_file_safe c st :
  Inv st -> mode st = MWrite -> safe (write_to_file c st).
Proof.
  intros HI Hm.
  destruct (Inv_active_buffer st HI) as (buf & b & f & Ha & Hb & Hf);
    [by rewrite Hm|].
  rewrite (write_to_file_run _ _ _ _ _ Ha Hb Hf). split; [|done]. simpl.
  eapply (Inv_update buf b).
  - by apply Inv_traced.
  - unfold traced. by destruct (flag_set _ _).
  - destruct (Inv_heap_lookup _ _ _ HI Hb) as (H1 & H2 & H3 & H4).
    unfold buffer_ok. simpl. repeat split; try done.
    apply natural_add; [done | simpl; lia].
  - intros _. by eexists.
Qed.

Lemma writeChar_safe h c st : Inv st -> safe (writeChar h c st).
Proof.
  intros HI. unfold writeChar.
  apply safe_bind; [by apply safe_ok|]. intros cm ? [= <- <-] _.
  destruct (commandMode st).
  - destruct (Ascii.eqb c CR).
    + apply safe_bind; [by apply safe_modify, Inv_with_commandMode|].
      intros [] st1 _ HI1.
      apply safe_bind; [by apply safe_ok|]. intros command ? [= <- <-] _.
      apply safe_bind; [by apply executeCommand_safe|].
      intros [] st2 _ HI2. by apply safe_modify, Inv_with_commandBuffer.
    + by apply safe_modify, Inv_with_commandBuffer.
  - destruct (Ascii.eqb c EOT).
    + apply safe_bind; [by apply safe_modify, Inv_with_commandBuffer|].
      intros [] st1 _ HI1. by apply safe_modify, Inv_with_commandMode.
    + apply safe_bind; [by apply safe_ok|]. intros m ? [= <- <-] _.
      destruct (mode st) eqn:Hm.
      * by apply safe_modify, Inv_echo.
      * by apply safe_modify, Inv_echo.
      * by apply write_to_file_safe.
Qed.

(** ** Reachable states *)

Lemma perform_safe h o st : Inv st -> safe (perform h o st).
Proof.
  intros HI. destruct o as [|command|c| |prompt]; simpl;
    (apply safe_bind;
     [| intros a st1 _ HI1; by apply safe_ok]).
  - by apply reset_safe.
  - by apply executeCommand_safe.
  - by apply writeChar_safe.
  - by apply readChar_safe.
  - by apply readLine_safe.
Qed.

Lemma reachable_Inv st : reachable st -> Inv st.
Proof.
  induction 1 as [store | h o st _ IH].
  - apply Inv_start.
  - apply (perform_safe h o st IH).
Qed.

Lemma reachable_names st name buf :
  reachable st -> buffers st !! name = Some buf -> name <> [].
Proof.
  intros Hr Hb ->. apply reachable_Inv in Hr.
  by rewrite (inv_names _ Hr) in Hb.
Qed.

(** No operation of a session meets a reference outside the heap. *)
Lemma step_no_bad_reference h o st :
  reachable st -> fst (perform h o st) <> Throw BadReference.
Proof. intros H. apply perform_safe. by apply reachable_Inv. Qed.

Lemma reachable_run script : forall st,
  reachable st -> reachable (run script st).
Proof.
  induction script as [|[h o] script IH]; intros st H; simpl; [done|].
  apply IH. by apply reach_step.
Qed.

(** ** The dispatcher on the commands of the buffer manager *)

Lemma when_tty flag e st :
  when (flag_set (monico st) flag) (tty e) st = (Ok tt, traced flag e st).
Proof. unfold traced. by destruct (flag_set _ _). Qed.

(** A command line that starts with another keyword is not matched. *)
Ltac refute_match :=
  unfold re_MON, re_NOMON, re_OPEN, re_APPEND, re_CLOSE, re_POSITION,
    re_READ, re_WRITE, re_DELETE, re_RENAME, re_PR, re_file;
  rewrite js_match_anchored; reflexivity.

Ltac skip_pattern r command :=
  replace (js_match r command) with (@None captures)
    by (symmetry; refute_match).

Ltac enter_dispatch :=
  unfold executeCommand;
  rewrite bind_run; unfold gets at 1;
  rewrite bind_run, when_tty.

Lemma executeCommand_OPEN h rest st m :
  js_match re_OPEN (str "OPEN" ++ rest) = Some m ->
  executeCommand h (str "OPEN" ++ rest) st =
  (args ← lift (parseArgs (cap2 m) (str "L"));
   open h (cap1 m) (arg_L args))
    (traced MON_C (TtyWriteString ((str "OPEN" ++ rest) ++ [CR])) st).
Proof.
  intros Hm. enter_dispatch.
  skip_pattern re_MON (str "OPEN" ++ rest).
  skip_pattern re_NOMON (str "OPEN" ++ rest).
  by rewrite Hm.
Qed.

Lemma executeCommand_APPEND h rest st m :
  js_match re_APPEND (str "APPEND" ++ rest) = Some m ->
  executeCommand h (str "APPEND" ++ rest) st =
  (args ← lift (parseArgs (cap2 m) []);
   append h (cap1 m) (arg_L args))
    (traced MON_C (TtyWriteString ((str "APPEND" ++ rest) ++ [CR])) st).
Proof.
  intros Hm. enter_dispatch.
  skip_pattern re_MON (str "APPEND" ++ rest).
  skip_pattern re_NOMON (str "APPEND" ++ rest).
  skip_pattern re_OPEN (str "APPEND" ++ rest).
  by rewrite Hm.
Qed.

Lemma executeCommand_CLOSE h rest st m :
  js_match re_CLOSE (str "CLOSE" ++ rest) = Some m ->
  executeCommand h (str "CLOSE" ++ rest) st =
  close (cap1 m)
    (traced MON_C (TtyWriteString ((str "CLOSE" ++ rest) ++ [CR])) st).
Proof.
  intros Hm. enter_dispatch.
  skip_pattern re_MON (str "CLOSE" ++ rest).
  skip_pattern re_NOMON (str "CLOSE" ++ rest).
  skip_pattern re_OPEN (str "CLOSE" ++ rest).
  skip_pattern re_APPEND (str "CLOSE" ++ rest).
  by rewrite Hm.
Qed.

Lemma executeCommand_READ h rest st m :
  js_match re_READ (str "READ" ++ rest) = Some m ->
  executeCommand h (str "READ" ++ rest) st =
  (args ← lift (parseArgs (cap2 m) (str "RB"));
   read h (cap1 m) (arg_R args) (arg_B args))
    (traced MON_C (TtyWriteString ((str "READ" ++ rest) ++ [CR])) st).
Proof.
  intros Hm. enter_dispatch.
  skip_pattern re_MON (str "READ" ++ rest).
  skip_pattern re_NOMON (str "READ" ++ rest).
  skip_pattern re_OPEN (str "READ" ++ rest).
  skip_pattern re_APPEND (str "READ" ++ rest).
  skip_pattern re_CLOSE (str "READ" ++ rest).
  skip_pattern re_POSITION (str "READ" ++ rest).
  by rewrite Hm.
Qed.

Lemma executeCommand_WRITE h rest st m :
  js_match re_WRITE (str "WRITE" ++ rest) = Some m ->
  executeCommand h (str "WRITE" ++ rest) st =
  (args ← lift (parseArgs (cap2 m) (str "RB"));
   write (cap1 m) (arg_R args) (arg_B args))
    (traced MON_C (TtyWriteString ((str "WRITE" ++ rest) ++ [CR])) st).
Proof.
  intros Hm. enter_dispatch.
  skip_pattern re_MON (str "WRITE" ++ rest).
  skip_pattern re_NOMON (str "WRITE" ++ rest).
  skip_pattern re_OPEN (str "WRITE" ++ rest).
  skip_pattern re_APPEND (str "WRITE" ++ rest).
  skip_pattern re_CLOSE (str "WRITE" ++ rest).
  skip_pattern re_POSITION (str "WRITE" ++ rest).
  skip_pattern re_READ (str "WRITE" ++ rest).
  by rewrite Hm.
Qed.

(** * The character write splice *)

Lemma writeChar_data h c st :
  commandMode st = false -> c <> EOT -> mode st = MWrite ->
  writeChar h c st = write_to_file c st.
Proof.
  intros Hcm Hc Hm. unfold writeChar. rewrite bind_run. unfold gets at 1.
  rewrite Hcm. apply Ascii.eqb_neq in Hc. rewrite Hc.
  rewrite bind_run. unfold gets at 1. by rewrite Hm.
Qed.

Lemma written_file_beyond f p c :
  jslength f < p ->
  written_file f (Num p) c =
  f ++ replicate (Z.to_nat (p - jslength f)) NUL ++ [c].
Proof.
  intros Hp. unfold written_file, zero_filled. simpl.
  replace (p =? jslength (f ++ replicate (Z.to_nat (p - jslength f)) NUL))
    with true.
  - by rewrite <- app_assoc.
  - symmetry. apply Z.eqb_eq. unfold jslength in *.
    rewrite length_app, length_replicate. lia.
Qed.

Lemma written_file_inside f p c :
  0 <= p -> p < jslength f ->
  written_file f (Num p) c = <[Z.to_nat p := c]> f.
Proof.
  intros H0 Hp. unfold written_file, zero_filled, jslength in *. simpl.
  replace (Z.to_nat (p - Z.of_nat (length f))) with 0%nat by lia.
  simpl. rewrite app_nil_r.
  replace (p =? Z.of_nat (length f)) with false by (symmetry; lia).
  unfold substring, substring_from, clamp, jslength.
  replace (Z.to_nat (Z.min (Z.max 0 0) (Z.of_nat (length f)))) with 0%nat
    by lia.
  replace (Z.to_nat (Z.min (Z.max p 0) (Z.of_nat (length f))))
    with (Z.to_nat p) by lia.
  replace (Z.to_nat (Z.min (Z.max (p + 1) 0) (Z.of_nat (length f))))
    with (S (Z.to_nat p)) by lia.
  rewrite Nat.max_0_l, Nat.min_0_l, Nat.sub_0_r, drop_0.
  rewrite <- app_assoc. simpl. symmetry. apply insert_take_drop. lia.
Qed.

(** C1 (zero fill).  In write mode, outside command mode, a character
    [c] other than the command escape written while the pointer [p] is
    beyond the end of the content: NUL characters are appended until the
    length is [p], then [c]; the new length is [p + 1], all padding is
    NUL and the pointer is [p + 1].  Nothing else changes but the trace
    of the character when output is monitored. *)
Theorem zero_fill_write h c st :
  reachable st -> commandMode st = false -> c <> EOT -> mode st = MWrite ->
  exists buf b f,
    activebuffer st = Some buf /\ heap st !! buf = Some b /\
    file b = Some f /\
    forall p, filepointer b = Num p -> jslength f < p ->
      let padding := replicate (Z.to_nat (p - jslength f)) NUL in
      writeChar h c st =
        (Ok tt,
         update buf
           {| file := Some (f ++ padding ++ [c]);
              recordlength := recordlength b;
              recordnum := recordnum b;
              filepointer := Num (p + 1) |}
           (traced MON_O (TtyWriteChar (Some c)) st)) /\
      jslength (f ++ padding) = p /\
      jslength (f ++ padding ++ [c]) = p + 1 /\
      Forall (fun x => x = NUL) padding.
Proof.
  intros Hr Hcm Hc Hm. apply reachable_Inv in Hr.
  destruct (Inv_active_buffer st Hr) as (buf & b & f & Ha & Hb & Hf);
    [by rewrite Hm|].
  exists buf, b, f. repeat split; try done.
  - rewrite (writeChar_data _ _ _ Hcm Hc Hm).
    rewrite (write_to_file_run _ _ _ _ _ Ha Hb Hf).
    unfold char_written. rewrite H. by rewrite written_file_beyond.
  - unfold jslength in *. rewrite length_app, length_replicate. lia.
  - unfold jslength in *. rewrite !length_app, length_replicate. simpl. lia.
  - apply Forall_forall. intros x Hx. by apply elem_of_replicate in Hx as [? _].
Qed.

Lemma zero_fill_write_witness :
  exists buf b f,
    activebuffer session_write_beyond = Some buf /\
    heap session_write_beyond !! buf = Some b /\
    file b = Some f /\
    forall p, filepointer b = Num p -> jslength f < p ->
      let padding := replicate (Z.to_nat (p - jslength f)) NUL in
      writeChar host_404 "A" session_write_beyond =
        (Ok tt,
         update buf
           {| file := Some (f ++ padding ++ [ "A"%char ]);
              recordlength := recordlength b;
              recordnum := recordnum b;
              filepointer := Num (p + 1) |}
           (traced MON_O (TtyWriteChar (Some "A"%char))
              session_write_beyond)) /\
      jslength (f ++ padding) = p /\
      jslength (f ++ padding ++ [ "A"%char ]) = p + 1 /\
      Forall (fun x => x = NUL) padding.
Proof.
  apply (zero_fill_write host_404 "A" session_write_beyond).
  - apply reachable_run, reach_start.
  - reflexivity.
  - discriminate.
  - reflexivity.
Defined.

(** C2 (splice).  In write mode, outside command mode, a character [c]
    other than the command escape written while the pointer [p] is
    inside the content replaces the character at index [p]: the length
    and every other index are unchanged, and the pointer is [p + 1]. *)
Theorem splice_write h c st :
  reachable st -> commandMode st = false -> c <> EOT -> mode st = MWrite ->
  exists buf b f,
    activebuffer st = Some buf /\ heap st !! buf = Some b /\
    file b = Some f /\
    forall p, filepointer b = Num p -> p < jslength f ->
      let f' := <[Z.to_nat p := c]> f in
      writeChar h c st =
        (Ok tt,
         update buf
           {| file := Some f';
              recordlength := recordlength b;
              recordnum := recordnum b;
              filepointer := Num (p + 1) |}
           (traced MON_O (TtyWriteChar (Some c)) st)) /\
      length f' = length f /\
      f' !! Z.to_nat p = Some c /\
      forall i, i <> Z.to_nat p -> f' !! i = f !! i.
Proof.
  intros Hr Hcm Hc Hm. apply reachable_Inv in Hr.
  destruct (Inv_active_buffer st Hr) as (buf & b & f & Ha & Hb & Hf);
    [by rewrite Hm|].
  exists buf, b, f. repeat split; try done.
  - rewrite (writeChar_data _ _ _ Hcm Hc Hm).
    rewrite (write_to_file_run _ _ _ _ _ Ha Hb Hf).
    unfold char_written. rewrite H.
    rewrite written_file_inside; [done| |done].
    destruct (Inv_heap_lookup _ _ _ Hr Hb) as (_ & _ & _ & Hfp).
    by rewrite H in Hfp.
  - apply length_insert.
  - apply list_lookup_insert_eq.
    destruct (Inv_heap_lookup _ _ _ Hr Hb) as (_ & _ & _ & Hfp).
    rewrite H in Hfp. simpl in Hfp. unfold jslength in *. lia.
  - intros i Hi. by apply list_lookup_insert_ne.
Qed.

Lemma splice_write_witness :
  exists buf b f,
    activebuffer session_write_inside = Some buf /\
    heap session_write_inside !! buf = Some b /\
    file b = Some f /\
    forall p, filepointer b = Num p -> p < jslength f ->
      let f' := <[Z.to_nat p := "x"%char]> f in
      writeChar host_200 "x" session_write_inside =
        (Ok tt,
         update buf
           {| file := Some f';
              recordlength := recordlength b;
              recordnum := recordnum b;
              filepointer := Num (p + 1) |}
           (traced MON_O (TtyWriteChar (Some "x"%char))
              session_write_inside)) /\
      length f' = length f /\
      f' !! Z.to_nat p = Some "x"%char /\
      forall i, i <> Z.to_nat p -> f' !! i = f !! i.
Proof.
  apply (splice_write host_200 "x" session_write_inside).
  - apply reachable_run, reach_start.
  - reflexivity.
  - discriminate.
  - reflexivity.
Defined.

(** * APPEND *)

Lemma silent_traced flag e st : silent (traced flag e st) = silent st.
Proof. unfold traced. by destruct (flag_set _ _). Qed.

(** C3, as the claim has it, fails: the command line APPEND F,L5 is
    rejected with code 11 and no buffer is opened, although "DATA" would
    be served for F. *)
Lemma append_rejects_L :
  executeCommand host_200 (str "APPEND F,L5") (start ∅) =
  (Throw (RuntimeError 11 (str "Invalid option")), start ∅).
Proof. vm_compute. reflexivity. Qed.

(** C3, amended.  APPEND allows no keyword letter: a command line
    APPEND name with a comma-introduced tail, such as ,L5, fails with
    code 11 and changes nothing but the trace of the command.  Without a
    tail, for a name that the buffer table does not inherit and when no
    buffer is bound under the name hasOwnProperty, the buffer is opened
    with record length 1 and, its content being stored or fetched with
    status 200 or 0, the pointer is set to the length of the content and
    the record number to floor(pointer / record length). *)
Theorem append_dispatch h rest st m :
  js_match re_APPEND (str "APPEND" ++ rest) = Some m ->
  let command := str "APPEND" ++ rest in
  let st0 := traced MON_C (TtyWriteString (command ++ [CR])) st in
  let key := STORAGE_PREFIX ++ cap1 m in
  let appended f st1 :=
    update (length (heap st1))
      {| file := Some f;
         recordlength := Num 1;
         recordnum := js_floor_div (Num (jslength f)) (Num 1);
         filepointer := Num (jslength f) |}
      (opened (cap1 m) (Some f) (Num 0) st1) in
  (cap2 m <> [] ->
   executeCommand h command st =
   (Throw (RuntimeError 11 (str "Invalid option")), st0)) /\
  (cap2 m = [] ->
   ordinary (cap1 m) = true ->
   buffers st !! str "hasOwnProperty" = None ->
   (forall f, localStorage st !! key = Some f ->
      executeCommand h command st = (Ok tt, appended f st0)) /\
   (forall status text,
      localStorage st !! key = None ->
      xhr h (cap1 m) = XhrDone status text ->
      (status =? 200) || (status =? 0) = true ->
      executeCommand h command st =
      (Ok tt, appended (crlf_to_cr text) (setItem key (crlf_to_cr text) st0)))).
Proof.
  intros Hm command st0 key appended.
  unfold command. rewrite (executeCommand_APPEND _ _ _ _ Hm).
  fold command. fold st0. rewrite bind_run, parseArgs_no_letters.
  assert (Hst0 : localStorage st0 = localStorage st).
  { unfold st0, traced. by destruct (flag_set _ _). }
  split.
  - intros Ht. destruct (cap2 m); [done|]. reflexivity.
  - intros -> _ _. unfold lift. cbn [default_args arg_L]. split.
    + intros f Hf.
      rewrite (append_via h (cap1 m) (Num 0) st0 (Some f) st0);
        [done|]. apply open_cached. by rewrite Hst0.
    + intros status text Hf Hx Hs.
      rewrite (append_via h (cap1 m) (Num 0) st0 (Some (crlf_to_cr text))
                 (setItem key (crlf_to_cr text) st0)); [done|].
      eapply open_fetched; [by rewrite Hst0 | exact Hx | exact Hs].
Qed.

Lemma append_dispatch_witness :
  executeCommand host_200 (str "APPEND F") (start ∅) =
  (Ok tt,
   update 0
     {| file := Some (str "DATA"); recordlength := Num 1;
        recordnum := Num 4; filepointer := Num 4 |}
     (opened (str "F") (Some (str "DATA")) (Num 0)
        (setItem (str "vfs/F") (str "DATA") (start ∅)))).
Proof.
  assert (Hm : js_match re_APPEND (str "APPEND" ++ str " F")
               = Some {| cap1 := str "F"; cap2 := []; cap3 := [] |})
    by reflexivity.
  destruct (append_dispatch host_200 (str " F") (start ∅) _ Hm) as [_ H].
  destruct (H eq_refl eq_refl eq_refl) as [_ H2].
  exact (H2 200 (str "DATA") eq_refl eq_refl eq_refl).
Defined.

(** * Hexadecimal arguments *)

(** C4.  The pattern of [parseArgs] accepts a value made of a dollar
    sign and hexadecimal digits, but the value is converted with
    [Number], which knows no dollar prefix: the letter is bound to [NaN],
    not to the hexadecimal value (16 for $10). *)
Theorem hex_argument_is_NaN :
  exists args,
    parseArgs (str ",L$10") (str "L") = Ok args /\
    arg_L args = NaN /\ arg_L args <> Num 16.
Proof.
  eexists. split; [vm_compute; reflexivity|]. by split.
Qed.

(** * WRITE *)

(** C5, as the claim has it, fails: no buffer is open under F, yet the
    command line WRITE F,L5 fails with code 11, not with code 6: the
    argument tail is checked against the letters R and B before the
    buffer is looked up. *)
Lemma write_rejects_option :
  let st := start ∅ in
  let after := executeCommand host_404 (str "WRITE F,L5") st in
  buffers st !! str "F" = None /\
  fst after = Throw (RuntimeError 11 (str "Invalid option")) /\
  fst after <> Throw (RuntimeError 6 (str "File not found")).
Proof. vm_compute. by repeat split. Qed.

(** C5, amended.  A WRITE command line, in a session.  When its
    argument tail is not accepted with the letters R and B it fails with
    code 11 and the session is as before.  When the tail is accepted and
    the name is one that the buffer table does not inherit: if no buffer
    is open under the name the command fails with code 6 and the session
    is as before (the command is traced when commands are monitored); if
    a buffer is open it sets the record number to R, the pointer to
    (record length * R) + B if the record length exceeds 1 and to
    (previous pointer) + B otherwise, and the mode to write, first
    creating an empty file for a buffer without content. *)
Theorem write_dispatch h rest st m :
  reachable st ->
  js_match re_WRITE (str "WRITE" ++ rest) = Some m ->
  let command := str "WRITE" ++ rest in
  let st0 := traced MON_C (TtyWriteString (command ++ [CR])) st in
  silent st0 = silent st /\
  (forall e, parseArgs (cap2 m) (str "RB") = Throw e ->
   executeCommand h command st =
   (Throw (RuntimeError 11 (str "Invalid option")), st0)) /\
  (forall args, parseArgs (cap2 m) (str "RB") = Ok args ->
   ordinary (cap1 m) = true ->
   (buffers st !! cap1 m = None ->
    executeCommand h command st =
    (Throw (RuntimeError 6 (str "File not found")), st0)) /\
   (forall buf, buffers st !! cap1 m = Some buf ->
    exists b, heap st !! buf = Some b /\
      let b' :=
        {| file := Some (default [] (file b));
           recordlength := recordlength b;
           recordnum := arg_R args;
           filepointer :=
             if js_gt (recordlength b) (Num 1)
             then js_add (js_mul (recordlength b) (arg_R args)) (arg_B args)
             else js_add (filepointer b) (arg_B args) |} in
      let st1 :=
        if is_null (file b)
        then setItem (STORAGE_PREFIX ++ cap1 m) [] st0 else st0 in
      executeCommand h command st =
      (Ok tt, with_mode MWrite (with_activebuffer (Some buf)
                                  (update buf b' st1))))).
Proof.
  intros Hr Hm command st0. apply reachable_Inv in Hr.
  unfold command. rewrite (executeCommand_WRITE _ _ _ _ Hm).
  fold command. fold st0. rewrite bind_run.
  assert (Hb0 : buffers st0 = buffers st).
  { unfold st0, traced. by destruct (flag_set _ _). }
  assert (Hh0 : heap st0 = heap st).
  { unfold st0, traced. by destruct (flag_set _ _). }
  split; [apply silent_traced|]. split.
  - intros e He. rewrite He. unfold lift.
    by rewrite (parseArgs_throws _ _ _ He).
  - intros args Hargs _. rewrite Hargs. unfold lift. split.
    + intros Hnone. apply write_closed. by rewrite Hb0.
    + intros buf Hbuf. destruct (inv_buffers _ Hr _ _ Hbuf) as [b Hb].
      exists b. split; [done|]. cbn zeta.
      erewrite write_open; [| by rewrite Hb0 | by rewrite Hh0].
      unfold activate, write_positioned.
      by destruct (js_gt (recordlength b) (Num 1)).
Qed.

Lemma write_dispatch_witness :
  executeCommand host_404 (str "WRITE F,R2,B3") session_open_empty =
  (Ok tt,
   with_mode MWrite
     (with_activebuffer (Some 0%nat)
        (update 0
           {| file := Some []; recordlength := Num 1;
              recordnum := Num 2; filepointer := Num 3 |}
           (setItem (str "vfs/F") []
              (traced MON_C (TtyWriteString (str "WRITE F,R2,B3" ++ [CR]))
                 session_open_empty))))).
Proof.
  assert (Hm : js_match re_WRITE (str "WRITE" ++ str " F,R2,B3")
               = Some {| cap1 := str "F"; cap2 := str ",R2,B3";
                         cap3 := [] |})
    by reflexivity.
  destruct (write_dispatch host_404 (str " F,R2,B3") session_open_empty _
              (reachable_run _ _ (reach_start ∅)) Hm) as (_ & _ & H).
  destruct (H (set_arg (str "B") (Num 3)
                 (set_arg (str "R") (Num 2) default_args))
              eq_refl eq_refl) as [_ H2].
  destruct (H2 0%nat eq_refl) as (b & Hb & Hrun).
  injection Hb as <-. exact Hrun.
Defined.

(** * OPEN followed by CLOSE *)

Lemma traced_fields flag e st :
  localStorage (traced flag e st) = localStorage st /\
  buffers (traced flag e st) = buffers st /\
  heap (traced flag e st) = heap st /\
  activebuffer (traced flag e st) = activebuffer st /\
  mode (traced flag e st) = mode st.
Proof. unfold traced. by destruct (flag_set _ _). Qed.

Lemma localStorage_closed filename buf b st :
  localStorage (closed filename buf b st) =
  <[STORAGE_PREFIX ++ filename := to_text (file b)]> (localStorage st).
Proof. unfold closed. by destruct (bool_decide _). Qed.

Lemma close_named filename :
  filename <> [] -> close filename = close_one filename.
Proof. by destruct filename. Qed.

(** OPEN then CLOSE of one name, from the state [st0] in which [open]
    starts: the store ends with the content of the new buffer. *)
Lemma open_close_run h rest1 rest2 st m1 m2 args f st1 :
  js_match re_OPEN (str "OPEN" ++ rest1) = Some m1 ->
  parseArgs (cap2 m1) (str "L") = Ok args ->
  js_match re_CLOSE (str "CLOSE" ++ rest2) = Some m2 ->
  cap1 m2 = cap1 m1 ->
  open h (cap1 m1) (arg_L args)
    (traced MON_C (TtyWriteString ((str "OPEN" ++ rest1) ++ [CR])) st)
  = (Ok tt, opened (cap1 m1) f (arg_L args) st1) ->
  exists st2,
    executeCommand h (str "OPEN" ++ rest1) st
      = (Ok tt, opened (cap1 m1) f (arg_L args) st1) /\
    executeCommand h (str "CLOSE" ++ rest2)
      (opened (cap1 m1) f (arg_L args) st1) = (Ok tt, st2) /\
    localStorage st2 =
      <[STORAGE_PREFIX ++ cap1 m1 := to_text f]> (localStorage st1).
Proof.
  intros Hm1 Hargs Hm2 Hname Hopen.
  rewrite (executeCommand_OPEN _ _ _ _ Hm1), bind_run, Hargs.
  unfold lift. rewrite Hopen.
  rewrite (executeCommand_CLOSE _ _ _ _ Hm2), Hname.
  destruct (re_file_captures _ _ _ Hm1) as [Hne _].
  set (sA := opened (cap1 m1) f (arg_L args) st1).
  set (sB := traced MON_C _ sA).
  destruct (traced_fields MON_C
              (TtyWriteString ((str "CLOSE" ++ rest2) ++ [CR])) sA)
    as (Hls & Hbs & Hhp & _ & _). fold sB in Hls, Hbs, Hhp.
  destruct (opened_lookup (cap1 m1) f (arg_L args) st1) as [Hb Hh].
  fold sA in Hb, Hh.
  exists (closed (cap1 m1) (length (heap st1))
            (fresh_buffer f (arg_L args)) sB).
  split; [done|]. split.
  - rewrite (close_named _ Hne).
    apply close_one_open; [by rewrite Hbs | by rewrite Hhp].
  - rewrite localStorage_closed, Hls. reflexivity.
Qed.

(** C6, as the claim has it, fails: with nothing stored under A and
    "DATA" served for it, OPEN A,L5 then CLOSE A leaves "DATA" stored
    under A. *)
Lemma open_close_changes_store :
  let st := start ∅ in
  let st' := run [(host_200, OpCommand (str "OPEN A,L5"));
                  (host_200, OpCommand (str "CLOSE A"))] st in
  localStorage st !! str "vfs/A" = None /\
  localStorage st' !! str "vfs/A" = Some (str "DATA").
Proof. vm_compute. by split. Qed.

(** C6, amended.  OPEN of a name immediately followed by CLOSE of the
    same name, for any record length: when the store holds the name,
    both commands return and the store is unchanged; when it does not
    and the request for the file completes with status 200 or 0, both
    return and the store has gained the fetched text (CR LF read as CR)
    under that name and nothing else. *)
Theorem open_close_store h rest1 rest2 st m1 m2 args :
  js_match re_OPEN (str "OPEN" ++ rest1) = Some m1 ->
  parseArgs (cap2 m1) (str "L") = Ok args ->
  js_match re_CLOSE (str "CLOSE" ++ rest2) = Some m2 ->
  cap1 m2 = cap1 m1 ->
  let key := STORAGE_PREFIX ++ cap1 m1 in
  let after_open := executeCommand h (str "OPEN" ++ rest1) st in
  let after_close :=
    executeCommand h (str "CLOSE" ++ rest2) (snd after_open) in
  (forall text, localStorage st !! key = Some text ->
     fst after_open = Ok tt /\ fst after_close = Ok tt /\
     localStorage (snd after_close) = localStorage st) /\
  (forall status text,
     localStorage st !! key = None ->
     xhr h (cap1 m1) = XhrDone status text ->
     (status =? 200) || (status =? 0) = true ->
     fst after_open = Ok tt /\ fst after_close = Ok tt /\
     localStorage (snd after_close) =
       <[key := crlf_to_cr text]> (localStorage st)).
Proof.
  intros Hm1 Hargs Hm2 Hname key after_open after_close.
  set (st0 := traced MON_C (TtyWriteString ((str "OPEN" ++ rest1) ++ [CR])) st).
  destruct (traced_fields MON_C
              (TtyWriteString ((str "OPEN" ++ rest1) ++ [CR])) st)
    as (Hls & _). fold st0 in Hls.
  split.
  - intros text Htext.
    destruct (open_close_run h rest1 rest2 st m1 m2 args (Some text) st0
                Hm1 Hargs Hm2 Hname) as (st2 & Ho & Hc & Hstore).
    { apply open_cached. by rewrite Hls. }
    unfold after_close, after_open. rewrite Ho. cbn [fst snd]. rewrite Hc.
    cbn [fst snd]. repeat split. rewrite Hstore, Hls. by apply insert_id.
  - intros status text Hnone Hx Hs.
    destruct (open_close_run h rest1 rest2 st m1 m2 args
                (Some (crlf_to_cr text)) (setItem key (crlf_to_cr text) st0)
                Hm1 Hargs Hm2 Hname) as (st2 & Ho & Hc & Hstore).
    { eapply open_fetched; [by rewrite Hls | exact Hx | exact Hs]. }
    unfold after_close, after_open. rewrite Ho. cbn [fst snd]. rewrite Hc.
    cbn [fst snd]. repeat split. rewrite Hstore. simpl. rewrite Hls.
    apply insert_insert_eq.
Qed.

Lemma open_close_store_witness :
  let st := start {[ str "vfs/A" := str "HELLO" ]} in
  let after_open := executeCommand host_404 (str "OPEN A,L5") st in
  let after_close := executeCommand host_404 (str "CLOSE A") (snd after_open) in
  fst after_open = Ok tt /\ fst after_close = Ok tt /\
  localStorage (snd after_close) = localStorage st.
Proof.
  assert (Hm1 : js_match re_OPEN (str "OPEN" ++ str " A,L5")
                = Some {| cap1 := str "A"; cap2 := str ",L5"; cap3 := [] |})
    by reflexivity.
  assert (Hm2 : js_match re_CLOSE (str "CLOSE" ++ str " A")
                = Some {| cap1 := str "A"; cap2 := []; cap3 := [] |})
    by reflexivity.
  destruct (open_close_store host_404 (str " A,L5") (str " A")
              (start {[ str "vfs/A" := str "HELLO" ]}) _ _
              (set_arg (str "L") (Num 5) default_args)
              Hm1 eq_refl Hm2 eq_refl) as [H _].
  exact (H (str "HELLO") eq_refl).
Defined.

(** * READ *)

(** C7, as the claim has it, fails: MISSING was never opened and the
    store holds nothing under it, yet READ MISSING returns, in read
    mode, because the request for the file is answered with "DATA". *)
Lemma read_missing_succeeds :
  let st := start ∅ in
  let after := executeCommand host_200 (str "READ MISSING") st in
  buffers st !! str "MISSING" = None /\
  localStorage st !! (STORAGE_PREFIX ++ str "MISSING") = None /\
  fst after = Ok tt /\ mode (snd after) = MRead.
Proof. vm_compute. by repeat split. Qed.

(** C7, amended.  A READ command line, in a session.  When its argument
    tail is not accepted with the letters R and B it fails with code 11.
    When the tail is accepted and the name is one that the buffer table
    does not inherit: a buffer open under the name is used as it is;
    otherwise the name is opened first (record length 1), and what that
    [open] throws is thrown on.  Then the command fails with code 6
    exactly when the buffer has no content, and otherwise sets the
    record number to R, the pointer to (record length * R) + B and the
    mode to read.  In particular READ of a name that is not open, not
    stored, and for which the request completes with a status other than
    200 and 0, fails with code 6. *)
Theorem read_dispatch h rest st m :
  reachable st ->
  js_match re_READ (str "READ" ++ rest) = Some m ->
  let command := str "READ" ++ rest in
  let st0 := traced MON_C (TtyWriteString (command ++ [CR])) st in
  let result := executeCommand h command st in
  let not_found := Throw (RuntimeError 6 (str "File not found")) in
  let sought args buf b st1 :=
    with_mode MRead (with_activebuffer (Some buf)
      (update buf
         {| file := file b;
            recordlength := recordlength b;
            recordnum := arg_R args;
            filepointer :=
              js_add (js_mul (recordlength b) (arg_R args)) (arg_B args) |}
         st1)) in
  (forall e, parseArgs (cap2 m) (str "RB") = Throw e ->
   result = (Throw (RuntimeError 11 (str "Invalid option")), st0)) /\
  (forall args, parseArgs (cap2 m) (str "RB") = Ok args ->
   ordinary (cap1 m) = true ->
   (forall buf, buffers st !! cap1 m = Some buf ->
      exists b, heap st !! buf = Some b /\
        (file b = None -> result = (not_found, st0)) /\
        (file b <> None -> result = (Ok tt, sought args buf b st0))) /\
   (buffers st !! cap1 m = None ->
      (forall e st1, open h (cap1 m) (Num 0) st0 = (Throw e, st1) ->
         result = (Throw e, st1)) /\
      (forall f st1,
         open h (cap1 m) (Num 0) st0
           = (Ok tt, opened (cap1 m) f (Num 0) st1) ->
         (f = None -> result = (not_found, opened (cap1 m) f (Num 0) st1)) /\
         (f <> None ->
          result = (Ok tt, sought args (length (heap st1))
                             (fresh_buffer f (Num 0))
                             (opened (cap1 m) f (Num 0) st1))))) /\
   (buffers st !! cap1 m = None ->
    localStorage st !! (STORAGE_PREFIX ++ cap1 m) = None ->
    forall status text,
      xhr h (cap1 m) = XhrDone status text ->
      (status =? 200) || (status =? 0) = false ->
      result = (not_found, opened (cap1 m) None (Num 0) st0))).
Proof.
  intros Hr Hm command st0 result not_found sought.
  apply reachable_Inv in Hr.
  unfold result, command. rewrite (executeCommand_READ _ _ _ _ Hm).
  fold command. fold st0. rewrite bind_run.
  destruct (traced_fields MON_C (TtyWriteString (command ++ [CR])) st)
    as (Hls & Hbs & Hhp & _). fold st0 in Hls, Hbs, Hhp.
  split.
  { intros e He. rewrite He. unfold lift.
    by rewrite (parseArgs_throws _ _ _ He). }
  intros args Hargs _. rewrite Hargs. unfold lift.
  assert (Hvia : forall f st1,
    buffers st !! cap1 m = None ->
    open h (cap1 m) (Num 0) st0 = (Ok tt, opened (cap1 m) f (Num 0) st1) ->
    read h (cap1 m) (arg_R args) (arg_B args) st0 =
    if is_null f then (not_found, opened (cap1 m) f (Num 0) st1)
    else (Ok tt, sought args (length (heap st1)) (fresh_buffer f (Num 0))
                   (opened (cap1 m) f (Num 0) st1))).
  { intros f st1 Hnone Ho.
    destruct (opened_lookup (cap1 m) f (Num 0) st1) as [_ Hh].
    erewrite read_via;
      [| apply buffer_or_open_opened; [by rewrite Hbs | exact Ho]
       | exact Hh].
    reflexivity. }
  split; [|split].
  - intros buf Hbuf. destruct (inv_buffers _ Hr _ _ Hbuf) as [b Hb].
    exists b. split; [done|].
    erewrite read_via;
      [| apply buffer_or_open_bound; by rewrite Hbs | by rewrite Hhp].
    split.
    + by intros ->.
    + intros Hf. by destruct (file b).
  - intros Hnone. split.
    + intros e st1 Ho. apply read_throws.
      apply buffer_or_open_throws; [by rewrite Hbs | done].
    + intros f st1 Ho. rewrite (Hvia f st1 Hnone Ho). split.
      * by intros ->.
      * intros Hf. by destruct f.
  - intros Hnone Hstore status text Hx Hs.
    rewrite (Hvia None st0 Hnone); [done|].
    eapply open_missing; [by rewrite Hls | exact Hx | exact Hs].
Qed.

Lemma read_dispatch_witness :
  executeCommand host_404 (str "READ MISSING") (start ∅) =
  (Throw (RuntimeError 6 (str "File not found")),
   opened (str "MISSING") None (Num 0)
     (traced MON_C (TtyWriteString (str "READ MISSING" ++ [CR])) (start ∅))).
Proof.
  assert (Hm : js_match re_READ (str "READ" ++ str " MISSING")
               = Some {| cap1 := str "MISSING"; cap2 := []; cap3 := [] |})
    by reflexivity.
  destruct (read_dispatch host_404 (str " MISSING") (start ∅) _
              (reach_start ∅) Hm) as [_ H].
  destruct (H default_args eq_refl eq_refl) as (_ & _ & H3).
  exact (H3 eq_refl eq_refl 404 [] eq_refl eq_refl).
Defined.

(** * Reading at the end of the data *)

(** C8.  In a session in read mode the active buffer has content, and
    with [fp] its pointer and [len] the length of the content:
    [readChar] and [readLine] fail with code 5 when [fp >= len] holds
    and then leave the whole state as it was; they return when it does
    not hold; and when [fp < len], [readChar] delivers the character at
    [fp] and advances the pointer by 1 (tracing the character when
    input is monitored). *)
Theorem read_end_of_data prompt st :
  reachable st -> mode st = MRead ->
  exists buf b f,
    activebuffer st = Some buf /\ heap st !! buf = Some b /\
    file b = Some f /\
    let end_of_data := RuntimeError 5 (str "End of data") in
    (js_ge (filepointer b) (Num (jslength f)) = true ->
     readChar st = (Throw end_of_data, st) /\
     readLine prompt st = (Throw end_of_data, st)) /\
    (js_ge (filepointer b) (Num (jslength f)) = false ->
     (exists c st', readChar st = (Ok c, st')) /\
     (exists l st', readLine prompt st = (Ok l, st'))) /\
    (forall p, filepointer b = Num p -> p < jslength f ->
     exists ch,
       f !! Z.to_nat p = Some ch /\
       readChar st =
       (Ok (FromFile (Some ch)),
        traced MON_I (TtyWriteChar (Some ch))
          (update buf
             {| file := file b; recordlength := recordlength b;
                recordnum := recordnum b; filepointer := Num (p + 1) |}
             st))).
Proof.
  intros Hr Hm. apply reachable_Inv in Hr.
  destruct (Inv_active_buffer st Hr) as (buf & b & f & Ha & Hb & Hf);
    [by rewrite Hm|].
  exists buf, b, f. repeat split; try done.
  - rewrite (readChar_run _ _ _ _ Hm Ha Hb Hf). by rewrite H.
  - rewrite (readLine_run _ _ _ _ _ Hm Ha Hb Hf). by rewrite H.
  - rewrite (readChar_run _ _ _ _ Hm Ha Hb Hf). rewrite H. eauto.
  - rewrite (readLine_run _ _ _ _ _ Hm Ha Hb Hf). rewrite H. eauto.
  - intros p Hp Hlt.
    destruct (Inv_heap_lookup _ _ _ Hr Hb) as (_ & _ & _ & Hfp).
    rewrite Hp in Hfp. simpl in Hfp.
    destruct (lookup_lt_is_Some_2 f (Z.to_nat p)) as [ch Hch];
      [unfold jslength in *; lia|].
    exists ch. split; [done|].
    rewrite (readChar_run _ _ _ _ Hm Ha Hb Hf), Hp.
    replace (js_ge (Num p) (Num (jslength f))) with false
      by (symmetry; simpl; lia).
    unfold js_index. replace (p <? 0) with false by (symmetry; lia).
    rewrite Hch. reflexivity.
Qed.

Lemma read_end_of_data_witness :
  exists buf b f,
    activebuffer session_read = Some buf /\
    heap session_read !! buf = Some b /\
    file b = Some f /\
    let end_of_data := RuntimeError 5 (str "End of data") in
    (js_ge (filepointer b) (Num (jslength f)) = true ->
     readChar session_read = (Throw end_of_data, session_read) /\
     readLine [] session_read = (Throw end_of_data, session_read)) /\
    (js_ge (filepointer b) (Num (jslength f)) = false ->
     (exists c st', readChar session_read = (Ok c, st')) /\
     (exists l st', readLine [] session_read = (Ok l, st'))) /\
    (forall p, filepointer b = Num p -> p < jslength f ->
     exists ch,
       f !! Z.to_nat p = Some ch /\
       readChar session_read =
       (Ok (FromFile (Some ch)),
        traced MON_I (TtyWriteChar (Some ch))
          (update buf
             {| file := file b; recordlength := recordlength b;
                recordnum := recordnum b; filepointer := Num (p + 1) |}
             session_read))).
Proof.
  apply (read_end_of_data [] session_read).
  - apply reachable_run, reach_start.
  - reflexivity.
Defined.

(** * The active buffer and the mode *)

Lemma step_command h command st :
  step h (OpCommand command) st = snd (executeCommand h command st).
Proof.
  unfold step, perform. rewrite bind_run.
  by destruct (executeCommand h command st) as [[[]|e] st'].
Qed.

Lemma step_reset h st : step h OpReset st = snd (reset st).
Proof. reflexivity. Qed.

(** C9.  In every state of a session the active-buffer reference is
    null exactly when the mode is none; in read or write mode it is the
    one reference to a live buffer object.  Every operation leaves a
    state with the same property: any command line, among them CLOSE
    and the empty command, any hooked terminal call, and reset. *)
Theorem single_active_buffer st :
  reachable st ->
  (activebuffer st = None <-> mode st = MNone) /\
  (mode st <> MNone ->
   exists buf,
     activebuffer st = Some buf /\ is_Some (heap st !! buf) /\
     forall buf', activebuffer st = Some buf' -> buf' = buf) /\
  (forall h o, coupled (step h o st)) /\
  (forall h rest,
     coupled (snd (executeCommand h (str "CLOSE" ++ rest) st))) /\
  (forall h, coupled (snd (executeCommand h [] st))) /\
  coupled (snd (reset st)).
Proof.
  intros Hr.
  assert (Hstep : forall h o, coupled (step h o st)).
  { intros h o. apply inv_coupled, reachable_Inv. by apply reach_step. }
  pose proof (reachable_Inv _ Hr) as HI.
  split; [apply (inv_coupled _ HI)|]. split; [|split; [done|]].
  - intros Hm.
    destruct (Inv_active_buffer st HI Hm) as (buf & b & f & Ha & Hb & Hf).
    exists buf. split; [done|]. split; [by eexists|].
    intros buf' Ha'. congruence.
  - split; [|split].
    + intros h rest. rewrite <- step_command. apply Hstep.
    + intros h. rewrite <- step_command. apply Hstep.
    + rewrite <- (step_reset host_404). apply Hstep.
Qed.

Lemma single_active_buffer_witness :
  (activebuffer session_read = None <-> mode session_read = MNone) /\
  (mode session_read <> MNone ->
   exists buf,
     activebuffer session_read = Some buf /\
     is_Some (heap session_read !! buf) /\
     forall buf', activebuffer session_read = Some buf' -> buf' = buf) /\
  (forall h o, coupled (step h o session_read)) /\
  (forall h rest,
     coupled (snd (executeCommand h (str "CLOSE" ++ rest) session_read))) /\
  (forall h, coupled (snd (executeCommand h [] session_read))) /\
  coupled (snd (reset session_read)).
Proof.
  apply (single_active_buffer session_read).
  apply reachable_run, reach_start.
Defined.

(** * OPEN of a name that is open *)

(** C10, as the claim has it, fails: F is open and not stored, the
    request for it throws, and OPEN F throws in turn, leaving the old
    buffer bound to F. *)
Lemma reopen_throws_keeps_buffer :
  buffers session_open_empty !! str "F" = Some 0%nat /\
  executeCommand host_down (str "OPEN F") session_open_empty =
  (Throw XhrFailure, session_open_empty).
Proof. vm_compute. by split. Qed.

(** C10, amended.  An OPEN command line whose arguments parse, for a
    name that has an open buffer [old], in a session.  When the name is
    not stored and the request for its file throws, OPEN throws the same
    and the old buffer stays.  In every other case OPEN returns with
    the name bound to a new object, whose content is what the store
    then holds under the name (nothing, when nothing is stored or
    served), whose pointer and record number are 0; the old object is
    left as it was and its content is not written to the store: the
    store is unchanged, or has gained the text fetched for the name. *)
Theorem reopen_replaces_buffer h rest st m args old :
  reachable st ->
  js_match re_OPEN (str "OPEN" ++ rest) = Some m ->
  parseArgs (cap2 m) (str "L") = Ok args ->
  buffers st !! cap1 m = Some old ->
  let command := str "OPEN" ++ rest in
  let st0 := traced MON_C (TtyWriteString (command ++ [CR])) st in
  let key := STORAGE_PREFIX ++ cap1 m in
  (localStorage st !! key = None -> xhr h (cap1 m) = XhrThrows ->
   executeCommand h command st = (Throw XhrFailure, st0)) /\
  (~ (localStorage st !! key = None /\ xhr h (cap1 m) = XhrThrows) ->
   exists st' b,
     executeCommand h command st = (Ok tt, st') /\
     let buf := length (heap st) in
     buffers st' !! cap1 m = Some buf /\ buf <> old /\
     heap st !! buf = None /\ heap st' !! buf = Some b /\
     file b = localStorage st' !! key /\
     filepointer b = Num 0 /\ recordnum b = Num 0 /\
     heap st' !! old = heap st !! old /\
     (localStorage st' = localStorage st \/
      exists status text,
        localStorage st !! key = None /\
        xhr h (cap1 m) = XhrDone status text /\
        localStorage st' = <[key := crlf_to_cr text]> (localStorage st))).
Proof.
  intros Hr Hm Hargs Hold command st0 key. apply reachable_Inv in Hr.
  unfold command. rewrite (executeCommand_OPEN _ _ _ _ Hm).
  fold command. fold st0. rewrite bind_run, Hargs. unfold lift.
  destruct (traced_fields MON_C (TtyWriteString (command ++ [CR])) st)
    as (Hls & Hbs & Hhp & _). fold st0 in Hls, Hbs, Hhp.
  destruct (inv_buffers _ Hr _ _ Hold) as [bo Hbo].
  pose proof (lookup_lt_Some _ _ _ Hbo) as Hlt.
  assert (Hfresh : forall f st1, heap st1 = heap st ->
    let st' := opened (cap1 m) f (arg_L args) st1 in
    buffers st' !! cap1 m = Some (length (heap st)) /\
    length (heap st) <> old /\
    heap st !! length (heap st) = None /\
    heap st' !! length (heap st) = Some (fresh_buffer f (arg_L args)) /\
    heap st' !! old = heap st !! old).
  { intros f st1 Hh1 st'.
    destruct (opened_lookup (cap1 m) f (arg_L args) st1) as [Hb Hh].
    rewrite Hh1 in Hb, Hh. repeat split; try done.
    - lia.
    - by apply lookup_ge_None_2.
    - simpl. rewrite Hh1. by apply lookup_app_l. }
  split.
  - intros Hnone Hx. apply open_throws; [by rewrite Hls | done].
  - intros Hnot.
    destruct (localStorage st !! key) as [text|] eqn:Hstore.
    + exists (opened (cap1 m) (Some text) (arg_L args) st0), 
        (fresh_buffer (Some text) (arg_L args)).
      split; [apply open_cached; by rewrite Hls|].
      destruct (Hfresh (Some text) st0 Hhp) as (H1 & H2 & H3 & H4 & H5).
      cbn zeta. repeat split; try done.
      * simpl. by rewrite Hls, Hstore.
      * left. simpl. by rewrite Hls.
    + destruct (xhr h (cap1 m)) as [|status text] eqn:Hx; [by destruct Hnot|].
      destruct ((status =? 200) || (status =? 0)) eqn:Hs.
      * exists (opened (cap1 m) (Some (crlf_to_cr text)) (arg_L args)
                  (setItem key (crlf_to_cr text) st0)),
          (fresh_buffer (Some (crlf_to_cr text)) (arg_L args)).
        split; [eapply open_fetched; [by rewrite Hls | done | done]|].
        destruct (Hfresh (Some (crlf_to_cr text))
                    (setItem key (crlf_to_cr text) st0) Hhp)
          as (H1 & H2 & H3 & H4 & H5).
        cbn zeta. repeat split; try done.
        -- simpl. by rewrite lookup_insert_eq.
        -- right. exists status, text. simpl. by rewrite Hls.
      * exists (opened (cap1 m) None (arg_L args) st0),
          (fresh_buffer None (arg_L args)).
        split; [eapply open_missing; [by rewrite Hls | done | done]|].
        destruct (Hfresh None st0 Hhp) as (H1 & H2 & H3 & H4 & H5).
        cbn zeta. repeat split; try done.
        -- simpl. by rewrite Hls, Hstore.
        -- left. simpl. by rewrite Hls.
Qed.

Lemma reopen_replaces_buffer_witness :
  exists st' b,
    executeCommand host_200 (str "OPEN F") session_modified = (Ok tt, st') /\
    buffers st' !! str "F" = Some 1%nat /\
    heap session_modified !! 0%nat
      = Some {| file := Some (str "XATA"); recordlength := Num 1;
                recordnum := Num 0; filepointer := Num 1 |} /\
    heap st' !! 1%nat = Some b /\
    file b = Some (str "DATA") /\
    localStorage st' !! str "vfs/F" = Some (str "DATA").
Proof.
  assert (Hm : js_match re_OPEN (str "OPEN" ++ str " F")
               = Some {| cap1 := str "F"; cap2 := []; cap3 := [] |})
    by reflexivity.
  destruct (reopen_replaces_buffer host_200 (str " F") session_modified
              _ default_args 0%nat
              (reachable_run _ _ (reach_start ∅)) Hm eq_refl eq_refl)
    as [_ H].
  destruct H as (st' & b & He & Hb & _ & _ & Hh & Hf & _ & _ & _ & Hs).
  { intros [Hn _]. vm_compute in Hn. discriminate. }
  exists st', b. split; [exact He|]. split; [exact Hb|].
  split; [reflexivity|]. split; [exact Hh|].
  assert (Hst : localStorage st' !! str "vfs/F" = Some (str "DATA")).
  { destruct Hs as [-> | (status & text & Hn & _)].
    - reflexivity.
    - vm_compute in Hn. discriminate. }
  split; [|exact Hst]. rewrite Hf. exact Hst.
Defined.

(** * Scenarios *)

(** The write and read back scenario of the specification. *)
Example scenario_hello :
  mode session_hello = MRead /\
  fst (readLine [] session_hello) = Ok (FromFile (str "HELLO")) /\
  localStorage session_hello !! str "vfs/A" = Some [].
Proof. vm_compute. by repeat split. Qed.

(** The content reaches the store when the buffer is closed. *)
Example scenario_hello_closed :
  localStorage (run (typed_command host_404 "CLOSE A") session_hello)
    !! str "vfs/A" = Some (str "HELLO").
Proof. vm_compute. reflexivity. Qed.

(** A buffer without content is flushed as the text "null": OPEN of a
    name that is neither stored nor served, then CLOSE. *)
Example null_content_is_flushed :
  localStorage
    (run [(host_404, OpCommand (str "OPEN A"));
          (host_404, OpCommand (str "CLOSE A"))] (start ∅))
    !! str "vfs/A" = Some (str "null").
Proof. vm_compute. reflexivity. Qed.

(** Decimal and valueless arguments; the last occurrence of a letter
    wins; a letter that is not allowed is an invalid option. *)
Example parseArgs_decimal :
  parseArgs (str ",R12,B 7,R3") (str "RB") =
  Ok (set_arg (str "B") (Num 7) (set_arg (str "R") (Num 3) default_args)).
Proof. vm_compute. reflexivity. Qed.

Example parseArgs_not_allowed :
  parseArgs (str ",L5") (str "RB") = Throw (RuntimeError 11 (str "Invalid option")).
Proof. vm_compute. reflexivity. Qed.

(** The file name takes everything up to the first comma. *)
Example re_OPEN_example :
  js_match re_OPEN (str "OPEN  MY FILE,L5") =
  Some {| cap1 := str "MY FILE"; cap2 := str ",L5"; cap3 := [] |}.
Proof. vm_compute. reflexivity. Qed.

(** * Further properties of the code *)

(** ** The patterns *)

Lemma matches_star_class p pos s c pos' s' c' :
  matches (Star p) pos s c pos' s' c' ->
  Forall (fun ch => p ch = true) (take (pos' - pos) s).
Proof.
  remember (Star p) as r eqn:Hr. induction 1; try discriminate.
  - rewrite Nat.sub_diag. constructor.
  - injection Hr as ->.
    pose proof (matches_consumes _ _ _ _ _ _ _ H0) as (Hle & _).
    replace (pos' - pos)%nat with (S (pos' - S pos)) by lia.
    simpl. constructor; [done | by apply IHmatches].
Qed.

Lemma matches_lit_prefix w r : forall pos s c pos' s' c',
  matches (lit w r) pos s c pos' s' c' ->
  exists s1, s = w ++ s1 /\ matches r (pos + length w) s1 c pos' s' c'.
Proof.
  induction w as [|a w IH]; intros pos s c pos' s' c' H; simpl in H.
  - exists s. split; [done|]. simpl. by rewrite Nat.add_0_r.
  - inversion H; subst.
    match goal with
    | H1 : matches (Cls _) _ _ _ _ _ _ |- _ => inversion H1; subst
    end.
    match goal with
    | H1 : is_char _ _ = true |- _ =>
        unfold is_char in H1; apply Ascii.eqb_eq in H1; subst
    end.
    match goal with
    | H1 : matches (lit _ _) _ _ _ _ _ _ |- _ =>
        apply IH in H1 as (s2 & -> & H1)
    end.
    exists s2. split; [done|]. simpl.
    by replace (pos + S (length w))%nat with (S pos + length w)%nat by lia.
Qed.

Lemma name_char_printable c :
  name_char c = true -> printable c = true /\ c <> ","%char.
Proof.
  unfold name_char, printable, in_range. intros H. split.
  - lia.
  - intros ->. vm_compute in H. discriminate.
Qed.

(** What a starred class consumes: a run of characters of the class. *)
Lemma matches_star_split p pos s c pos' s' c' :
  matches (Star p) pos s c pos' s' c' ->
  exists t, s = t ++ s' /\ Forall (fun ch => p ch = true) t /\
            pos' = (pos + length t)%nat /\ c' = c.
Proof.
  remember (Star p) as r eqn:Hr. induction 1; try discriminate.
  - exists []. simpl. by rewrite Nat.add_0_r.
  - injection Hr as ->.
    destruct (IHmatches eq_refl) as (t & -> & Ht & -> & ->).
    exists (ch :: t). simpl. repeat split; try done; try lia.
    by constructor.
Qed.

Lemma take_run (t rest : jsstring) a b :
  (b = a + length t)%nat -> take (b - a) (t ++ rest) = t.
Proof.
  intros ->. replace (a + length t - a)%nat with (length t) by lia.
  by rewrite take_app_length.
Qed.

Ltac split_stars :=
  repeat match goal with
         | H : matches (Star _) _ _ _ _ _ _ |- _ =>
             let t := fresh "t" in
             let Ht := fresh "Ht" in
             apply matches_star_split in H as (t & ? & Ht & ? & ?); subst
         end.

Ltac take_runs :=
  repeat match goal with
         | |- context [take ?n (?c :: ?t ++ ?r)] =>
             replace (take n (c :: t ++ r)) with (c :: t)
               by (symmetry; apply (take_run (c :: t) r); simpl; lia)
         end.

(** X1.  What the pattern of a file command captures: the command line
    is the keyword, a run of white space, the file name, the argument
    tail and a remainder that is ignored; the file name is not empty and
    made of printable characters other than the comma; the tail is
    absent or a comma followed by printable characters. *)
Theorem file_command_shape kw s m :
  js_match (re_file kw) s = Some m ->
  exists ws rest,
    s = str kw ++ ws ++ cap1 m ++ cap2 m ++ rest /\
    Forall (fun c => white_space c = true) ws /\
    cap1 m <> [] /\
    Forall (fun c => printable c = true /\ c <> ","%char) (cap1 m) /\
    (cap2 m = [] \/
     exists t, cap2 m = ","%char :: t /\ Forall (fun c => printable c = true) t).
Proof.
  intros H. apply js_match_sound in H as (pos' & s' & H).
  apply matches_lit_prefix in H as (s1 & -> & H).
  invert_matches; split_stars; cbn [cap1 cap2 cap3 set_cap no_captures];
    take_runs.
  - match goal with
    | H : is_char _ _ = true |- _ =>
        unfold is_char in H; apply Ascii.eqb_eq in H; subst
    end.
    exists t1, s'. repeat split; try done.
    + constructor; [by apply name_char_printable|].
      eapply Forall_impl; [exact Ht|]. apply name_char_printable.
    + right. eauto.
  - exists t0, s'. repeat split; try done.
    + constructor; [by apply name_char_printable|].
      eapply Forall_impl; [exact Ht|]. apply name_char_printable.
    + by left.
Qed.

Lemma file_command_shape_witness :
  exists ws rest,
    str "OPEN  MY FILE,L5" =
      str "OPEN" ++ ws ++ str "MY FILE" ++ str ",L5" ++ rest /\
    Forall (fun c => white_space c = true) ws /\
    str "MY FILE" <> [] /\
    Forall (fun c => printable c = true /\ c <> ","%char) (str "MY FILE") /\
    (str ",L5" = [] \/
     exists t, str ",L5" = ","%char :: t /\
               Forall (fun c => printable c = true) t).
Proof.
  apply (file_command_shape "OPEN" (str "OPEN  MY FILE,L5")
           {| cap1 := str "MY FILE"; cap2 := str ",L5"; cap3 := [] |}).
  reflexivity.
Defined.

(** ** More on parseArgs *)

Lemma get_set_arg_other l l' v a :
  l <> l' -> get_arg l (set_arg [l'] v a) = get_arg l a.
Proof.
  intros Hne. unfold set_arg.
  repeat match goal with
         | |- context [Ascii.eqb l' ?c] =>
             destruct (Ascii.eqb_spec l' c) as [->|?];
             [unfold get_arg;
              repeat match goal with
                     | |- context [Ascii.eqb l ?d] =>
                         destruct (Ascii.eqb_spec l d) as [->|?]; [done|]
                     end; done|]
         end.
  done.
Qed.

(** X2.  [parseArgs] raises nothing but code 11 (Invalid option), and a
    text that it accepts is empty or begins with an argument of the
    pattern whose letter is one of the allowed letters. *)
Theorem parseArgs_outcome s opts :
  match parseArgs s opts with
  | Ok a =>
      s = [] \/
      exists m, js_match re_ARG s = Some m /\ indexOf opts (cap1 m) <> -1
  | Throw e => e = RuntimeError 11 (str "Invalid option")
  end.
Proof.
  destruct (parseArgs s opts) as [a|e] eqn:H.
  - destruct s as [|ch s]; [by left | right].
    unfold parseArgs in H. rewrite parseArgs_loop_unfold in H by done.
    destruct (js_match re_ARG (ch :: s)) as [m|]; [|done].
    exists m. split; [done|].
    by destruct (Z.eqb_spec (indexOf opts (cap1 m)) (-1)).
  - by apply parseArgs_throws in H.
Qed.

Lemma parseArgs_loop_allowed opts l : forall fuel s args a,
  indexOf opts [l] = -1 ->
  parseArgs_loop fuel s opts args = Ok a -> get_arg l a = get_arg l args.
Proof.
  induction fuel as [|fuel IH]; intros s args a Hl H; simpl in H.
  - unfold parseArgs_exit in H.
    destruct (0 <? jslength s); [done | by injection H as <-].
  - destruct (js_match re_ARG s) as [m|] eqn:Hm.
    + destruct (Z.eqb_spec (indexOf opts (cap1 m)) (-1)) as [|Hin]; [done|].
      apply re_ARG_letter in Hm as [l' Hl'].
      rewrite (IH _ _ _ Hl H), Hl'. apply get_set_arg_other.
      intros ->. by rewrite Hl' in Hin.
    + unfold parseArgs_exit in H.
      destruct (0 <? jslength s); [done | by injection H as <-].
Qed.

(** X3.  [parseArgs] binds allowed letters only: in the record it
    returns, a letter that [opts] does not contain still has its initial
    value (0 for the numeric letters, undefined for C, I and O). *)
Theorem parseArgs_allowed_only s opts l a :
  parseArgs s opts = Ok a -> indexOf opts [l] = -1 ->
  get_arg l a = get_arg l default_args.
Proof. intros H Hl. by eapply parseArgs_loop_allowed. Qed.

Lemma parseArgs_allowed_only_witness :
  get_arg "L" (set_arg (str "B") (Num 7) (set_arg (str "R") (Num 3) default_args))
  = get_arg "L" default_args.
Proof.
  apply (parseArgs_allowed_only (str ",R12,B 7,R3") (str "RB") "L").
  - vm_compute. reflexivity.
  - reflexivity.
Defined.

(** X4.  The loop of [parseArgs] ends: a match of the argument pattern
    leaves in group 3 a text strictly shorter than the one matched, so
    it runs at most [str.length] rounds and more rounds change
    nothing. *)
Theorem parseArgs_terminates fuel s opts args :
  (length s <= fuel)%nat ->
  (forall m, js_match re_ARG s = Some m ->
     (length (cap3 m) < length s)%nat) /\
  parseArgs_loop fuel s opts args = parseArgs_loop (length s) s opts args.
Proof.
  intros H. split.
  - intros m. apply re_ARG_shrinks.
  - by apply parseArgs_loop_fuel.
Qed.

Lemma parseArgs_terminates_witness :
  (forall m, js_match re_ARG (str ",R12,B7") = Some m ->
     (length (cap3 m) < length (str ",R12,B7"))%nat) /\
  parseArgs_loop 100 (str ",R12,B7") (str "RB") default_args =
  parseArgs_loop (length (str ",R12,B7")) (str ",R12,B7") (str "RB")
    default_args.
Proof.
  apply (parseArgs_terminates 100 (str ",R12,B7") (str "RB") default_args).
  simpl. lia.
Defined.

(** ** Well-formed argument tails *)

Lemma rstar_run p t : forall s' pos c (k : cont) r,
  Forall (fun ch => p ch = true) t -> stops p s' ->
  k (pos + length t)%nat s' c = Some r ->
  rstar p pos (t ++ s') c k = Some r.
Proof.
  induction t as [|ch t IH]; intros s' pos c k r Ht Hs Hk.
  - simpl in *. rewrite Nat.add_0_r in Hk.
    destruct s' as [|ch s']; simpl in *; [done|]. by rewrite Hs.
  - apply Forall_cons in Ht as [Hch Ht]. simpl. rewrite Hch.
    erewrite IH; [done | done | done |].
    simpl in Hk. by rewrite Nat.add_succ_r in Hk.
Qed.

Lemma first_some {A : Type} (x y : option A) m :
  x = Some m ->
  match x with
  | Some r => Some r
  | None => y
  end = Some m.
Proof. by intros ->. Qed.

Lemma rstar_stop p s pos c (k : cont) :
  stops p s -> rstar p pos s c k = k pos s c.
Proof. destruct s as [|ch s]; simpl; [done|]. by intros ->. Qed.

Lemma option_letter_not_space l :
  option_letter l = true -> white_space l = false.
Proof.
  unfold option_letter. simpl. intros H.
  repeat (apply orb_true_iff in H as [H|H];
          [apply Ascii.eqb_eq in H; subst; reflexivity|]).
  done.
Qed.

Lemma digit_not_space d : digit d = true -> white_space d = false.
Proof. unfold digit, white_space, in_range. lia. Qed.

Lemma take_whole (t : jsstring) a b :
  (b = a + length t)%nat -> take (b - a) t = t.
Proof. intros ->. apply take_ge. lia. Qed.

Lemma rstar_all p t pos c (k : cont) r :
  Forall (fun ch => p ch = true) t ->
  k (pos + length t)%nat [] c = Some r ->
  rstar p pos t c k = Some r.
Proof.
  intros Ht Hk. rewrite <- (app_nil_r t). by apply rstar_run.
Qed.

Lemma re_ARG_item l ds rest :
  option_letter l = true -> Forall (fun ch => digit ch = true) ds ->
  Forall (fun ch => printable ch = true) rest ->
  (rest = [] \/ exists r, rest = ","%char :: r) ->
  js_match re_ARG ("," %char :: l :: ds ++ rest) =
  Some {| cap1 := [l]; cap2 := ds; cap3 := rest |}.
Proof.
  intros Hl Hds Hrest Hstop.
  assert (Hws : stops white_space rest).
  { destruct Hstop as [-> | [r ->]]; [done | reflexivity]. }
  assert (Hdg : stops digit rest).
  { destruct Hstop as [-> | [r ->]]; [done | reflexivity]. }
  unfold re_ARG. rewrite js_match_anchored. cbn [rmatch].
  apply first_some. change (is_char "," ",") with true. cbv iota.
  rewrite rstar_stop by (by apply option_letter_not_space).
  rewrite Hl.
  rewrite rstar_stop.
  2:{ destruct ds as [|d ds]; [exact Hws|].
      apply Forall_cons in Hds as [Hd _]. by apply digit_not_space. }
  destruct ds as [|d ds].
  - simpl app.
    assert (Hno : match rest with
                  | [] => True
                  | ch :: _ => digit ch = false /\ is_char "$" ch = false
                  end).
    { destruct Hstop as [-> | [r ->]]; [done | by split]. }
    replace (take (2 - 1) (l :: rest)) with [l] by done.
    destruct rest as [|ch rest'] eqn:Hr.
    + reflexivity.
    + destruct Hno as [-> ->]. rewrite <- Hr in *.
      rewrite rstar_stop by done.
      eapply rstar_all; [done|]. cbn [set_cap no_captures cap1 cap2 cap3].
      by rewrite (take_whole rest) by lia.
  - apply Forall_cons in Hds as [Hd Hds]. simpl app. cbv iota. rewrite Hd.
    apply first_some, first_some.
    eapply rstar_run; [done | done |].
    rewrite rstar_stop by done.
    eapply rstar_all; [done|]. cbn [set_cap no_captures cap1 cap2 cap3].
    f_equal. f_equal.
    + by rewrite (take_run (d :: ds) rest) by (simpl; lia).
    + by rewrite (take_whole rest) by lia.
Qed.

Lemma option_letter_printable l : option_letter l = true -> printable l = true.
Proof.
  unfold option_letter. simpl. intros H.
  repeat (apply orb_true_iff in H as [H|H];
          [apply Ascii.eqb_eq in H; subst; reflexivity|]).
  done.
Qed.

Lemma digit_printable d : digit d = true -> printable d = true.
Proof. unfold digit, printable, in_range. lia. Qed.

Lemma args_text_printable opts items :
  Forall (well_formed opts) items ->
  Forall (fun ch => printable ch = true) (args_text items).
Proof.
  induction 1 as [|[l ds] items (Hl & _ & Hds & _) _ IH]; simpl in *; [done|].
  constructor; [done|]. constructor; [by apply option_letter_printable|].
  apply Forall_app. split; [|done].
  eapply Forall_impl; [exact Hds|]. apply digit_printable.
Qed.

Lemma args_text_head items :
  args_text items = [] \/ exists r, args_text items = ","%char :: r.
Proof. destruct items as [|[l ds] items]; simpl; eauto. Qed.

Lemma js_Number_digits ds :
  Forall (fun ch => digit ch = true) ds ->
  js_Number ds = Num (digits_value 0 ds).
Proof.
  intros H. destruct ds as [|d ds]; [done|].
  unfold js_Number.
  replace (forallb digit (d :: ds)) with true; [done|].
  symmetry. induction H as [|x l Hx _ IH]; simpl; [done|].
  by rewrite Hx, IH.
Qed.

Lemma parseArgs_loop_items opts items : forall args,
  Forall (well_formed opts) items ->
  parseArgs_loop (length (args_text items)) (args_text items) opts args =
  Ok (foldl bind_item args items).
Proof.
  induction items as [|[l ds] items IH]; intros args Hwf; [done|].
  apply Forall_cons in Hwf as [(Hl & Hin & Hds & _) Hwf].
  simpl in Hl, Hin, Hds.
  rewrite parseArgs_loop_unfold by done.
  change (args_text ((l, ds) :: items))
    with (","%char :: l :: ds ++ args_text items).
  rewrite (re_ARG_item l ds (args_text items) Hl Hds
             (args_text_printable opts items Hwf) (args_text_head items)).
  cbn [cap1 cap2 cap3].
  destruct (Z.eqb_spec (indexOf opts [l]) (-1)) as [|_]; [done|].
  rewrite IH by done. by rewrite (js_Number_digits ds Hds).
Qed.

(** X5.  An argument tail in its plain form (for each item a comma, a
    keyword letter that is allowed, and decimal digits or nothing, of a
    value up to 2^53, which a double holds exactly) is accepted, and the
    record returned has the items bound in the order in which they
    stand: each letter to the decimal value of its digits, or to 0
    without digits. *)
Theorem parseArgs_well_formed opts items :
  Forall (well_formed opts) items ->
  parseArgs (args_text items) opts = Ok (foldl bind_item default_args items).
Proof. apply parseArgs_loop_items. Qed.

Lemma parseArgs_well_formed_witness :
  parseArgs (str ",R12,B7,C") (str "RBC") =
  Ok {| arg_V := Num 0; arg_D := Num 0; arg_S := Num 0; arg_L := Num 0;
        arg_R := Num 12; arg_B := Num 7; arg_A := Num 0;
        arg_C := Some (Num 0); arg_I := None; arg_O := None |}.
Proof.
  apply (parseArgs_well_formed (str "RBC")
           [("R"%char, str "12"); ("B"%char, str "7"); ("C"%char, [])]).
  repeat constructor; discriminate.
Defined.

Lemma get_set_arg_same l v a :
  option_letter l = true -> get_arg l (set_arg [l] v a) = Some v.
Proof.
  unfold option_letter. simpl. intros H.
  repeat (apply orb_true_iff in H as [H|H];
          [apply Ascii.eqb_eq in H; subst; reflexivity|]).
  done.
Qed.

(** X6.  The last occurrence of a letter wins: when a plain argument
    tail (values up to 2^53) ends with an item for a letter, the record
    returned has that letter bound to the value of that item, whatever
    stands before. *)
Theorem parseArgs_last_wins opts items l ds :
  Forall (well_formed opts) (items ++ [(l, ds)]) ->
  exists a,
    parseArgs (args_text (items ++ [(l, ds)])) opts = Ok a /\
    get_arg l a = Some (Num (digits_value 0 ds)).
Proof.
  intros Hwf. eexists. split; [by apply parseArgs_loop_items|].
  rewrite foldl_app. simpl. unfold bind_item at 1. simpl.
  apply get_set_arg_same.
  apply Forall_app in Hwf as [_ Hwf].
  by apply Forall_singleton in Hwf as [Hl _].
Qed.

Lemma parseArgs_last_wins_witness :
  exists a,
    parseArgs (str ",R12,B7,R3") (str "RB") = Ok a /\
    get_arg "R" a = Some (Num 3).
Proof.
  apply (parseArgs_last_wins (str "RB")
           [("R"%char, str "12"); ("B"%char, str "7")] "R" (str "3")).
  repeat constructor; discriminate.
Defined.

(** ** What the operations keep and what they raise *)

Lemma keeps_bind {A B : Type} I P (m : M A) (f : A -> M B) :
  keeps I P m -> (forall a, keeps I P (f a)) -> keeps I P (m ≫= f).
Proof.
  intros Hm Hf st HI. rewrite bind_run.
  destruct (Hm st HI) as [HI1 He1].
  destruct (m st) as [[a|e] st1]; simpl in *.
  - by apply Hf.
  - split; [done|]. intros e' [= <-]. by apply He1.
Qed.

Lemma keeps_ret {A : Type} I P (a : A) : keeps I P (mret a).
Proof. intros st HI. by split. Qed.

Lemma keeps_gets {A : Type} I P (f : dos -> A) : keeps I P (gets f).
Proof. intros st HI. by split. Qed.

Lemma keeps_throw {A : Type} I P e : P e -> keeps I P (@throw A e).
Proof. intros He st HI. split; [done|]. by intros e' [= <-]. Qed.

Lemma keeps_modify I P (f : dos -> dos) :
  (forall st, I st -> I (f st)) -> keeps I P (modify f).
Proof. intros Hf st HI. split; [by apply Hf | done]. Qed.

Lemma keeps_when I P b (m : M unit) : keeps I P m -> keeps I P (when b m).
Proof. intros Hm. destruct b; [done | apply keeps_ret]. Qed.

Lemma keeps_parseArgs I P s opts :
  P (RuntimeError 11 (str "Invalid option")) ->
  keeps I P (lift (parseArgs s opts)).
Proof.
  intros HP st HI. split; [done|]. unfold lift. simpl.
  intros e He. by apply parseArgs_throws in He as ->.
Qed.

Lemma keeps_field {A : Type} I P buf (proj : buffer -> A) :
  P BadReference -> keeps I P (field buf proj).
Proof.
  intros HP st HI. unfold field. destruct (heap st !! buf); split; try done.
  by intros e [= <-].
Qed.

Lemma keeps_assign I P buf f :
  P BadReference -> (forall b st, I st -> I (update buf b st)) ->
  keeps I P (assign buf f).
Proof.
  intros HP Hu st HI. unfold assign.
  destruct (heap st !! buf); split; simpl; try done.
  - by apply Hu.
  - by intros e [= <-].
Qed.

Lemma keeps_new_object I P b :
  (forall st, I st -> I (allocate b st)) -> keeps I P (new_object b).
Proof. intros Ha st HI. split; [by apply Ha | done]. Qed.

Lemma keeps_for_each {A : Type} I P (l : list A) (body : A -> M unit) :
  (forall x, keeps I P (body x)) -> keeps I P (for_each l body).
Proof.
  intros Hb. induction l as [|x l IH]; simpl; [apply keeps_ret|].
  apply keeps_bind; [apply Hb | by intros _].
Qed.

Section Keeps.

(** A property that depends on the monitoring flags alone and is kept
    when one of the three flags is set or cleared. *)
Variable I : dos -> Prop.
Variable P : exn -> Prop.
Hypothesis I_frame : forall st st', monico st' = monico st -> I st -> I st'.
Hypothesis I_set : forall st flag,
  flag = MON_I \/ flag = MON_C \/ flag = MON_O ->
  I st -> I (with_monico (Z.lor (monico st) flag) st).
Hypothesis I_clear : forall st flag,
  flag = MON_I \/ flag = MON_C \/ flag = MON_O ->
  I st -> I (with_monico (Z.land (monico st) (Z.lnot flag)) st).
Hypothesis P_bad : P BadReference.
Hypothesis P_null : P TypeError.

Ltac framed :=
  intros; eapply I_frame; [|eassumption]; reflexivity.

Hypothesis P_range : P (RuntimeError 2 (str "Range error")).
Hypothesis P_end : P (RuntimeError 5 (str "End of data")).
Hypothesis P_missing : P (RuntimeError 6 (str "File not found")).
Hypothesis P_option : P (RuntimeError 11 (str "Invalid option")).
Hypothesis P_xhr : P XhrFailure.

Ltac keeps_step :=
  first
    [ apply keeps_bind; [|intros ?]
    | apply keeps_ret
    | apply keeps_gets
    | apply keeps_when
    | apply keeps_modify; framed
    | apply keeps_modify; intros; apply I_set; [auto | assumption]
    | apply keeps_modify; intros; apply I_clear; [auto | assumption]
    | apply keeps_field; assumption
    | apply keeps_assign; [assumption | framed]
    | apply keeps_new_object; framed
    | apply keeps_throw; assumption
    | apply keeps_parseArgs; assumption
    | match goal with
      | |- keeps _ _ (match ?x with _ => _ end) => destruct x
      end ].

Ltac keeps_all :=
  unfold tty, doserror, vfs_get, vfs_set, vfs_remove, nonnull, object;
  cbv zeta; repeat keeps_step.

Lemma open_keeps h filename reclength :
  keeps I P (open h filename reclength).
Proof. unfold open. keeps_all. Qed.

Lemma unlink_keeps filename : keeps I P (unlink filename).
Proof. unfold unlink. keeps_all. Qed.

Lemma rename_keeps oldname newname : keeps I P (rename oldname newname).
Proof. unfold rename. keeps_all. Qed.

Lemma append_keeps h filename reclength :
  keeps I P (append h filename reclength).
Proof.
  unfold append. apply keeps_bind; [apply open_keeps | intros _].
  keeps_all.
Qed.

Lemma close_one_keeps filename : keeps I P (close_one filename).
Proof. unfold close_one. keeps_all. Qed.

Lemma close_keeps filename : keeps I P (close filename).
Proof.
  unfold close. destruct filename; [|apply close_one_keeps].
  apply keeps_bind; [apply keeps_gets | intros names].
  apply keeps_for_each, close_one_keeps.
Qed.

Lemma buffer_or_open_keeps h filename :
  keeps I P (buffer_or_open h filename).
Proof.
  unfold buffer_or_open.
  apply keeps_bind; [apply keeps_gets | intros buf].
  apply keeps_bind; [|intros ?; keeps_all].
  destruct buf; [apply keeps_ret|].
  apply keeps_bind; [apply open_keeps | intros _; apply keeps_gets].
Qed.

Lemma read_keeps h filename recnum bytenum :
  keeps I P (read h filename recnum bytenum).
Proof.
  unfold read. apply keeps_bind; [apply buffer_or_open_keeps | intros buf].
  keeps_all.
Qed.

Lemma write_keeps filename recnum bytenum :
  keeps I P (write filename recnum bytenum).
Proof. unfold write. keeps_all. Qed.

Lemma position_keeps h filename records :
  keeps I P (position h filename records).
Proof.
  unfold position.
  apply keeps_bind; [apply buffer_or_open_keeps | intros buf].
  keeps_all.
Qed.

Lemma executeCommand_keeps h command :
  keeps I P (executeCommand h command).
Proof.
  unfold executeCommand.
  apply keeps_bind; [apply keeps_gets | intros mon].
  apply keeps_bind; [keeps_all | intros _].
  destruct (js_match re_MON command); [keeps_all|].
  destruct (js_match re_NOMON command); [keeps_all|].
  destruct (js_match re_OPEN command).
  { apply keeps_bind; [keeps_all | intros a]. apply open_keeps. }
  destruct (js_match re_APPEND command).
  { apply keeps_bind; [keeps_all | intros a]. apply append_keeps. }
  destruct (js_match re_CLOSE command); [apply close_keeps|].
  destruct (js_match re_POSITION command).
  { apply keeps_bind; [keeps_all | intros a]. apply position_keeps. }
  destruct (js_match re_READ command).
  { apply keeps_bind; [keeps_all | intros a]. apply read_keeps. }
  destruct (js_match re_WRITE command).
  { apply keeps_bind; [keeps_all | intros a]. apply write_keeps. }
  destruct (js_match re_DELETE command).
  { apply keeps_bind; [keeps_all | intros a]. apply unlink_keeps. }
  destruct (js_match re_RENAME command).
  { apply keeps_bind; [keeps_all | intros a]. apply rename_keeps. }
  destruct (js_match re_PR command); [keeps_all|].
  destruct (js_match re_EMPTY command); keeps_all.
Qed.

Lemma readLine_keeps prompt : keeps I P (readLine prompt).
Proof. unfold readLine. keeps_all. Qed.

Lemma readChar_keeps : keeps I P readChar.
Proof. unfold readChar. keeps_all. Qed.

Lemma extend_file_keeps buf : forall fuel, keeps I P (extend_file fuel buf).
Proof.
  induction fuel as [|fuel IH]; simpl; [apply keeps_ret|].
  keeps_all. apply IH.
Qed.

Lemma write_to_file_keeps c : keeps I P (write_to_file c).
Proof.
  unfold write_to_file.
  do 5 (apply keeps_bind; [keeps_all | intros ?]).
  apply keeps_bind; [apply extend_file_keeps | intros _].
  keeps_all.
Qed.

Lemma writeChar_keeps h c : keeps I P (writeChar h c).
Proof.
  unfold writeChar. apply keeps_bind; [apply keeps_gets | intros cm].
  destruct cm.
  - destruct (Ascii.eqb c CR); [|keeps_all].
    apply keeps_bind; [keeps_all | intros _].
    apply keeps_bind; [keeps_all | intros command].
    apply keeps_bind; [apply executeCommand_keeps | intros _]. keeps_all.
  - destruct (Ascii.eqb c EOT); [keeps_all|].
    apply keeps_bind; [keeps_all | intros m].
    destruct m; [keeps_all | keeps_all | apply write_to_file_keeps].
Qed.

Lemma perform_keeps h o : keeps I P (perform h o).
Proof.
  destruct o as [|command|c| |prompt]; simpl;
    (apply keeps_bind; [|intros ?; apply keeps_ret]).
  - unfold reset. keeps_all.
  - apply executeCommand_keeps.
  - apply writeChar_keeps.
  - apply readChar_keeps.
  - apply readLine_keeps.
Qed.

End Keeps.

(** *** The monitoring flags *)

Lemma flags_cases z :
  0 <= z < 8 ->
  z = 0 \/ z = 1 \/ z = 2 \/ z = 3 \/ z = 4 \/ z = 5 \/ z = 6 \/ z = 7.
Proof. lia. Qed.

Ltac flag_cases z H :=
  destruct (flags_cases z H) as [->|[->|[->|[->|[->|[->|[->| ->]]]]]]].

Lemma flags_ok_set st flag :
  flag = MON_I \/ flag = MON_C \/ flag = MON_O ->
  flags_ok st -> flags_ok (with_monico (Z.lor (monico st) flag) st).
Proof.
  unfold flags_ok. simpl. intros Hf H.
  flag_cases (monico st) H; destruct Hf as [->|[->| ->]]; vm_compute;
    by split.
Qed.

Lemma flags_ok_clear st flag :
  flag = MON_I \/ flag = MON_C \/ flag = MON_O ->
  flags_ok st ->
  flags_ok (with_monico (Z.land (monico st) (Z.lnot flag)) st).
Proof.
  unfold flags_ok. simpl. intros Hf H.
  flag_cases (monico st) H; destruct Hf as [->|[->| ->]]; vm_compute;
    by split.
Qed.

Lemma flags_ok_frame st st' :
  monico st' = monico st -> flags_ok st -> flags_ok st'.
Proof. unfold flags_ok. by intros ->. Qed.

Lemma reachable_flags st : reachable st -> flags_ok st.
Proof.
  induction 1 as [store | h o st _ IH].
  - unfold flags_ok. simpl. lia.
  - apply (perform_keeps flags_ok (fun _ => True) flags_ok_frame
             flags_ok_set flags_ok_clear I I I I I I I h o st IH).
Qed.

(** X7.  In every state of a session the monitoring mask holds the three
    flags I, C and O and nothing else: its value is between 0 and 7. *)
Theorem monico_range st : reachable st -> 0 <= monico st < 8.
Proof. apply reachable_flags. Qed.

Lemma monico_range_witness : 0 <= monico session_hello < 8.
Proof. apply (monico_range session_hello), reachable_run, reach_start. Defined.

(** *** What a command raises *)

Lemma executeCommand_raises h command st e st' :
  executeCommand h command st = (Throw e, st') ->
  command_error e \/ e = BadReference.
Proof.
  intros H.
  assert (Hk : keeps (fun _ => True)
                 (fun e => command_error e \/ e = BadReference)
                 (executeCommand h command)).
  { apply executeCommand_keeps; unfold command_error; tauto. }
  destruct (Hk st Logic.I) as [_ He]. apply He. by rewrite H.
Qed.

(** X8.  In a session a command line, whatever it is, either returns or
    fails with code 2 (Range error), 6 (File not found) or 11 (Invalid
    option), with the exception of a property read on a missing content,
    or with what the request of [open] threw; the other codes of the
    table are never raised by the dispatcher. *)
Theorem command_errors h command st e st' :
  reachable st ->
  executeCommand h command st = (Throw e, st') -> command_error e.
Proof.
  intros Hr H.
  destruct (executeCommand_raises _ _ _ _ _ H) as [He | ->]; [done|].
  destruct (executeCommand_safe h command st (reachable_Inv _ Hr)) as [_ Hne].
  rewrite H in Hne. by destruct Hne.
Qed.

Lemma command_errors_witness :
  command_error (RuntimeError 6 (str "File not found")).
Proof.
  apply (command_errors host_404 (str "WRITE F") (start ∅) _ (start ∅)).
  - apply reach_start.
  - reflexivity.
Defined.

(** ** The dispatcher on the other commands *)

Lemma executeCommand_MON h rest st m :
  js_match re_MON (str "MON" ++ rest) = Some m ->
  executeCommand h (str "MON" ++ rest) st =
  (args ← lift (parseArgs (cap1 m) (str "ICO"));
   when (is_some (arg_I args))
     (modify (fun st => with_monico (Z.lor (monico st) MON_I) st));;
   when (is_some (arg_C args))
     (modify (fun st => with_monico (Z.lor (monico st) MON_C) st));;
   when (is_some (arg_O args))
     (modify (fun st => with_monico (Z.lor (monico st) MON_O) st)))
    (traced MON_C (TtyWriteString ((str "MON" ++ rest) ++ [CR])) st).
Proof. intros Hm. enter_dispatch. by rewrite Hm. Qed.

Lemma executeCommand_NOMON h rest st m :
  js_match re_NOMON (str "NOMON" ++ rest) = Some m ->
  executeCommand h (str "NOMON" ++ rest) st =
  (args ← lift (parseArgs (cap1 m) (str "ICO"));
   when (is_some (arg_I args))
     (modify (fun st => with_monico (Z.land (monico st) (Z.lnot MON_I)) st));;
   when (is_some (arg_C args))
     (modify (fun st => with_monico (Z.land (monico st) (Z.lnot MON_C)) st));;
   when (is_some (arg_O args))
     (modify (fun st => with_monico (Z.land (monico st) (Z.lnot MON_O)) st)))
    (traced MON_C (TtyWriteString ((str "NOMON" ++ rest) ++ [CR])) st).
Proof.
  intros Hm. enter_dispatch.
  skip_pattern re_MON (str "NOMON" ++ rest).
  by rewrite Hm.
Qed.

Lemma executeCommand_POSITION h rest st m :
  js_match re_POSITION (str "POSITION" ++ rest) = Some m ->
  executeCommand h (str "POSITION" ++ rest) st =
  (args ← lift (parseArgs (cap2 m) (str "R"));
   position h (cap1 m) (arg_R args))
    (traced MON_C (TtyWriteString ((str "POSITION" ++ rest) ++ [CR])) st).
Proof.
  intros Hm. enter_dispatch.
  skip_pattern re_MON (str "POSITION" ++ rest).
  skip_pattern re_NOMON (str "POSITION" ++ rest).
  skip_pattern re_OPEN (str "POSITION" ++ rest).
  skip_pattern re_APPEND (str "POSITION" ++ rest).
  skip_pattern re_CLOSE (str "POSITION" ++ rest).
  by rewrite Hm.
Qed.

Lemma executeCommand_DELETE h rest st m :
  js_match re_DELETE (str "DELETE" ++ rest) = Some m ->
  executeCommand h (str "DELETE" ++ rest) st =
  (args ← lift (parseArgs (cap2 m) []);
   unlink (cap1 m))
    (traced MON_C (TtyWriteString ((str "DELETE" ++ rest) ++ [CR])) st).
Proof.
  intros Hm. enter_dispatch.
  skip_pattern re_MON (str "DELETE" ++ rest).
  skip_pattern re_NOMON (str "DELETE" ++ rest).
  skip_pattern re_OPEN (str "DELETE" ++ rest).
  skip_pattern re_APPEND (str "DELETE" ++ rest).
  skip_pattern re_CLOSE (str "DELETE" ++ rest).
  skip_pattern re_POSITION (str "DELETE" ++ rest).
  skip_pattern re_READ (str "DELETE" ++ rest).
  skip_pattern re_WRITE (str "DELETE" ++ rest).
  by rewrite Hm.
Qed.

Lemma executeCommand_RENAME h rest st m :
  js_match re_RENAME (str "RENAME" ++ rest) = Some m ->
  executeCommand h (str "RENAME" ++ rest) st =
  (args ← lift (parseArgs (cap3 m) []);
   rename (cap1 m) (cap2 m))
    (traced MON_C (TtyWriteString ((str "RENAME" ++ rest) ++ [CR])) st).
Proof.
  intros Hm. enter_dispatch.
  skip_pattern re_MON (str "RENAME" ++ rest).
  skip_pattern re_NOMON (str "RENAME" ++ rest).
  skip_pattern re_OPEN (str "RENAME" ++ rest).
  skip_pattern re_APPEND (str "RENAME" ++ rest).
  skip_pattern re_CLOSE (str "RENAME" ++ rest).
  skip_pattern re_POSITION (str "RENAME" ++ rest).
  skip_pattern re_READ (str "RENAME" ++ rest).
  skip_pattern re_WRITE (str "RENAME" ++ rest).
  skip_pattern re_DELETE (str "RENAME" ++ rest).
  by rewrite Hm.
Qed.

Lemma executeCommand_PR h rest st m :
  js_match re_PR (str "PR#" ++ rest) = Some m ->
  executeCommand h (str "PR#" ++ rest) st =
  (args ← lift (parseArgs (cap2 m) []);
   if js_eq (slot_number h (cap1 m)) (Num 0) then
     when (has_setFirmwareActive h) (tty (TtyFirmware false))
   else if js_eq (slot_number h (cap1 m)) (Num 3) then
     when (has_setFirmwareActive h) (tty (TtyFirmware true))
   else doserror RANGE_ERROR)
    (traced MON_C (TtyWriteString ((str "PR#" ++ rest) ++ [CR])) st).
Proof.
  intros Hm. enter_dispatch.
  skip_pattern re_MON (str "PR#" ++ rest).
  skip_pattern re_NOMON (str "PR#" ++ rest).
  skip_pattern re_OPEN (str "PR#" ++ rest).
  skip_pattern re_APPEND (str "PR#" ++ rest).
  skip_pattern re_CLOSE (str "PR#" ++ rest).
  skip_pattern re_POSITION (str "PR#" ++ rest).
  skip_pattern re_READ (str "PR#" ++ rest).
  skip_pattern re_WRITE (str "PR#" ++ rest).
  skip_pattern re_DELETE (str "PR#" ++ rest).
  skip_pattern re_RENAME (str "PR#" ++ rest).
  by rewrite Hm.
Qed.

Lemma executeCommand_EMPTY h st :
  executeCommand h [] st =
  (Ok tt, deactivate (traced MON_C (TtyWriteString [CR]) st)).
Proof. enter_dispatch. reflexivity. Qed.

(** A pattern that starts with a literal character does not match a
    text that starts with another one. *)
Lemma js_match_other_head a w r c s :
  c <> a -> js_match (Cat Bol (lit (a :: w) r)) (c :: s) = None.
Proof.
  intros Hne. rewrite js_match_anchored. simpl.
  unfold is_char. destruct (Ascii.eqb_spec a c) as [->|_]; done.
Qed.

Lemma js_match_EMPTY_cons c s : js_match re_EMPTY (c :: s) = None.
Proof. unfold re_EMPTY. by rewrite js_match_anchored. Qed.

Ltac other_head r a Hc :=
  replace (js_match r _) with (@None captures)
    by (symmetry; unfold r, re_file; apply (js_match_other_head a);
        intros ->; vm_compute in Hc; discriminate).

(** X9.  A command line whose first character starts none of the
    keywords MON, NOMON, OPEN, APPEND, CLOSE, POSITION, READ, WRITE,
    DELETE, RENAME and PR# (a keyword in lower case, for one) fails with
    code 11 (Invalid option), and nothing changes but the trace of the
    command when commands are monitored. *)
Theorem unknown_command h c s st :
  keyword_initial c = false ->
  executeCommand h (c :: s) st =
  (Throw (RuntimeError 11 (str "Invalid option")),
   traced MON_C (TtyWriteString ((c :: s) ++ [CR])) st).
Proof.
  intros Hc. enter_dispatch.
  other_head re_MON "M"%char Hc. other_head re_NOMON "N"%char Hc.
  other_head re_OPEN "O"%char Hc. other_head re_APPEND "A"%char Hc.
  other_head re_CLOSE "C"%char Hc. other_head re_POSITION "P"%char Hc.
  other_head re_READ "R"%char Hc. other_head re_WRITE "W"%char Hc.
  other_head re_DELETE "D"%char Hc. other_head re_RENAME "R"%char Hc.
  other_head re_PR "P"%char Hc.
  by rewrite js_match_EMPTY_cons.
Qed.

Lemma unknown_command_witness :
  executeCommand host_404 (str "open F") (start ∅) =
  (Throw (RuntimeError 11 (str "Invalid option")),
   traced MON_C (TtyWriteString (str "open F" ++ [CR])) (start ∅)).
Proof.
  apply (unknown_command host_404 "o" (str "pen F") (start ∅)).
  reflexivity.
Defined.

Lemma writeChar_terminal h c st :
  commandMode st = false -> c <> EOT -> mode st <> MWrite ->
  writeChar h c st = (Ok tt, echo (TtyWriteChar (Some c)) st).
Proof.
  intros Hcm Hc Hm. unfold writeChar. rewrite bind_run. unfold gets at 1.
  rewrite Hcm. apply Ascii.eqb_neq in Hc. rewrite Hc.
  rewrite bind_run. unfold gets at 1.
  destruct (mode st); [done | done | by destruct Hm].
Qed.

(** X10.  The empty command ends a read or write run and nothing else:
    it returns, leaves no active buffer and mode none, and keeps the
    open buffers with their content and positions, and the store; a
    second empty command changes nothing more.  After it a character
    read comes from the terminal, and a character written outside
    command mode (other than the escape 0x04) goes to the terminal and
    to no file. *)
Theorem empty_command h st :
  exists st1,
    executeCommand h [] st = (Ok tt, st1) /\
    activebuffer st1 = None /\ mode st1 = MNone /\
    buffers st1 = buffers st /\ heap st1 = heap st /\
    localStorage st1 = localStorage st /\
    silent (snd (executeCommand h [] st1)) = silent st1 /\
    readChar st1 = (Ok FromTerminal, echo TtyReadChar st1) /\
    (forall c, commandMode st = false -> c <> EOT ->
       writeChar h c st1 = (Ok tt, echo (TtyWriteChar (Some c)) st1)).
Proof.
  eexists. split; [apply executeCommand_EMPTY|].
  rewrite executeCommand_EMPTY.
  split; [done|]. split; [done|].
  split; [cbn; apply traced_fields|]. split; [cbn; apply traced_fields|].
  split; [cbn; apply traced_fields|].
  split.
  { cbn [snd]. unfold traced.
    destruct (flag_set (monico st) MON_C) eqn:E; cbn; rewrite ?E; done. }
  split; [by apply readChar_terminal|].
  intros c Hcm Hc. apply writeChar_terminal; [|done|done].
  cbn. unfold traced. by destruct (flag_set _ _).
Qed.

(** ** POSITION *)

Lemma js_add_assoc a b c : js_add (js_add a b) c = js_add a (js_add b c).
Proof. destruct a, b, c; simpl; f_equal; lia. Qed.

Lemma advanced_advanced b r1 r2 :
  advanced (advanced b r1) r2 = advanced b (js_add r1 r2).
Proof.
  unfold advanced. simpl. f_equal; [apply js_add_assoc|].
  rewrite js_add_assoc. f_equal.
  destruct (recordlength b), r1, r2; simpl; f_equal; lia.
Qed.

Lemma position_twice h filename r1 r2 st buf :
  buffers st !! filename = Some buf -> is_Some (heap st !! buf) ->
  (position h filename r1;; position h filename r2) st =
  position h filename (js_add r1 r2) st.
Proof.
  intros Hbuf [b Hb]. rewrite bind_run.
  rewrite (position_via h filename r1 st buf st b
             (buffer_or_open_bound _ _ _ _ Hbuf) Hb).
  rewrite (position_via h filename (js_add r1 r2) st buf st b
             (buffer_or_open_bound _ _ _ _ Hbuf) Hb).
  rewrite (position_via h filename r2 (update buf (advanced b r1) st) buf
             (update buf (advanced b r1) st) (advanced b r1)).
  - by rewrite update_update, advanced_advanced.
  - by apply buffer_or_open_bound.
  - by eapply heap_update_same.
Qed.

(** X11.  Positions add up: for an open buffer whose record length [L]
    (at most 2^53), record number [n] and pointer [p] are natural
    numbers, advancing by [r1] records and then by [r2] records leaves
    the state that advancing by [r1 + r2] records leaves, as long as the
    record number [n + r1 + r2] and the pointer [p + L * (r1 + r2)]
    reached do not exceed 2^53 (every sum and product on the way is then
    exact). *)
Theorem position_additive h filename r1 r2 st buf b L n p :
  buffers st !! filename = Some buf -> heap st !! buf = Some b ->
  recordlength b = Num L -> recordnum b = Num n -> filepointer b = Num p ->
  0 <= L <= exact_bound -> 0 <= n -> 0 <= p -> 0 <= r1 -> 0 <= r2 ->
  n + (r1 + r2) <= exact_bound -> p + L * (r1 + r2) <= exact_bound ->
  (position h filename (Num r1);; position h filename (Num r2)) st =
  position h filename (Num (r1 + r2)) st.
Proof.
  intros Hbuf Hb _ _ _ _ _ _ _ _ _ _.
  by apply (position_twice h filename (Num r1) (Num r2) st buf).
Qed.

Lemma position_additive_witness :
  (position host_200 (str "F") (Num 2);; position host_200 (str "F") (Num 3))
    session_read =
  position host_200 (str "F") (Num 5) session_read.
Proof.
  apply (position_additive host_200 (str "F") 2 3 session_read 0%nat
           {| file := Some (str "DATA"); recordlength := Num 1;
              recordnum := Num 0; filepointer := Num 2 |} 1 0 2);
    try reflexivity; try (unfold exact_bound; lia).
Defined.

(** ** DELETE and RENAME *)

Lemma unlink_run filename st :
  unlink filename st =
  match localStorage st !! (STORAGE_PREFIX ++ filename) with
  | None => (Throw (doserror_exn FILE_NOT_FOUND), st)
  | Some _ => (Ok tt, removeItem (STORAGE_PREFIX ++ filename) st)
  end.
Proof. unfold unlink. mrun. by destruct (localStorage st !! _). Qed.

Lemma rename_run oldname newname st :
  rename oldname newname st =
  match localStorage st !! (STORAGE_PREFIX ++ oldname) with
  | None => (Throw (doserror_exn FILE_NOT_FOUND), st)
  | Some text =>
      (Ok tt, setItem (STORAGE_PREFIX ++ newname) text
                (removeItem (STORAGE_PREFIX ++ oldname) st))
  end.
Proof. unfold rename. mrun. by destruct (localStorage st !! _). Qed.

(** X12.  A DELETE command line: with an argument tail it fails with
    code 11; without one it fails with code 6 when the store does not
    hold the name, and otherwise removes the name from the store.  The
    store keeps every other name, and the buffers, an open buffer of the
    deleted name among them, are left as they are. *)
Theorem delete_dispatch h rest st m :
  js_match re_DELETE (str "DELETE" ++ rest) = Some m ->
  let command := str "DELETE" ++ rest in
  let st0 := traced MON_C (TtyWriteString (command ++ [CR])) st in
  let key := STORAGE_PREFIX ++ cap1 m in
  (cap2 m <> [] ->
   executeCommand h command st =
   (Throw (RuntimeError 11 (str "Invalid option")), st0)) /\
  (cap2 m = [] -> localStorage st !! key = None ->
   executeCommand h command st =
   (Throw (RuntimeError 6 (str "File not found")), st0)) /\
  (cap2 m = [] -> is_Some (localStorage st !! key) ->
   exists st',
     executeCommand h command st = (Ok tt, st') /\
     localStorage st' = delete key (localStorage st) /\
     buffers st' = buffers st /\ heap st' = heap st /\
     activebuffer st' = activebuffer st /\ mode st' = mode st).
Proof.
  intros Hm command st0 key.
  unfold command. rewrite (executeCommand_DELETE _ _ _ _ Hm).
  fold command. fold st0. rewrite bind_run, parseArgs_no_letters.
  destruct (traced_fields MON_C (TtyWriteString (command ++ [CR])) st)
    as (Hls & Hbs & Hhp & Hab & Hmd). fold st0 in Hls, Hbs, Hhp, Hab, Hmd.
  split; [|split].
  - intros Ht. by destruct (cap2 m).
  - intros -> Hnone. unfold lift. rewrite unlink_run. fold key.
    by rewrite Hls, Hnone.
  - intros -> [text Htext]. unfold lift. rewrite unlink_run. fold key.
    rewrite Hls, Htext. eexists. split; [done|]. simpl.
    by rewrite Hls.
Qed.

Lemma delete_dispatch_witness :
  exists st',
    executeCommand host_404 (str "DELETE A")
      (start {[ str "vfs/A" := str "HELLO"; str "vfs/B" := str "X" ]})
    = (Ok tt, st') /\
    localStorage st' !! str "vfs/A" = None /\
    localStorage st' !! str "vfs/B" = Some (str "X").
Proof.
  assert (Hm : js_match re_DELETE (str "DELETE" ++ str " A")
               = Some {| cap1 := str "A"; cap2 := []; cap3 := [] |})
    by reflexivity.
  destruct (delete_dispatch host_404 (str " A")
              (start {[ str "vfs/A" := str "HELLO"; str "vfs/B" := str "X" ]})
              _ Hm) as (_ & _ & H).
  destruct (H eq_refl) as (st' & He & Hs & _); [by eexists|].
  exists st'. split; [exact He|]. rewrite Hs. split; reflexivity.
Defined.

(** X13.  A RENAME command line: with an argument tail it fails with
    code 11; without one it fails with code 6 when the store does not
    hold the first name, and otherwise moves the text to the second
    name: the second name then holds the text (whatever it held before),
    the first name holds nothing unless the two names are the same, and
    every other name of the store and the buffers are as before. *)
Theorem rename_dispatch h rest st m :
  js_match re_RENAME (str "RENAME" ++ rest) = Some m ->
  let command := str "RENAME" ++ rest in
  let st0 := traced MON_C (TtyWriteString (command ++ [CR])) st in
  let key1 := STORAGE_PREFIX ++ cap1 m in
  let key2 := STORAGE_PREFIX ++ cap2 m in
  (cap3 m <> [] ->
   executeCommand h command st =
   (Throw (RuntimeError 11 (str "Invalid option")), st0)) /\
  (cap3 m = [] -> localStorage st !! key1 = None ->
   executeCommand h command st =
   (Throw (RuntimeError 6 (str "File not found")), st0)) /\
  (cap3 m = [] -> forall text, localStorage st !! key1 = Some text ->
   exists st',
     executeCommand h command st = (Ok tt, st') /\
     localStorage st' !! key2 = Some text /\
     (cap1 m <> cap2 m -> localStorage st' !! key1 = None) /\
     (forall k, k <> key1 -> k <> key2 ->
        localStorage st' !! k = localStorage st !! k) /\
     buffers st' = buffers st /\ heap st' = heap st /\
     activebuffer st' = activebuffer st /\ mode st' = mode st).
Proof.
  intros Hm command st0 key1 key2.
  unfold command. rewrite (executeCommand_RENAME _ _ _ _ Hm).
  fold command. fold st0. rewrite bind_run, parseArgs_no_letters.
  destruct (traced_fields MON_C (TtyWriteString (command ++ [CR])) st)
    as (Hls & Hbs & Hhp & Hab & Hmd). fold st0 in Hls, Hbs, Hhp, Hab, Hmd.
  split; [|split].
  - intros Ht. by destruct (cap3 m).
  - intros -> Hnone. unfold lift. rewrite rename_run. fold key1.
    by rewrite Hls, Hnone.
  - intros -> text Htext. unfold lift. rewrite rename_run. fold key1 key2.
    rewrite Hls, Htext. eexists. split; [done|]. simpl. rewrite Hls.
    repeat split; try done.
    + apply lookup_insert_eq.
    + intros Hne. rewrite lookup_insert_ne, lookup_delete_eq; [done|].
      unfold key1, key2. intros H. by apply app_inv_head in H.
    + intros k Hk1 Hk2. by rewrite lookup_insert_ne, lookup_delete_ne.
Qed.

Lemma rename_dispatch_witness :
  exists st',
    executeCommand host_404 (str "RENAME A, B")
      (start {[ str "vfs/A" := str "HELLO" ]}) = (Ok tt, st') /\
    localStorage st' !! str "vfs/B" = Some (str "HELLO") /\
    localStorage st' !! str "vfs/A" = None.
Proof.
  assert (Hm : js_match re_RENAME (str "RENAME" ++ str " A, B")
               = Some {| cap1 := str "A"; cap2 := str "B"; cap3 := [] |})
    by reflexivity.
  destruct (rename_dispatch host_404 (str " A, B")
              (start {[ str "vfs/A" := str "HELLO" ]}) _ Hm) as (_ & _ & H).
  destruct (H eq_refl (str "HELLO") eq_refl) as (st' & He & H2 & H1 & _).
  exists st'. split; [exact He|]. split; [exact H2|].
  apply H1. discriminate.
Defined.

(** ** PR# *)

(** X14.  A PR# command line without an argument tail, the slot text
    converted to a number by the host: slot 0 and slot 3 return, after
    the firmware of the terminal is switched off or on when the
    terminal has that routine; any other slot fails with code 2 (Range
    error).  With an argument tail the command fails with code 11,
    whatever the slot.  In no case does the session change apart from
    the terminal traffic. *)
Theorem pr_dispatch h rest st m :
  js_match re_PR (str "PR#" ++ rest) = Some m ->
  let command := str "PR#" ++ rest in
  let st0 := traced MON_C (TtyWriteString (command ++ [CR])) st in
  let slot := slot_number h (cap1 m) in
  let firmware active :=
    if has_setFirmwareActive h then echo (TtyFirmware active) st0 else st0 in
  silent (snd (executeCommand h command st)) = silent st /\
  (cap2 m <> [] ->
   executeCommand h command st =
   (Throw (RuntimeError 11 (str "Invalid option")), st0)) /\
  (cap2 m = [] ->
   executeCommand h command st =
   if js_eq slot (Num 0) then (Ok tt, firmware false)
   else if js_eq slot (Num 3) then (Ok tt, firmware true)
   else (Throw (RuntimeError 2 (str "Range error")), st0)).
Proof.
  intros Hm command st0 slot firmware.
  unfold command. rewrite (executeCommand_PR _ _ _ _ Hm).
  fold command. fold st0. fold slot. rewrite bind_run, parseArgs_no_letters.
  assert (Hs : silent st0 = silent st) by apply silent_traced.
  destruct (cap2 m) as [|ch t]; unfold lift.
  - assert (Hrun :
      (if js_eq slot (Num 0)
       then when (has_setFirmwareActive h) (tty (TtyFirmware false))
       else if js_eq slot (Num 3)
            then when (has_setFirmwareActive h) (tty (TtyFirmware true))
            else doserror RANGE_ERROR) st0 =
      if js_eq slot (Num 0) then (Ok tt, firmware false)
      else if js_eq slot (Num 3) then (Ok tt, firmware true)
      else (Throw (RuntimeError 2 (str "Range error")), st0)).
    { unfold firmware.
      destruct (js_eq slot (Num 0)); [by destruct (has_setFirmwareActive h)|].
      destruct (js_eq slot (Num 3)); [by destruct (has_setFirmwareActive h)|].
      done. }
    rewrite Hrun. split; [|split; [done|by intros _]].
    unfold firmware.
    destruct (js_eq slot (Num 0)); [by destruct (has_setFirmwareActive h)|].
    destruct (js_eq slot (Num 3)); [by destruct (has_setFirmwareActive h)|].
    done.
  - split; [done|]. split; [done|]. by intros.
Qed.

Lemma pr_dispatch_witness :
  executeCommand host_terminal (str "PR#3") (start ∅) =
  (Ok tt,
   echo (TtyFirmware true)
     (traced MON_C (TtyWriteString (str "PR#3" ++ [CR])) (start ∅))).
Proof.
  assert (Hm : js_match re_PR (str "PR#" ++ str "3")
               = Some {| cap1 := str "3"; cap2 := []; cap3 := [] |})
    by reflexivity.
  destruct (pr_dispatch host_terminal (str "3") (start ∅) _ Hm)
    as (_ & _ & H).
  exact (H eq_refl).
Defined.

(** ** MON and NOMON *)

Lemma with_monico_same st : with_monico (monico st) st = st.
Proof. by destruct st. Qed.

Lemma monico_traced flag e st : monico (traced flag e st) = monico st.
Proof. unfold traced. by destruct (flag_set _ _). Qed.

(** X15.  A MON command line whose arguments parse, in a session: it
    returns, and each of the flags I, C and O is set afterwards exactly
    when it was set before or its letter stands in the arguments;
    nothing else changes (the command itself is traced by the flags as
    they were before). *)
Theorem mon_sets_flags h rest st m args :
  reachable st ->
  js_match re_MON (str "MON" ++ rest) = Some m ->
  parseArgs (cap1 m) (str "ICO") = Ok args ->
  let command := str "MON" ++ rest in
  let st0 := traced MON_C (TtyWriteString (command ++ [CR])) st in
  exists flags,
    executeCommand h command st = (Ok tt, with_monico flags st0) /\
    flag_set flags MON_I = flag_set (monico st) MON_I || is_some (arg_I args) /\
    flag_set flags MON_C = flag_set (monico st) MON_C || is_some (arg_C args) /\
    flag_set flags MON_O = flag_set (monico st) MON_O || is_some (arg_O args).
Proof.
  intros Hr Hm Hargs command st0. apply reachable_flags in Hr.
  unfold command. rewrite (executeCommand_MON _ _ _ _ Hm).
  fold command. fold st0. rewrite bind_run, Hargs. unfold lift.
  assert (Hmo : monico st0 = monico st) by apply monico_traced.
  unfold flags_ok in Hr.
  destruct (arg_I args), (arg_C args), (arg_O args); mrun;
    (eexists; split;
     [first [reflexivity | by rewrite with_monico_same]|]);
    rewrite Hmo; flag_cases (monico st) Hr; by vm_compute.
Qed.

Lemma mon_sets_flags_witness :
  exists flags,
    executeCommand host_404 (str "MON,I,O") (start ∅) =
      (Ok tt, with_monico flags
                (traced MON_C (TtyWriteString (str "MON,I,O" ++ [CR]))
                   (start ∅))) /\
    flag_set flags MON_I = true /\
    flag_set flags MON_C = false /\
    flag_set flags MON_O = true.
Proof.
  apply (mon_sets_flags host_404 (str ",I,O") (start ∅)
           {| cap1 := str ",I,O"; cap2 := []; cap3 := [] |}
           (set_arg (str "O") (Num 0) (set_arg (str "I") (Num 0) default_args))).
  - apply reach_start.
  - reflexivity.
  - reflexivity.
Defined.

(** X16.  A NOMON command line whose arguments parse, in a session: it
    returns, and each of the flags I, C and O is set afterwards exactly
    when it was set before and its letter does not stand in the
    arguments; nothing else changes. *)
Theorem nomon_clears_flags h rest st m args :
  reachable st ->
  js_match re_NOMON (str "NOMON" ++ rest) = Some m ->
  parseArgs (cap1 m) (str "ICO") = Ok args ->
  let command := str "NOMON" ++ rest in
  let st0 := traced MON_C (TtyWriteString (command ++ [CR])) st in
  exists flags,
    executeCommand h command st = (Ok tt, with_monico flags st0) /\
    flag_set flags MON_I =
      flag_set (monico st) MON_I && negb (is_some (arg_I args)) /\
    flag_set flags MON_C =
      flag_set (monico st) MON_C && negb (is_some (arg_C args)) /\
    flag_set flags MON_O =
      flag_set (monico st) MON_O && negb (is_some (arg_O args)).
Proof.
  intros Hr Hm Hargs command st0. apply reachable_flags in Hr.
  unfold command. rewrite (executeCommand_NOMON _ _ _ _ Hm).
  fold command. fold st0. rewrite bind_run, Hargs. unfold lift.
  assert (Hmo : monico st0 = monico st) by apply monico_traced.
  unfold flags_ok in Hr.
  destruct (arg_I args), (arg_C args), (arg_O args); mrun;
    (eexists; split;
     [first [reflexivity | by rewrite with_monico_same]|]);
    rewrite Hmo; flag_cases (monico st) Hr; by vm_compute.
Qed.

Lemma nomon_clears_flags_witness :
  exists flags,
    executeCommand host_404 (str "NOMON,C")
      (run [(host_404, OpCommand (str "MON,C,I"))] (start ∅)) =
      (Ok tt, with_monico flags
                (traced MON_C (TtyWriteString (str "NOMON,C" ++ [CR]))
                   (run [(host_404, OpCommand (str "MON,C,I"))] (start ∅)))) /\
    flag_set flags MON_I = true /\
    flag_set flags MON_C = false /\
    flag_set flags MON_O = false.
Proof.
  apply (nomon_clears_flags host_404 (str ",C")
           (run [(host_404, OpCommand (str "MON,C,I"))] (start ∅))
           {| cap1 := str ",C"; cap2 := []; cap3 := [] |}
           (set_arg (str "C") (Num 0) default_args)).
  - apply reachable_run, reach_start.
  - reflexivity.
  - reflexivity.
Defined.

(** ** The command channel of [_dos_writeChar] *)

Lemma for_each_app {A : Type} (l1 l2 : list A) (body : A -> M unit) st :
  for_each (l1 ++ l2) body st = (for_each l1 body;; for_each l2 body) st.
Proof.
  revert st. induction l1 as [|x l1 IH]; intros st; simpl.
  - rewrite bind_run. reflexivity.
  - rewrite !bind_run. destruct (body x st) as [[[]|e] st1]; [|done].
    rewrite IH. by rewrite bind_run.
Qed.

Lemma writeChar_command h c st :
  commandMode st = true -> c <> CR ->
  writeChar h c st = (Ok tt, with_commandBuffer (commandBuffer st ++ [c]) st).
Proof.
  intros Hcm Hc. unfold writeChar. rewrite bind_run. unfold gets at 1.
  rewrite Hcm. apply Ascii.eqb_neq in Hc. by rewrite Hc.
Qed.

Lemma write_chars_command h cs : forall st,
  commandMode st = true -> Forall (fun c => c <> CR) cs ->
  write_chars h cs st = (Ok tt, with_commandBuffer (commandBuffer st ++ cs) st).
Proof.
  unfold write_chars.
  induction cs as [|c cs IH]; intros st Hcm Hcs; simpl.
  - rewrite app_nil_r. by destruct st.
  - apply Forall_cons in Hcs as [Hc Hcs].
    rewrite bind_run, (writeChar_command _ _ _ Hcm Hc).
    rewrite IH by done. simpl. by rewrite <- app_assoc.
Qed.

Lemma writeChar_escape h st :
  commandMode st = false ->
  writeChar h EOT st =
  (Ok tt, with_commandMode true (with_commandBuffer [] st)).
Proof.
  intros Hcm. unfold writeChar. rewrite bind_run. unfold gets at 1.
  by rewrite Hcm.
Qed.

Lemma writeChar_return h st :
  commandMode st = true ->
  writeChar h CR st =
  match executeCommand h (commandBuffer st) (with_commandMode false st) with
  | (Ok _, st') => (Ok tt, with_commandBuffer [] st')
  | (Throw e, st') => (Throw e, st')
  end.
Proof.
  intros Hcm. unfold writeChar. rewrite bind_run. unfold gets at 1.
  rewrite Hcm. change (Ascii.eqb CR CR) with true. cbv iota.
  rewrite bind_run. unfold modify at 1.
  rewrite bind_run. unfold gets at 1. cbn [commandBuffer with_commandMode].
  rewrite bind_run.
  by destruct (executeCommand h (commandBuffer st) (with_commandMode false st))
    as [[[]|e] st'].
Qed.

(** X17.  A command typed on the output channel: from a state outside
    command mode, the escape 0x04, a line without a carriage return and
    a carriage return hand exactly that line to the dispatcher, outside
    command mode; when the command returns the command buffer is
    emptied, and when it throws the exception goes to the writer and
    the line stays in the command buffer. *)
Theorem typed_command_runs h line st :
  commandMode st = false -> Forall (fun c => c <> CR) line ->
  write_chars h ([EOT] ++ line ++ [CR]) st =
  match executeCommand h line (with_commandBuffer line st) with
  | (Ok _, st') => (Ok tt, with_commandBuffer [] st')
  | (Throw e, st') => (Throw e, st')
  end.
Proof.
  intros Hcm Hline. unfold write_chars.
  rewrite for_each_app, bind_run. simpl for_each at 1.
  rewrite bind_run, (writeChar_escape _ _ Hcm). simpl.
  rewrite for_each_app, bind_run.
  pose proof (write_chars_command h line
                (with_commandMode true (with_commandBuffer [] st))
                eq_refl Hline) as Hacc.
  unfold write_chars in Hacc. rewrite Hacc. simpl for_each.
  rewrite bind_run, writeChar_return by done.
  cbn [commandBuffer with_commandBuffer with_commandMode commandMode
       buffers heap activebuffer mode monico localStorage tty_out app].
  replace (with_commandMode false _) with (with_commandBuffer line st)
    by (destruct st; simpl in *; by subst).
  by destruct (executeCommand h line (with_commandBuffer line st))
    as [[[]|e] st'].
Qed.

Lemma typed_command_runs_witness :
  write_chars host_404 ([EOT] ++ str "OPEN F" ++ [CR]) (start ∅) =
  match executeCommand host_404 (str "OPEN F")
          (with_commandBuffer (str "OPEN F") (start ∅)) with
  | (Ok _, st') => (Ok tt, with_commandBuffer [] st')
  | (Throw e, st') => (Throw e, st')
  end.
Proof.
  apply (typed_command_runs host_404 (str "OPEN F") (start ∅)).
  - reflexivity.
  - repeat constructor; discriminate.
Defined.

(** ** Sequences of characters *)

Lemma written_file_at_end f c :
  written_file f (Num (jslength f)) c = f ++ [c].
Proof.
  unfold written_file, zero_filled. simpl.
  rewrite Z.sub_diag. simpl. rewrite app_nil_r.
  by rewrite Z.eqb_refl.
Qed.

Lemma jslength_app (s t : jsstring) : jslength (s ++ t) = jslength s + jslength t.
Proof. unfold jslength. rewrite length_app. lia. Qed.

Lemma traced_update buf b flag e st :
  traced flag e (update buf b st) = update buf b (traced flag e st).
Proof. unfold traced. simpl. by destruct (flag_set _ _). Qed.

Lemma traced_all_update buf b flag es : forall st,
  traced_all flag es (update buf b st) = update buf b (traced_all flag es st).
Proof.
  unfold traced_all. induction es as [|e es IH]; intros st; simpl; [done|].
  by rewrite traced_update, IH.
Qed.

Lemma traced_all_fields flag es : forall st,
  localStorage (traced_all flag es st) = localStorage st /\
  buffers (traced_all flag es st) = buffers st /\
  heap (traced_all flag es st) = heap st /\
  activebuffer (traced_all flag es st) = activebuffer st /\
  mode (traced_all flag es st) = mode st /\
  monico (traced_all flag es st) = monico st /\
  commandMode (traced_all flag es st) = commandMode st /\
  commandBuffer (traced_all flag es st) = commandBuffer st.
Proof.
  unfold traced_all. induction es as [|e es IH]; intros st; simpl; [done|].
  destruct (IH (traced flag e st)) as (-> & -> & -> & -> & -> & -> & -> & ->).
  unfold traced. by destruct (flag_set _ _).
Qed.

Lemma write_chars_data h cs : forall st buf b f,
  commandMode st = false -> mode st = MWrite ->
  activebuffer st = Some buf -> heap st !! buf = Some b ->
  file b = Some f -> filepointer b = Num (jslength f) ->
  Forall (fun c => c <> EOT) cs ->
  write_chars h cs st =
  (Ok tt,
   update buf
     {| file := Some (f ++ cs);
        recordlength := recordlength b;
        recordnum := recordnum b;
        filepointer := Num (jslength f + jslength cs) |}
     (traced_all MON_O (map (fun c => TtyWriteChar (Some c)) cs) st)).
Proof.
  unfold write_chars.
  induction cs as [|c cs IH]; intros st buf b f Hcm Hm Ha Hb Hf Hp Hcs.
  - simpl. rewrite app_nil_r, Z.add_0_r, <- Hf, <- Hp. f_equal. symmetry.
    replace {| file := file b; recordlength := recordlength b;
               recordnum := recordnum b; filepointer := filepointer b |}
      with b by by destruct b.
    by apply update_same.
  - apply Forall_cons in Hcs as [Hc Hcs]. simpl for_each.
    rewrite bind_run, (writeChar_data _ _ _ Hcm Hc Hm).
    rewrite (write_to_file_run _ _ _ _ _ Ha Hb Hf).
    set (st0 := traced MON_O (TtyWriteChar (Some c)) st).
    set (b1 := char_written b f c).
    destruct (traced_fields MON_O (TtyWriteChar (Some c)) st)
      as (_ & _ & Hhp & Hab & Hmd). fold st0 in Hhp, Hab, Hmd.
    assert (Hb0 : heap st0 !! buf = Some b) by by rewrite Hhp.
    rewrite (IH (update buf b1 st0) buf b1 (f ++ [c])); try done.
    + rewrite traced_all_update, update_update. simpl.
      unfold b1, char_written. simpl.
      rewrite <- app_assoc, jslength_app. simpl.
      replace (jslength f + jslength [c] + jslength cs)
        with (jslength f + jslength (c :: cs)); [done|].
      unfold jslength. simpl length. lia.
    + simpl. unfold st0, traced. by destruct (flag_set _ _).
    + simpl. by rewrite Hmd.
    + simpl. by rewrite Hab.
    + by eapply heap_update_same.
    + unfold b1, char_written. simpl.
      by rewrite Hp, written_file_at_end.
    + unfold b1, char_written. simpl. rewrite Hp. simpl.
      by rewrite jslength_app.
Qed.

(** X18.  Characters written at the end of the content are appended in
    order: in write mode, outside command mode, with the pointer at the
    length of the content, writing a text that holds no escape 0x04
    leaves the content followed by the text and the pointer at the new
    length; the record length, the record number and the rest of the
    session are as before, and the characters are traced in order when
    output is monitored. *)
Theorem write_sequence_appends h cs st buf b f :
  commandMode st = false -> mode st = MWrite ->
  activebuffer st = Some buf -> heap st !! buf = Some b ->
  file b = Some f -> filepointer b = Num (jslength f) ->
  Forall (fun c => c <> EOT) cs ->
  write_chars h cs st =
  (Ok tt,
   update buf
     {| file := Some (f ++ cs);
        recordlength := recordlength b;
        recordnum := recordnum b;
        filepointer := Num (jslength f + jslength cs) |}
     (traced_all MON_O (map (fun c => TtyWriteChar (Some c)) cs) st)).
Proof. apply write_chars_data. Qed.

Lemma write_sequence_appends_witness :
  write_chars host_404 (str "HELLO") session_write_start =
  (Ok tt,
   update 0
     {| file := Some (str "HELLO");
        recordlength := Num 1;
        recordnum := Num 0;
        filepointer := Num 5 |}
     (traced_all MON_O (map (fun c => TtyWriteChar (Some c)) (str "HELLO"))
        session_write_start)).
Proof.
  apply (write_sequence_appends host_404 (str "HELLO") session_write_start
           0%nat
           {| file := Some []; recordlength := Num 1;
              recordnum := Num 0; filepointer := Num 0 |} []).
  - reflexivity.
  - reflexivity.
  - reflexivity.
  - reflexivity.
  - reflexivity.
  - reflexivity.
  - repeat constructor; discriminate.
Defined.

Lemma js_index_app (pre : jsstring) c rest :
  js_index (pre ++ c :: rest) (Num (jslength pre)) = Some c.
Proof.
  unfold js_index, jslength.
  destruct (Z.ltb_spec (Z.of_nat (length pre)) 0) as [Hlt|_]; [lia|].
  rewrite Nat2Z.id. by rewrite list_lookup_middle.
Qed.

Lemma before_end (pre : jsstring) c rest :
  js_ge (Num (jslength pre)) (Num (jslength (pre ++ c :: rest))) = false.
Proof.
  unfold js_ge. rewrite jslength_app. unfold jslength. cbn [length].
  apply Z.leb_gt. lia.
Qed.

Lemma read_chars_run cs : forall st buf b pre post,
  mode st = MRead -> activebuffer st = Some buf ->
  heap st !! buf = Some b -> file b = Some (pre ++ cs ++ post) ->
  filepointer b = Num (jslength pre) ->
  read_chars (length cs) st =
  (Ok (map (fun c => FromFile (Some c)) cs),
   update buf (set_filepointer (Num (jslength pre + jslength cs)) b)
     (traced_all MON_I (map (fun c => TtyWriteChar (Some c)) cs) st)).
Proof.
  induction cs as [|c cs IH]; intros st buf b pre post Hm Ha Hb Hf Hp.
  - simpl. rewrite Z.add_0_r, <- Hp. f_equal. symmetry.
    replace (set_filepointer (filepointer b) b) with b by by destruct b.
    by apply update_same.
  - cbn [read_chars length]. rewrite bind_run.
    rewrite (readChar_run _ _ _ _ Hm Ha Hb Hf), Hp.
    simpl app. rewrite before_end, js_index_app.
    set (st0 := update buf _ st).
    destruct (traced_fields MON_I (TtyWriteChar (Some c)) st0)
      as (_ & _ & Hhp & Hab & Hmd).
    rewrite bind_run.
    rewrite (IH _ buf (set_filepointer (Num (jslength pre + 1)) b)
               (pre ++ [c]) post).
    + simpl. unfold mret, M_ret. f_equal.
      unfold st0. rewrite traced_update, traced_all_update, update_update.
      unfold set_filepointer. simpl. rewrite jslength_app.
      replace (jslength pre + jslength [c] + jslength cs)
        with (jslength pre + jslength (c :: cs)); [done|].
      unfold jslength. simpl length. lia.
    + by rewrite Hmd.
    + by rewrite Hab.
    + rewrite Hhp. unfold st0. by eapply heap_update_same.
    + simpl. rewrite Hf. by rewrite <- app_assoc.
    + simpl. rewrite jslength_app. done.
Qed.

(** X19.  Characters are read back in order: in read mode, with the
    pointer somewhere in the content, as many calls of [readChar] as
    there are characters in a stretch that starts at the pointer
    deliver those characters one by one and leave the pointer after the
    stretch; nothing else changes but the trace of the characters when
    input is monitored. *)
Theorem readChar_sequence cs st buf b pre post :
  mode st = MRead -> activebuffer st = Some buf ->
  heap st !! buf = Some b -> file b = Some (pre ++ cs ++ post) ->
  filepointer b = Num (jslength pre) ->
  read_chars (length cs) st =
  (Ok (map (fun c => FromFile (Some c)) cs),
   update buf
     {| file := file b; recordlength := recordlength b;
        recordnum := recordnum b;
        filepointer := Num (jslength pre + jslength cs) |}
     (traced_all MON_I (map (fun c => TtyWriteChar (Some c)) cs) st)).
Proof. apply read_chars_run. Qed.

Lemma readChar_sequence_witness :
  read_chars 2 session_read =
  (Ok [FromFile (Some "T"%char); FromFile (Some "A"%char)],
   update 0
     {| file := Some (str "DATA"); recordlength := Num 1;
        recordnum := Num 0; filepointer := Num 4 |}
     (traced_all MON_I
        [TtyWriteChar (Some "T"%char); TtyWriteChar (Some "A"%char)]
        session_read)).
Proof.
  apply (readChar_sequence (str "TA") session_read 0%nat
           {| file := Some (str "DATA"); recordlength := Num 1;
              recordnum := Num 0; filepointer := Num 2 |} (str "DA") []);
    reflexivity.
Defined.

(** ** Lines *)

Lemma line_char_not_terminator c :
  line_char c -> is_terminator (Some c) = false.
Proof.
  intros (H1 & H2 & H3). simpl.
  apply Ascii.eqb_neq in H1, H2, H3. by rewrite H1, H2, H3.
Qed.

Lemma before_end_lt (pre : jsstring) c rest :
  js_lt (Num (jslength pre)) (Num (jslength (pre ++ c :: rest))) = true.
Proof.
  unfold js_lt, js_gt. rewrite jslength_app. unfold jslength. cbn [length].
  apply Z.ltb_lt. lia.
Qed.

Lemma readLine_loop_scan line : forall fuel pre rest acc,
  Forall line_char line ->
  (length line + length rest <= fuel)%nat ->
  (rest = [] \/ exists t post, rest = t :: post /\ is_terminator (Some t) = true) ->
  readLine_loop fuel (pre ++ line ++ rest) (Num (jslength pre)) acc =
  (Num (jslength pre + jslength line +
        match rest with [] => 0 | _ :: _ => 1 end),
   acc ++ map Some line).
Proof.
  induction line as [|c line IH]; intros fuel pre rest acc Hline Hfuel Hrest.
  - simpl app. rewrite app_nil_r. unfold jslength at 2. simpl length.
    destruct Hrest as [-> | (t & post & -> & Ht)].
    + rewrite app_nil_r, !Z.add_0_r. destruct fuel; cbn [readLine_loop]; [done|].
      replace (js_lt (Num (jslength pre)) (Num (jslength pre))) with false;
        [done|]. symmetry. simpl. lia.
    + destruct fuel as [|fuel]; [simpl in Hfuel; lia|]. cbn [readLine_loop].
      cbv zeta. rewrite before_end_lt, !js_index_app, Ht. simpl.
      by rewrite Z.add_0_r.
  - apply Forall_cons in Hline as [Hc Hline].
    destruct fuel as [|fuel]; [simpl in Hfuel; lia|]. cbn [readLine_loop].
    cbv zeta. cbn [app]. rewrite before_end_lt, !js_index_app.
    rewrite (line_char_not_terminator _ Hc).
    replace (js_add (Num (jslength pre)) (Num 1))
      with (Num (jslength (pre ++ [c])))
      by (rewrite jslength_app; reflexivity).
    replace (pre ++ c :: line ++ rest) with ((pre ++ [c]) ++ line ++ rest)
      by by rewrite <- app_assoc.
    rewrite IH; [|done|simpl in Hfuel; lia|done].
    rewrite jslength_app, <- app_assoc. simpl. f_equal. f_equal.
    unfold jslength. simpl length. lia.
Qed.

Lemma readLine_scan prompt st buf b pre line rest :
  mode st = MRead -> activebuffer st = Some buf ->
  heap st !! buf = Some b -> file b = Some (pre ++ line ++ rest) ->
  filepointer b = Num (jslength pre) ->
  Forall line_char line ->
  (rest = [] /\ line <> [] \/
   exists t post, rest = t :: post /\ (t = CR \/ t = LF \/ t = NUL)) ->
  readLine prompt st =
  (Ok (FromFile line),
   traced MON_I (TtyWriteString (prompt ++ line ++ [CR]))
     (update buf
        {| file := file b; recordlength := recordlength b;
           recordnum := recordnum b;
           filepointer :=
             Num (jslength pre + jslength line +
                  match rest with [] => 0 | _ :: _ => 1 end) |}
        st)).
Proof.
  intros Hm Ha Hb Hf Hp Hline Hrest.
  rewrite (readLine_run _ _ _ _ _ Hm Ha Hb Hf), Hp.
  assert (Hlen : jslength (pre ++ line ++ rest)
                 = jslength pre + jslength line + jslength rest)
    by (rewrite !jslength_app; lia).
  replace (js_ge (Num (jslength pre)) (Num (jslength (pre ++ line ++ rest))))
    with false.
  2:{ symmetry. unfold js_ge. rewrite Hlen. unfold jslength.
      apply Z.leb_gt.
      destruct Hrest as [[-> Hne] | (t & post & -> & _)].
      - destruct line; [done|]. cbn [length]. lia.
      - cbn [length]. lia. }
  cbv zeta. rewrite readLine_loop_scan; [|done| |].
  - simpl fst. simpl snd. simpl app.
    assert (Hj : join (map Some line) = line).
    { clear. unfold join. induction line as [|c line IH]; simpl; [done|].
      by f_equal. }
    by rewrite Hj.
  - unfold distance. rewrite Hlen. unfold jslength. lia.
  - destruct Hrest as [[-> _] | (t & post & -> & Ht)]; [by left|].
    right. exists t, post. split; [done|].
    by destruct Ht as [->|[->| ->]].
Qed.

(** X20.  A line is read up to its end: in read mode, when the content
    from the pointer on is a text without CR, LF and NUL followed by one
    of these three, [readLine] delivers that text and leaves the pointer
    after the terminator; when the text runs to the end of the content
    and is not empty, [readLine] delivers it and leaves the pointer at
    the end.  The line is traced with the prompt when input is
    monitored. *)
Theorem readLine_line prompt st buf b pre line rest :
  mode st = MRead -> activebuffer st = Some buf ->
  heap st !! buf = Some b -> file b = Some (pre ++ line ++ rest) ->
  filepointer b = Num (jslength pre) ->
  Forall line_char line ->
  (rest = [] /\ line <> [] \/
   exists t post, rest = t :: post /\ (t = CR \/ t = LF \/ t = NUL)) ->
  readLine prompt st =
  (Ok (FromFile line),
   traced MON_I (TtyWriteString (prompt ++ line ++ [CR]))
     (update buf
        {| file := file b; recordlength := recordlength b;
           recordnum := recordnum b;
           filepointer :=
             Num (jslength pre + jslength line +
                  match rest with [] => 0 | _ :: _ => 1 end) |}
        st)).
Proof. apply readLine_scan. Qed.

Lemma readLine_line_witness :
  readLine [] session_hello =
  (Ok (FromFile (str "HELLO")),
   traced MON_I (TtyWriteString ([] ++ str "HELLO" ++ [CR]))
     (update 0
        {| file := Some (str "HELLO"); recordlength := Num 5;
           recordnum := Num 0; filepointer := Num 5 |}
        session_hello)).
Proof.
  apply (readLine_line [] session_hello 0%nat
           {| file := Some (str "HELLO"); recordlength := Num 5;
              recordnum := Num 0; filepointer := Num 0 |}
           [] (str "HELLO") []).
  - reflexivity.
  - reflexivity.
  - reflexivity.
  - reflexivity.
  - reflexivity.
  - repeat constructor; discriminate.
  - left. split; [reflexivity | discriminate].
Defined.

(** ** Writing and reading back *)

Lemma heap_traced flag e st : heap (traced flag e st) = heap st.
Proof. apply traced_fields. Qed.
Lemma buffers_traced flag e st : buffers (traced flag e st) = buffers st.
Proof. apply traced_fields. Qed.
Lemma activebuffer_traced flag e st :
  activebuffer (traced flag e st) = activebuffer st.
Proof. apply traced_fields. Qed.
Lemma mode_traced flag e st : mode (traced flag e st) = mode st.
Proof. apply traced_fields. Qed.
Lemma localStorage_traced flag e st :
  localStorage (traced flag e st) = localStorage st.
Proof. apply traced_fields. Qed.
Lemma commandMode_traced flag e st :
  commandMode (traced flag e st) = commandMode st.
Proof. unfold traced. by destruct (flag_set _ _). Qed.

Lemma heap_traced_all flag es st : heap (traced_all flag es st) = heap st.
Proof. apply traced_all_fields. Qed.
Lemma buffers_traced_all flag es st :
  buffers (traced_all flag es st) = buffers st.
Proof. apply traced_all_fields. Qed.
Lemma activebuffer_traced_all flag es st :
  activebuffer (traced_all flag es st) = activebuffer st.
Proof. apply traced_all_fields. Qed.
Lemma mode_traced_all flag es st : mode (traced_all flag es st) = mode st.
Proof. apply traced_all_fields. Qed.
Lemma localStorage_traced_all flag es st :
  localStorage (traced_all flag es st) = localStorage st.
Proof. apply traced_all_fields. Qed.
Lemma commandMode_traced_all flag es st :
  commandMode (traced_all flag es st) = commandMode st.
Proof. apply traced_all_fields. Qed.

Create Rewrite HintDb fields.
#[global] Hint Rewrite heap_traced buffers_traced activebuffer_traced
  mode_traced localStorage_traced commandMode_traced monico_traced
  heap_traced_all buffers_traced_all activebuffer_traced_all
  mode_traced_all localStorage_traced_all commandMode_traced_all : fields.

Ltac fields :=
  repeat (progress (autorewrite with fields;
                    cbn [heap buffers activebuffer mode localStorage
                         commandMode commandBuffer monico tty_out
                         update activate deactivate setItem removeItem
                         bind_name unbind_name allocate echo
                         with_heap with_buffers with_activebuffer with_mode
                         with_localStorage with_commandMode
                         with_commandBuffer with_monico with_tty_out])).



(** ** Record addressing *)

(** The content after one character is written at a pointer that is not
    negative: the character stands at the pointer, the content has grown
    as far as needed, the characters it had elsewhere are kept, and the
    indices between its old end and the pointer hold 0x00. *)
Lemma written_file_spec f p c :
  0 <= p ->
  written_file f (Num p) c !! Z.to_nat p = Some c /\
  length (written_file f (Num p) c) = Nat.max (length f) (Z.to_nat p + 1) /\
  (forall i, (i < length f)%nat -> i <> Z.to_nat p ->
     written_file f (Num p) c !! i = f !! i) /\
  (forall i, (length f <= i < Z.to_nat p)%nat ->
     written_file f (Num p) c !! i = Some NUL).
Proof.
  intros Hp.
  destruct (Z.lt_trichotomy p (jslength f)) as [Hlt | [Heq | Hgt]].
  - rewrite written_file_inside by done. unfold jslength in Hlt.
    split; [|split; [|split]].
    + apply list_lookup_insert_eq. lia.
    + rewrite length_insert. lia.
    + intros i _ Hi. by apply list_lookup_insert_ne.
    + intros i Hi. lia.
  - subst p. rewrite written_file_at_end. unfold jslength.
    rewrite Nat2Z.id. split; [|split; [|split]].
    + by rewrite list_lookup_middle.
    + rewrite length_app. simpl. lia.
    + intros i Hi _. by apply lookup_app_l.
    + intros i Hi. lia.
  - rewrite written_file_beyond by done. unfold jslength in *.
    split; [|split; [|split]].
    + rewrite app_assoc. apply list_lookup_middle.
      rewrite length_app, length_replicate. lia.
    + rewrite !length_app, length_replicate. simpl. lia.
    + intros i Hi _. by apply lookup_app_l.
    + intros i Hi. rewrite lookup_app_r by lia.
      rewrite lookup_app_l by (rewrite length_replicate; lia).
      apply lookup_replicate_2. lia.
Qed.



(** ** APPEND *)

(** X23.  APPEND of a name that is neither stored nor served (the
    request completes with a status other than 200 and 0), the name
    being one that the buffer table does not inherit and no buffer being
    bound under the name hasOwnProperty, raises no DOS error: the read
    of the length of the missing content throws a TypeError, and the
    name is left bound to a new buffer without content. *)
Theorem append_missing h name reclength st status text :
  ordinary name = true -> buffers st !! str "hasOwnProperty" = None ->
  localStorage st !! (STORAGE_PREFIX ++ name) = None ->
  xhr h name = XhrDone status text ->
  (status =? 200) || (status =? 0) = false ->
  append h name reclength st =
    (Throw TypeError, opened name None reclength st) /\
  buffers (opened name None reclength st) !! name = Some (length (heap st)) /\
  heap (opened name None reclength st) !! length (heap st) =
    Some {| file := None;
            recordlength :=
              if js_eq reclength (Num 0) then Num 1 else reclength;
            recordnum := Num 0; filepointer := Num 0 |}.
Proof.
  intros _ _ Hnone Hx Hs. split.
  - rewrite (append_via h name reclength st None st); [done|].
    by eapply open_missing.
  - apply opened_lookup.
Qed.

Lemma append_missing_witness :
  append host_404 (str "F") (Num 0) (start ∅) =
    (Throw TypeError, opened (str "F") None (Num 0) (start ∅)) /\
  buffers (opened (str "F") None (Num 0) (start ∅)) !! str "F" = Some 0%nat /\
  heap (opened (str "F") None (Num 0) (start ∅)) !! 0%nat =
    Some {| file := None; recordlength := Num 1;
            recordnum := Num 0; filepointer := Num 0 |}.
Proof.
  apply (append_missing host_404 (str "F") (Num 0) (start ∅) 404 []);
    reflexivity.
Defined.

(** X24.  Appending to a stored file: APPEND of a stored name (one that
    the buffer table does not inherit, no buffer being bound under the
    name hasOwnProperty), WRITE of that name at any record and byte 0,
    the characters of a text that holds no escape 0x04, and CLOSE of the
    name leave the old text followed by the new one in the store, and
    the name closed. *)
Theorem append_write_close h name r cs st text :
  name <> [] -> ordinary name = true ->
  buffers st !! str "hasOwnProperty" = None ->
  commandMode st = false ->
  localStorage st !! (STORAGE_PREFIX ++ name) = Some text ->
  Forall (fun c => c <> EOT) cs ->
  exists st',
    (append h name (Num 0);;
     write name r (Num 0);;
     write_chars h cs;;
     close name) st = (Ok tt, st') /\
    localStorage st' !! (STORAGE_PREFIX ++ name) = Some (text ++ cs) /\
    buffers st' !! name = None /\ mode st' = MNone.
Proof.
  intros Hname _ _ Hcm Hstore Hcs.
  rewrite bind_run.
  rewrite (append_via h name (Num 0) st (Some text) st)
    by by apply open_cached.
  destruct (opened_lookup name (Some text) (Num 0) st) as [Hbo Hho].
  set (n := length (heap st)) in *.
  set (sO := opened name (Some text) (Num 0) st) in *.
  set (bA := at_end (fresh_buffer (Some text) (Num 0)) text).
  set (sA := update n bA sO).
  assert (HbA : buffers sA !! name = Some n) by done.
  assert (HhA : heap sA !! n = Some bA)
    by (unfold sA; by eapply heap_update_same).
  rewrite bind_run, (write_open _ _ _ _ _ _ HbA HhA).
  cbn [is_null file bA at_end fresh_buffer].
  set (bW := write_positioned bA r (Num 0)).
  set (sW := activate n MWrite (update n bW sA)).
  assert (HhW : heap sW !! n = Some bW).
  { unfold sW. fields. by eapply insert_lookup_same. }
  rewrite bind_run.
  rewrite (write_chars_data h cs sW n bW text); try done.
  2:{ unfold bW, write_positioned, bA. simpl. by rewrite Z.add_0_r. }
  set (bC := {| file := Some (text ++ cs) |}).
  set (sC := update n bC _).
  assert (HbC : buffers sC !! name = Some n).
  { unfold sC. fields. unfold sW. fields. exact HbA. }
  assert (HhC : heap sC !! n = Some bC).
  { unfold sC. eapply heap_update_same. rewrite heap_traced_all. exact HhW. }
  rewrite (close_named _ Hname), (close_one_open _ _ _ _ HbC HhC).
  eexists. split; [done|].
  assert (Hact : activebuffer sC = Some n).
  { unfold sC. fields. unfold sW. by fields. }
  unfold closed. rewrite Hact, bool_decide_eq_true_2 by done.
  fields. repeat split.
  - by rewrite lookup_insert_eq.
  - by rewrite lookup_delete_eq.
Qed.

Lemma append_write_close_witness :
  exists st',
    (append host_404 (str "F") (Num 0);;
     write (str "F") (Num 0) (Num 0);;
     write_chars host_404 (str "LO");;
     close (str "F")) (start {[ str "vfs/F" := str "HEL" ]}) = (Ok tt, st') /\
    localStorage st' !! (STORAGE_PREFIX ++ str "F") = Some (str "HEL" ++ str "LO") /\
    buffers st' !! str "F" = None /\ mode st' = MNone.
Proof.
  apply (append_write_close host_404 (str "F") (Num 0) (str "LO")
           (start {[ str "vfs/F" := str "HEL" ]}) (str "HEL")).
  - discriminate.
  - reflexivity.
  - reflexivity.
  - reflexivity.
  - reflexivity.
  - repeat constructor; discriminate.
Defined.

(** ** CLOSE *)

Lemma prefix_inj a b : STORAGE_PREFIX ++ a = STORAGE_PREFIX ++ b -> a = b.
Proof. apply app_inv_head. Qed.

(** X25.  CLOSE of a name that the buffer table does not inherit: when
    no buffer is open under the name it returns and changes nothing (no
    error); when a buffer is open it stores the content of the buffer
    under the name, unbinds the name, and ends the read or write run
    exactly when that buffer is the active one; the other names, the
    other entries of the store and the buffer objects are as before. *)
Theorem close_flushes name st :
  name <> [] -> ordinary name = true ->
  (buffers st !! name = None -> close name st = (Ok tt, st)) /\
  (forall buf b,
     buffers st !! name = Some buf -> heap st !! buf = Some b ->
     exists st',
       close name st = (Ok tt, st') /\
       localStorage st' =
         <[STORAGE_PREFIX ++ name := to_text (file b)]> (localStorage st) /\
       buffers st' = delete name (buffers st) /\
       heap st' = heap st /\
       (activebuffer st = Some buf ->
        activebuffer st' = None /\ mode st' = MNone) /\
       (activebuffer st <> Some buf ->
        activebuffer st' = activebuffer st /\ mode st' = mode st)).
Proof.
  intros Hname _. rewrite (close_named _ Hname). split.
  - apply close_one_closed.
  - intros buf b Hbuf Hb. rewrite (close_one_open _ _ _ _ Hbuf Hb).
    eexists. split; [done|]. unfold closed.
    destruct (decide (activebuffer st = Some buf)) as [Ha|Ha].
    + rewrite bool_decide_eq_true_2 by done. by repeat split.
    + rewrite bool_decide_eq_false_2 by done. by repeat split.
Qed.

Lemma close_flushes_witness :
  exists st',
    close (str "F") session_modified = (Ok tt, st') /\
    localStorage st' =
      <[STORAGE_PREFIX ++ str "F" := str "XATA"]>
        (localStorage session_modified) /\
    buffers st' = delete (str "F") (buffers session_modified) /\
    heap st' = heap session_modified /\
    (activebuffer session_modified = Some 0%nat ->
     activebuffer st' = None /\ mode st' = MNone) /\
    (activebuffer session_modified <> Some 0%nat ->
     activebuffer st' = activebuffer session_modified /\
     mode st' = mode session_modified).
Proof.
  destruct (close_flushes (str "F") session_modified) as [_ H];
    [discriminate|reflexivity|].
  exact (H 0%nat
           {| file := Some (str "XATA"); recordlength := Num 1;
              recordnum := Num 0; filepointer := Num 1 |}
           eq_refl eq_refl).
Defined.

Lemma for_each_close_run names : forall st,
  NoDup names -> Inv st ->
  exists st',
    for_each names close_one st = (Ok tt, st') /\
    Inv st' /\ heap st' = heap st /\
    (forall n, n ∈ names -> buffers st' !! n = None) /\
    (forall n, n ∉ names -> buffers st' !! n = buffers st !! n) /\
    (forall n buf b, n ∈ names ->
       buffers st !! n = Some buf -> heap st !! buf = Some b ->
       localStorage st' !! (STORAGE_PREFIX ++ n) = Some (to_text (file b))) /\
    (forall k,
       (forall n, n ∈ names -> is_Some (buffers st !! n) ->
          k <> STORAGE_PREFIX ++ n) ->
       localStorage st' !! k = localStorage st !! k).
Proof.
  induction names as [|x names IH]; intros st Hnd HI.
  - exists st. do 3 (split; [done|]). split; [|split; [done|split; [|done]]].
    + intros n Hn. by apply elem_of_nil in Hn.
    + intros n buf b Hn. by apply elem_of_nil in Hn.
  - apply NoDup_cons in Hnd as [Hx Hnd]. simpl for_each. rewrite bind_run.
    destruct (buffers st !! x) as [buf|] eqn:Hbuf.
    + destruct (inv_buffers _ HI _ _ Hbuf) as [b Hb].
      rewrite (close_one_open _ _ _ _ Hbuf Hb).
      set (st1 := closed x buf b st).
      assert (HI1 : Inv st1) by by apply Inv_closed.
      assert (Hh1 : heap st1 = heap st).
      { unfold st1, closed. by destruct (bool_decide _). }
      assert (Hb1 : buffers st1 = delete x (buffers st)).
      { unfold st1, closed. by destruct (bool_decide _). }
      assert (Hl1 : localStorage st1 =
                    <[STORAGE_PREFIX ++ x := to_text (file b)]>
                      (localStorage st)) by apply localStorage_closed.
      destruct (IH st1 Hnd HI1) as (st' & Hrun & HI' & Hh & Hin & Hout & Hfl & Hfr).
      exists st'. split; [done|]. split; [done|].
      split; [by rewrite Hh|]. repeat split.
      * intros n Hn. apply elem_of_cons in Hn as [->|Hn]; [|by apply Hin].
        rewrite (Hout x Hx), Hb1. apply lookup_delete_eq.
      * intros n Hn. apply not_elem_of_cons in Hn as [Hne Hn].
        rewrite (Hout n Hn), Hb1. by apply lookup_delete_ne.
      * intros n buf' b' Hn Hbuf' Hb'.
        apply elem_of_cons in Hn as [->|Hn].
        -- rewrite Hfr.
           ++ rewrite Hl1, lookup_insert_eq. congruence.
           ++ intros n' Hn' _ Heq. apply prefix_inj in Heq. by subst.
        -- apply (Hfl n buf' b' Hn); [|by rewrite Hh1].
           rewrite Hb1, lookup_delete_ne; [done|]. by intros ->.
      * intros k Hk. rewrite Hfr.
        -- rewrite Hl1, lookup_insert_ne; [done|].
           intros Heq. apply (Hk x); [by left | by eexists | done].
        -- intros n Hn Hsome. apply Hk; [by right|].
           rewrite Hb1 in Hsome.
           rewrite lookup_delete_ne in Hsome; [done|]. by intros ->.
    + rewrite (close_one_closed _ _ Hbuf).
      destruct (IH st Hnd HI) as (st' & Hrun & HI' & Hh & Hin & Hout & Hfl & Hfr).
      exists st'. split; [done|]. split; [done|]. split; [done|].
      repeat split.
      * intros n Hn. apply elem_of_cons in Hn as [->|Hn]; [|by apply Hin].
        by rewrite (Hout x Hx).
      * intros n Hn. apply not_elem_of_cons in Hn as [Hne Hn]. by apply Hout.
      * intros n buf' b' Hn Hbuf' Hb'.
        apply elem_of_cons in Hn as [->|Hn]; [congruence|].
        by apply (Hfl n buf' b').
      * intros k Hk. apply Hfr. intros n Hn Hsome. apply Hk; [by right|done].
Qed.

(** X26.  CLOSE without a name, in a session, when no buffer is bound
    under the names hasOwnProperty and __proto__: it returns with no
    name bound any more; for every buffer that was open the store holds
    its content under its name; the entries of the store under other
    keys and the buffer objects are as before. *)
Theorem close_all_flushes st :
  reachable st ->
  buffers st !! str "hasOwnProperty" = None ->
  buffers st !! str "__proto__" = None ->
  exists st',
    close [] st = (Ok tt, st') /\
    buffers st' = ∅ /\ heap st' = heap st /\
    (forall name buf b,
       buffers st !! name = Some buf -> heap st !! buf = Some b ->
       localStorage st' !! (STORAGE_PREFIX ++ name)
         = Some (to_text (file b))) /\
    (forall k,
       (forall name, is_Some (buffers st !! name) ->
          k <> STORAGE_PREFIX ++ name) ->
       localStorage st' !! k = localStorage st !! k).
Proof.
  intros Hr _ _. apply reachable_Inv in Hr.
  unfold close. rewrite bind_run. unfold gets.
  destruct (for_each_close_run (map_to_list (buffers st)).*1 st
              (NoDup_fst_map_to_list _) Hr)
    as (st' & Hrun & _ & Hh & Hin & Hout & Hfl & Hfr).
  assert (Hkeys : forall n,
            n ∈ (map_to_list (buffers st)).*1 <-> is_Some (buffers st !! n)).
  { intros n. rewrite list_elem_of_fmap. split.
    - intros ([n' buf] & -> & Hin'). apply elem_of_map_to_list in Hin'.
      by eexists.
    - intros [buf Hbuf]. exists (n, buf). split; [done|].
      by apply elem_of_map_to_list. }
  exists st'. split; [done|]. repeat split; try done.
  - apply map_eq. intros n. rewrite lookup_empty.
    destruct (buffers st !! n) as [buf|] eqn:Hbuf.
    + apply Hin, Hkeys. by eexists.
    + rewrite Hout; [done|]. intros Hn. apply Hkeys in Hn as [? Hn].
      congruence.
  - intros name buf b Hbuf Hb. apply (Hfl name buf b); [|done|done].
    apply Hkeys. by eexists.
  - intros k Hk. apply Hfr. intros n Hn _. apply Hk. by apply Hkeys.
Qed.

Lemma close_all_flushes_witness :
  exists st',
    close [] session_modified = (Ok tt, st') /\
    buffers st' = ∅ /\ heap st' = heap session_modified /\
    (forall name buf b,
       buffers session_modified !! name = Some buf ->
       heap session_modified !! buf = Some b ->
       localStorage st' !! (STORAGE_PREFIX ++ name)
         = Some (to_text (file b))) /\
    (forall k,
       (forall name, is_Some (buffers session_modified !! name) ->
          k <> STORAGE_PREFIX ++ name) ->
       localStorage st' !! k = localStorage session_modified !! k).
Proof.
  apply (close_all_flushes session_modified).
  - apply reachable_run, reach_start.
  - reflexivity.
  - reflexivity.
Defined.

(** ** The active buffer after OPEN of its name *)

(** X27.  OPEN of the name of the active buffer (a name that the buffer
    table does not inherit), in a session, when it returns: the name is
    bound to a new object, but the read or write run goes on with the
    old object, which is left as it was.  A CLOSE of the name then
    stores the content of the new object and does not end the run: the
    old object stays the active buffer, with no name bound to the new
    one any more. *)
Theorem reopen_detaches_active h name reclength st old st1 :
  reachable st -> name <> [] -> ordinary name = true ->
  activebuffer st = Some old -> buffers st !! name = Some old ->
  open h name reclength st = (Ok tt, st1) ->
  let new := length (heap st) in
  new <> old /\
  buffers st1 !! name = Some new /\
  activebuffer st1 = Some old /\ mode st1 = mode st /\
  heap st1 !! old = heap st !! old /\
  exists b st2,
    heap st1 !! new = Some b /\
    close name st1 = (Ok tt, st2) /\
    localStorage st2 !! (STORAGE_PREFIX ++ name) = Some (to_text (file b)) /\
    buffers st2 !! name = None /\
    activebuffer st2 = Some old /\ mode st2 = mode st /\
    heap st2 !! old = heap st !! old.
Proof.
  intros Hr Hname _ Ha Hbuf Ho new. apply reachable_Inv in Hr.
  destruct (inv_buffers _ Hr _ _ Hbuf) as [bo Hbo].
  pose proof (lookup_lt_Some _ _ _ Hbo) as Hlt.
  assert (Hne : new <> old) by (unfold new; lia).
  destruct (open_cases h name reclength st)
    as [Ht | (f & st0 & Ho' & Hst0)]; [congruence|].
  rewrite Ho in Ho'. injection Ho' as ->.
  assert (Hh0 : heap st0 = heap st)
    by (destruct Hst0 as [-> | (text & _ & ->)]; done).
  assert (Ha0 : activebuffer st0 = activebuffer st)
    by (destruct Hst0 as [-> | (text & _ & ->)]; done).
  assert (Hm0 : mode st0 = mode st)
    by (destruct Hst0 as [-> | (text & _ & ->)]; done).
  destruct (opened_lookup name f reclength st0) as [Hb1 Hh1].
  rewrite Hh0 in Hb1, Hh1. fold new in Hb1, Hh1.
  assert (Hold : heap (opened name f reclength st0) !! old = heap st !! old).
  { simpl. rewrite Hh0. by apply lookup_app_l. }
  split; [done|]. split; [done|].
  split; [cbn; by rewrite Ha0|]. split; [cbn; by rewrite Hm0|].
  split; [done|].
  exists (fresh_buffer f reclength). eexists. split; [done|].
  split; [rewrite (close_named _ Hname); by apply close_one_open|].
  unfold closed. rewrite bool_decide_eq_false_2.
  2:{ cbn [activebuffer opened bind_name allocate with_buffers with_heap].
      rewrite Ha0, Ha. intros [= H]. by apply Hne. }
  repeat split.
  - cbn. apply lookup_insert_eq.
  - cbn. apply lookup_delete_eq.
  - cbn. by rewrite Ha0.
  - cbn. by rewrite Hm0.
  - cbn. rewrite Hh0. by apply lookup_app_l.
Qed.

Lemma reopen_detaches_active_witness :
  let st1 := snd (open host_200 (str "F") (Num 0) session_modified) in
  1%nat <> 0%nat /\
  buffers st1 !! str "F" = Some 1%nat /\
  activebuffer st1 = Some 0%nat /\ mode st1 = MWrite /\
  heap st1 !! 0%nat = heap session_modified !! 0%nat /\
  exists b st2,
    heap st1 !! 1%nat = Some b /\
    close (str "F") st1 = (Ok tt, st2) /\
    localStorage st2 !! (STORAGE_PREFIX ++ str "F") = Some (to_text (file b)) /\
    buffers st2 !! str "F" = None /\
    activebuffer st2 = Some 0%nat /\ mode st2 = MWrite /\
    heap st2 !! 0%nat = heap session_modified !! 0%nat.
Proof.
  apply (reopen_detaches_active host_200 (str "F") (Num 0) session_modified
           0%nat).
  - apply reachable_run, reach_start.
  - discriminate.
  - reflexivity.
  - reflexivity.
  - reflexivity.
  - reflexivity.
Defined.

(** ** The buffer table of a plain session *)

Lemma names_frame st st' :
  buffers st' = buffers st -> names_ordinary st -> names_ordinary st'.
Proof. intros Hb H name buf. rewrite Hb. apply H. Qed.

Lemma names_bind filename buf st :
  ordinary filename = true -> names_ordinary st ->
  names_ordinary (bind_name filename buf st).
Proof.
  intros Hf H name buf'. cbn.
  destruct (decide (name = filename)) as [->|Hne]; [done|].
  rewrite lookup_insert_ne by done. apply H.
Qed.

Lemma names_unbind filename st :
  names_ordinary st -> names_ordinary (unbind_name filename st).
Proof.
  intros H name buf. cbn. intros Hb.
  apply lookup_delete_Some in Hb as [_ Hb]. by eapply H.
Qed.

Lemma names_empty st : names_ordinary (with_buffers ∅ st).
Proof. intros name buf. cbn. by rewrite lookup_empty. Qed.

Lemma keeps_snd {A : Type} I P (m : M A) st :
  keeps I P m -> I st -> I (snd (m st)).
Proof. intros Hm HI. by apply Hm. Qed.

Section Names.

Ltac framed := intros; eapply names_frame; [|eassumption]; reflexivity.

Ltac names_step :=
  first
    [ apply keeps_bind; [|intros ?]
    | apply keeps_ret
    | apply keeps_gets
    | apply keeps_when
    | apply keeps_modify; framed
    | apply keeps_modify; intros; apply names_bind; assumption
    | apply keeps_modify; intros; apply names_unbind; assumption
    | apply keeps_modify; intros; apply names_empty
    | apply keeps_field; exact I
    | apply keeps_assign; [exact I | framed]
    | apply keeps_new_object; framed
    | apply keeps_throw; exact I
    | apply keeps_parseArgs; exact I
    | match goal with
      | |- keeps _ _ (match ?x with _ => _ end) => destruct x
      end ].

Ltac names_all :=
  unfold tty, doserror, vfs_get, vfs_set, vfs_remove, nonnull, object;
  cbv zeta; repeat names_step.

Lemma open_names h filename reclength :
  ordinary filename = true ->
  keeps names_ordinary any_exception (open h filename reclength).
Proof. intros Hf. unfold open. names_all. Qed.

Lemma close_one_names filename : keeps names_ordinary any_exception (close_one filename).
Proof. unfold close_one. names_all. Qed.

Lemma close_names filename : keeps names_ordinary any_exception (close filename).
Proof.
  unfold close. destruct filename; [|apply close_one_names].
  apply keeps_bind; [apply keeps_gets | intros names].
  apply keeps_for_each, close_one_names.
Qed.

Lemma buffer_or_open_names h filename :
  ordinary filename = true ->
  keeps names_ordinary any_exception (buffer_or_open h filename).
Proof.
  intros Hf. unfold buffer_or_open.
  apply keeps_bind; [apply keeps_gets | intros buf].
  apply keeps_bind; [|intros ?; names_all].
  destruct buf; [apply keeps_ret|].
  apply keeps_bind; [by apply open_names | intros _; apply keeps_gets].
Qed.

Lemma executeCommand_names h command :
  plain_command command ->
  keeps names_ordinary any_exception (executeCommand h command).
Proof.
  unfold plain_command, buffer_name, executeCommand. intros Hp.
  apply keeps_bind; [apply keeps_gets | intros mon].
  apply keeps_bind; [names_all | intros _].
  destruct (js_match re_MON command); [names_all|].
  destruct (js_match re_NOMON command); [names_all|].
  destruct (js_match re_OPEN command).
  { apply keeps_bind; [names_all | intros a]. by apply open_names. }
  destruct (js_match re_APPEND command).
  { apply keeps_bind; [names_all | intros a]. unfold append.
    apply keeps_bind; [by apply open_names | intros _]. names_all. }
  destruct (js_match re_CLOSE command); [apply close_names|].
  destruct (js_match re_POSITION command).
  { apply keeps_bind; [names_all | intros a]. unfold position.
    apply keeps_bind; [by apply buffer_or_open_names | intros buf].
    names_all. }
  destruct (js_match re_READ command).
  { apply keeps_bind; [names_all | intros a]. unfold read.
    apply keeps_bind; [by apply buffer_or_open_names | intros buf].
    names_all. }
  destruct (js_match re_WRITE command).
  { apply keeps_bind; [names_all | intros a]. unfold write. names_all. }
  destruct (js_match re_DELETE command).
  { apply keeps_bind; [names_all | intros a]. unfold unlink. names_all. }
  destruct (js_match re_RENAME command).
  { apply keeps_bind; [names_all | intros a]. unfold rename. names_all. }
  destruct (js_match re_PR command); [names_all|].
  destruct (js_match re_EMPTY command); names_all.
Qed.

Lemma extend_file_names buf : forall fuel,
  keeps names_ordinary any_exception (extend_file fuel buf).
Proof.
  induction fuel as [|fuel IH]; simpl; [apply keeps_ret|].
  names_all. apply IH.
Qed.

Lemma write_to_file_names c : keeps names_ordinary any_exception (write_to_file c).
Proof.
  unfold write_to_file.
  do 5 (apply keeps_bind; [names_all | intros ?]).
  apply keeps_bind; [apply extend_file_names | intros _].
  names_all.
Qed.

Lemma writeChar_names h c st :
  plain st (OpWriteChar c) -> names_ordinary st ->
  names_ordinary (snd (writeChar h c st)).
Proof.
  intros Hp HI. simpl in Hp. destruct (commandMode st) eqn:Hcm.
  - destruct (decide (c = CR)) as [->|Hc].
    + rewrite (writeChar_return _ _ Hcm).
      pose proof (keeps_snd _ _ _ (with_commandMode false st)
                    (executeCommand_names h (commandBuffer st)
                       (Hp eq_refl eq_refl))) as H.
      destruct (executeCommand _ _ _) as [[[]|e] st']; apply H; done.
    + by rewrite (writeChar_command _ _ _ Hcm Hc).
  - destruct (decide (c = EOT)) as [->|Hc].
    + by rewrite (writeChar_escape _ _ Hcm).
    + destruct (decide (mode st = MWrite)) as [Hm|Hm].
      * rewrite (writeChar_data _ _ _ Hcm Hc Hm).
        apply (keeps_snd _ any_exception); [apply write_to_file_names | done].
      * by rewrite (writeChar_terminal _ _ _ Hcm Hc Hm).
Qed.

Lemma step_names h o st :
  plain st o -> names_ordinary st -> names_ordinary (step h o st).
Proof.
  intros Hp HI. unfold step.
  destruct o as [|command|c| |prompt]; cbn [perform].
  - apply (keeps_snd _ any_exception); [|done].
    apply keeps_bind; [|intros ?; apply keeps_ret].
    unfold reset. names_all.
  - apply (keeps_snd _ any_exception); [|done].
    apply keeps_bind; [|intros ?; apply keeps_ret].
    by apply executeCommand_names.
  - rewrite bind_run. pose proof (writeChar_names h c st Hp HI) as H.
    by destruct (writeChar h c st) as [[[]|e] st'].
  - apply (keeps_snd _ any_exception); [|done].
    apply keeps_bind; [|intros ?; apply keeps_ret].
    unfold readChar. names_all.
  - apply (keeps_snd _ any_exception); [|done].
    apply keeps_bind; [|intros ?; apply keeps_ret].
    unfold readLine. names_all.
Qed.

End Names.

Lemma plain_session_names st : plain_session st -> names_ordinary st.
Proof.
  induction 1 as [store | h o st _ IH Hp].
  - intros name buf. cbn. by rewrite lookup_empty.
  - by apply step_names.
Qed.

(** ** Open buffers *)

Lemma plain_session_reachable st : plain_session st -> reachable st.
Proof.
  induction 1 as [store | h o st _ IH _]; [apply reach_start|].
  by apply reach_step.
Qed.

(** X28.  In every state of a session whose operations hand no inherited
    name to a buffer operation, a name of the buffer table is not empty,
    is not an inherited name, and leads to a buffer object whose record
    length is not 0; and the active buffer, if any, is a buffer object
    with content (its file is not [null]). *)
Theorem open_buffers_well_formed st :
  plain_session st ->
  (forall name buf, buffers st !! name = Some buf ->
     name <> [] /\ ordinary name = true /\
     exists b, heap st !! buf = Some b /\ recordlength b <> Num 0) /\
  (forall buf, activebuffer st = Some buf ->
     exists b f, heap st !! buf = Some b /\ file b = Some f).
Proof.
  intros Hp. pose proof (plain_session_reachable _ Hp) as Hr.
  pose proof (reachable_Inv _ Hr) as HI. split.
  - intros name buf Hbuf. split; [by eapply reachable_names|].
    split; [by eapply plain_session_names|].
    destruct (inv_buffers _ HI _ _ Hbuf) as [b Hb]. exists b.
    split; [done|].
    destruct (Inv_heap_lookup _ _ _ HI Hb) as (H1 & H2 & H3 & H4). done.
  - apply (inv_active _ HI).
Qed.

Lemma session_read_plain : plain_session session_read.
Proof.
  unfold session_read. simpl run.
  apply plain_step; [|reflexivity].
  apply plain_step; [|reflexivity].
  apply plain_start.
Qed.

Lemma open_buffers_well_formed_witness :
  (forall name buf, buffers session_read !! name = Some buf ->
     name <> [] /\ ordinary name = true /\
     exists b, heap session_read !! buf = Some b /\
       recordlength b <> Num 0) /\
  (forall buf, activebuffer session_read = Some buf ->
     exists b f, heap session_read !! buf = Some b /\ file b = Some f).
Proof.
  apply (open_buffers_well_formed session_read).
  apply session_read_plain.
Defined.

(** ** The hooked routines in a session *)

Lemma readChar_effect st :
  Inv st ->
  (forall e st', readChar st = (Throw e, st') ->
     e = doserror_exn END_OF_DATA /\ st' = st /\ mode st = MRead) /\
  localStorage (snd (readChar st)) = localStorage st /\
  buffers (snd (readChar st)) = buffers st.
Proof.
  intros HI. destruct (decide (mode st = MRead)) as [Hm|Hm].
  - destruct (Inv_active_buffer st HI) as (buf & b & f & Ha & Hb & Hf);
      [by rewrite Hm|].
    rewrite (readChar_run _ _ _ _ Hm Ha Hb Hf).
    destruct (js_ge _ _).
    + split; [|done]. by intros e st' [= <- <-].
    + split; [done|]. cbn [snd]. by fields.
  - rewrite (readChar_terminal _ Hm). by split.
Qed.

Lemma readLine_effect prompt st :
  Inv st ->
  (forall e st', readLine prompt st = (Throw e, st') ->
     e = doserror_exn END_OF_DATA /\ st' = st /\ mode st = MRead) /\
  localStorage (snd (readLine prompt st)) = localStorage st /\
  buffers (snd (readLine prompt st)) = buffers st.
Proof.
  intros HI. destruct (decide (mode st = MRead)) as [Hm|Hm].
  - destruct (Inv_active_buffer st HI) as (buf & b & f & Ha & Hb & Hf);
      [by rewrite Hm|].
    rewrite (readLine_run _ _ _ _ _ Hm Ha Hb Hf).
    destruct (js_ge _ _).
    + split; [|done]. by intros e st' [= <- <-].
    + split; [done|]. cbn [snd]. by fields.
  - rewrite (readLine_terminal _ _ Hm). by split.
Qed.

Lemma writeChar_effect h c st :
  Inv st -> commandMode st = false \/ c <> CR ->
  fst (writeChar h c st) = Ok tt /\
  localStorage (snd (writeChar h c st)) = localStorage st /\
  buffers (snd (writeChar h c st)) = buffers st.
Proof.
  intros HI Hc. destruct (commandMode st) eqn:Hcm.
  - destruct Hc as [|Hc]; [done|].
    by rewrite (writeChar_command _ _ _ Hcm Hc).
  - destruct (decide (c = EOT)) as [->|Hne].
    + by rewrite (writeChar_escape _ _ Hcm).
    + destruct (decide (mode st = MWrite)) as [Hm|Hm].
      * destruct (Inv_active_buffer st HI) as (buf & b & f & Ha & Hb & Hf);
          [by rewrite Hm|].
        rewrite (writeChar_data _ _ _ Hcm Hne Hm).
        rewrite (write_to_file_run _ _ _ _ _ Ha Hb Hf).
        split; [done|]. cbn [snd]. by fields.
      * by rewrite (writeChar_terminal _ _ _ Hcm Hne Hm).
Qed.



(** X30.  Nothing is stored before CLOSE: in a session, reading a
    character or a line and writing a character (other than the
    carriage return that ends a command) leave the store and the table
    of open names as they are; what is written stays in the buffer. *)
Theorem hooked_routines_keep_store h c prompt st :
  reachable st ->
  (localStorage (snd (readChar st)) = localStorage st /\
   buffers (snd (readChar st)) = buffers st) /\
  (localStorage (snd (readLine prompt st)) = localStorage st /\
   buffers (snd (readLine prompt st)) = buffers st) /\
  (commandMode st = false \/ c <> CR ->
   localStorage (snd (writeChar h c st)) = localStorage st /\
   buffers (snd (writeChar h c st)) = buffers st).
Proof.
  intros Hr. apply reachable_Inv in Hr. split; [|split].
  - apply readChar_effect, Hr.
  - apply readLine_effect, Hr.
  - intros Hc. by apply writeChar_effect.
Qed.

Lemma hooked_routines_keep_store_witness :
  (localStorage (snd (readChar session_modified))
     = localStorage session_modified /\
   buffers (snd (readChar session_modified)) = buffers session_modified) /\
  (localStorage (snd (readLine [] session_modified))
     = localStorage session_modified /\
   buffers (snd (readLine [] session_modified)) = buffers session_modified) /\
  (commandMode session_modified = false \/ "Y"%char <> CR ->
   localStorage (snd (writeChar host_200 "Y" session_modified))
     = localStorage session_modified /\
   buffers (snd (writeChar host_200 "Y" session_modified))
     = buffers session_modified).
Proof.
  apply (hooked_routines_keep_store host_200 "Y" [] session_modified).
  apply reachable_run, reach_start.
Defined.
